(** * Login automation flows: a shallow embedding and its verified properties

    The development embeds the three login entry points of the repository

      - [LoginToLinkedin]             (apps/linkedin/auth/basic-2fa-login.ts)
      - [LoginToComplyAdvantageMesh]  (apps/comply-advantage/mesh/auth/basic-login.ts)
      - [loginWithAgent]              (the agent-based placeholder flow)

    as programs of a small monad over an explicit model of the outside world:
    the process environment, the Anchor client (identity provider and session
    provisioner) and the Playwright page driver.  Every collaborator call is
    recorded in a trace, may return or throw, and is answered by an oracle that
    sees the whole history of calls, so that a statement quantified over all
    worlds covers every behaviour of the collaborators. *)

From Stdlib Require Import ZArith Ascii String.
From stdpp Require Import base tactics option list strings.

Local Open Scope string_scope.
Local Open Scope Z_scope.
Local Open Scope list_scope.

(** ** JavaScript values used by the flows *)

(** A thrown JavaScript value.  [Error] is an instance of [Error] carrying its
    [message]; [ZodError] is the [Error] subclass thrown by a failed schema
    [parse]; [NonError] is any other thrown value, given by its [String(..)]
    rendering. *)
Inductive JsError : Type :=
| Error (message : string)
| ZodError (issues : list string)
| NonError (repr : string).

Inductive Outcome (A : Type) : Type :=
| Returned (a : A)
| Thrown (e : JsError).
Arguments Returned {A} a.
Arguments Thrown {A} e.

(** [!!s] on a string: the empty string is the only falsy one. *)
Definition truthy (s : string) : bool := negb (String.eqb s "").

(** Template rendering of a boolean, as in [`${!!username}`]. *)
Definition show_bool (b : bool) : string := if b then "true" else "false".

(** [hay.includes(needle)] *)
Fixpoint includes (needle hay : string) : bool :=
  if String.prefix needle hay then true
  else match hay with
       | EmptyString => false
       | String _ rest => includes needle rest
       end.

(** [s.toLowerCase()] on the ASCII range (strings are sequences of [ascii]). *)
Definition lower_ascii (c : ascii) : ascii :=
  let n := nat_of_ascii c in
  if ((65 <=? n)%nat && (n <=? 90)%nat)%bool then ascii_of_nat (n + 32) else c.

Fixpoint toLowerCase (s : string) : string :=
  match s with
  | EmptyString => EmptyString
  | String c rest => String (lower_ascii c) (toLowerCase rest)
  end.

(** [s.split('')] : the characters of [s], each as a one-character string. *)
Fixpoint split_chars (s : string) : list string :=
  match s with
  | EmptyString => []
  | String c rest => String c EmptyString :: split_chars rest
  end.

(** [s.trim()] : white space and line terminators removed at both ends.  A
    string is a sequence of bytes, a character outside the ASCII range being
    its UTF-8 encoding.  The characters [trim] removes are TAB, LF, VT, FF, CR
    and SP, the no-break space U+00A0, U+1680, U+2000 to U+200A, the line and
    paragraph separators U+2028 and U+2029, U+202F, U+205F, U+3000 and the
    byte order mark U+FEFF. *)
Definition is_space (c : ascii) : bool :=
  let n := nat_of_ascii c in
  ((9 <=? n)%nat && (n <=? 13)%nat || (n =? 32)%nat)%bool.

(** The three-byte encodings among them. *)
Definition is_wide_space (c1 c2 c3 : ascii) : bool :=
  let n1 := nat_of_ascii c1 in
  let n2 := nat_of_ascii c2 in
  let n3 := nat_of_ascii c3 in
  ((n1 =? 225) && (n2 =? 154) && (n3 =? 128)
   || (n1 =? 226) && (n2 =? 128)
      && ((128 <=? n3) && (n3 <=? 138) || (n3 =? 168) || (n3 =? 169) || (n3 =? 175))
   || (n1 =? 226) && (n2 =? 129) && (n3 =? 159)
   || (n1 =? 227) && (n2 =? 128) && (n3 =? 128)
   || (n1 =? 239) && (n2 =? 187) && (n3 =? 191))%nat%bool.

(** The string after its first character, when that character is one that
    [trim] removes. *)
Definition white_space_rest (s : string) : option string :=
  match s with
  | EmptyString => None
  | String c1 r1 =>
      if is_space c1 then Some r1
      else
        match r1 with
        | EmptyString => None
        | String c2 r2 =>
            if ((nat_of_ascii c1 =? 194) && (nat_of_ascii c2 =? 160))%nat%bool then Some r2
            else
              match r2 with
              | EmptyString => None
              | String c3 r3 => if is_wide_space c1 c2 c3 then Some r3 else None
              end
        end
  end.

(** No more than [fuel] leading white space characters removed. *)
Fixpoint trim_start_upto (fuel : nat) (s : string) : string :=
  match fuel with
  | O => s
  | S fuel' =>
      match white_space_rest s with
      | Some rest => trim_start_upto fuel' rest
      | None => s
      end
  end.

Definition trim_start (s : string) : string := trim_start_upto (String.length s) s.

(** A string of no more than [fuel] characters, all of them white space. *)
Fixpoint white_space_upto (fuel : nat) (s : string) : bool :=
  match s with
  | EmptyString => true
  | String _ _ =>
      match fuel with
      | O => false
      | S fuel' =>
          match white_space_rest s with
          | Some rest => white_space_upto fuel' rest
          | None => false
          end
      end
  end.

(** A string of white space only (the empty string included). *)
Definition blank (s : string) : bool := white_space_upto (String.length s) s.

Fixpoint trim_end (s : string) : string :=
  match s with
  | EmptyString => EmptyString
  | String c rest => if blank s then EmptyString else String c (trim_end rest)
  end.

Definition trim (s : string) : string := trim_end (trim_start s).

(** The message of a [ZodError].  [zod] renders the issues of a failed parse
    into one text; the issues are kept here by their messages, and the text
    stands for that rendering: the statements below rely on no more of it than
    the issues it is made from. *)
Definition zod_message (issues : list string) : string :=
  String.concat "; " issues.

(** [error instanceof Error ? error.message : String(error)] *)
Definition errorMessage (e : JsError) : string :=
  match e with
  | Error m => m
  | ZodError issues => zod_message issues
  | NonError r => r
  end.

(** The double-quote character, and a text between double quotes (for the
    selectors that contain attribute values). *)
Definition dq : string := String (ascii_of_nat 34) EmptyString.
Definition quoted (s : string) : string := dq +:+ s +:+ dq.

(** [a || b] on strings *)
Definition or_else (a b : string) : string := if truthy a then a else b.

(** ** Credential bundles (the identity provider's response) *)

Record CustomField : Type := { field_name : string; field_value : string }.

Inductive Credential : Type :=
| username_password (username password : string)
| authenticator (otp : option string)
| custom (fields : list CustomField).

Module Identity.
Record CredentialsResponse : Type := {
  name : string;
  source : string;
  credentials : list Credential
}.
End Identity.
Abbreviation IdentityCredentialsResponse := Identity.CredentialsResponse.

Record LoginResult : Type := { success : bool; message : string }.

(** ** The page driver and the Anchor client *)

Definition Browser := nat.
Definition BrowserContext := nat.
Definition Page := nat.

Inductive Locator : Type :=
| locator (page : Page) (selector : string)
| sub_locator (parent : Locator) (selector : string)
| first (l : Locator)
| nth (l : Locator) (index : Z).

(** The options object handed to [client.browser.create]. *)
Inductive BrowserConfiguration : Type :=
| no_configuration            (* create()   *)
| empty_configuration         (* create({}) *)
| stealth_configuration.      (* proxy, captcha_solver and extra_stealth active *)

(** One call to a collaborator. *)
Inductive Action : Type :=
| NewAnchorBrowser
| RetrieveCredentials (identityId : string)
| Connect (sessionId : string)
| Create (configuration : BrowserConfiguration)
| AgentTask (prompt sessionId url : string)
| Contexts (browser : Browser)
| Pages (context : BrowserContext)
| Close (browser : Browser)
| WaitForEvent (context : BrowserContext) (event : string) (timeout : Z)
| Goto (page : Page) (url waitUntil : string) (timeout : Z)
| WaitForSelector (page : Page) (selector : string) (timeout : Z)
| WaitForURL (page : Page) (pattern : string) (timeout : Z)
| WaitForNavigation (page : Page) (waitUntil : string) (timeout : Z)
| Url (page : Page)
| EvaluateScrollToTop (page : Page)
| IsVisible (l : Locator) (timeout : option Z)
| Count (l : Locator)
| Fill (l : Locator) (value : string)
| Press (l : Locator) (key : string)
| TypeText (l : Locator) (text : string)
| Click (l : Locator) (timeout : option Z)
| EvaluateClick (l : Locator).

(** What a call gives back when it does not throw. *)
Definition RespTy (a : Action) : Type :=
  match a with
  | RetrieveCredentials _ => IdentityCredentialsResponse
  | Connect _ | Create _ => Browser
  | Contexts _ => list BrowserContext
  | Pages _ => list Page
  | WaitForEvent _ _ _ => Page
  | Url _ => string
  | IsVisible _ _ => bool
  | Count _ => nat
  | _ => unit
  end.

(** The world outside the flows.  [respond] and [latency] see the history of
    calls issued so far: any sequence of answers and any timing of one run is
    produced by some world. *)
Record World : Type := {
  process_env : string -> option string;
  (** [Number(s)] of [z.coerce.number()]; [None] is [NaN] *)
  coerce_number : string -> option Z;
  respond : list Action -> forall a : Action, Outcome (RespTy a);
  (** the time a call issued after the given history takes to settle *)
  latency : list Action -> Action -> nat
}.

(** ** The monad of the flows

    A computation reads the world and the history of calls and yields an
    outcome together with the calls it issued itself. *)
Definition M (A : Type) : Type := World -> list Action -> Outcome A * list Action.

Definition ret {A} (a : A) : M A := fun _ _ => (Returned a, []).

Definition throw {A} (e : JsError) : M A := fun _ _ => (Thrown e, []).

Definition bind {A B} (m : M A) (f : A -> M B) : M B := fun w h =>
  match m w h with
  | (Returned a, e1) => let '(o, e2) := f a w (h ++ e1) in (o, e1 ++ e2)
  | (Thrown e, e1) => (Thrown e, e1)
  end.

Declare Scope flow_scope.
Delimit Scope flow_scope with flow.
Notation "'let!' x ':=' m 'in' k" := (bind m (fun x => k))
  (at level 10, x name, m at level 100, k at level 200) : flow_scope.
Notation "m ;; k" := (bind m (fun _ => k))
  (at level 100, k at level 200, right associativity) : flow_scope.
Local Open Scope flow_scope.

(** [try { m } catch (e) { handler e }] *)
Definition try_catch {A} (m : M A) (handler : JsError -> M A) : M A := fun w h =>
  match m w h with
  | (Returned a, e1) => (Returned a, e1)
  | (Thrown e, e1) => let '(o, e2) := handler e w (h ++ e1) in (o, e1 ++ e2)
  end.

(** [try { m } finally { fin }] : an abrupt completion of [fin] replaces the
    completion of [m]. *)
Definition try_finally {A} (m : M A) (fin : M unit) : M A := fun w h =>
  let '(o, e1) := m w h in
  match fin w (h ++ e1) with
  | (Returned _, e2) => (o, e1 ++ e2)
  | (Thrown e, e2) => (Thrown e, e1 ++ e2)
  end.

(** [promise.catch(() => d)] *)
Definition catch_default {A} (m : M A) (d : A) : M A :=
  try_catch m (fun _ => ret d).

Definition lift {A} (o : Outcome A) : M A := fun _ _ => (o, []).

Definition call (a : Action) : M (RespTy a) := fun w h => (respond w h a, [a]).

Fixpoint for_each {A} (l : list A) (body : A -> M unit) : M unit :=
  match l with
  | [] => ret tt
  | x :: rest => body x ;; for_each rest body
  end.

(** The outcome and the calls of a whole run, from an empty history. *)
Definition run {A} (m : M A) (w : World) : Outcome A * list Action := m w [].

(** ** [Promise.all]

    The promises of the flows that are awaited together each wrap one
    collaborator call: a [Task] is the call and what the promise makes of the
    call's completion (a [.catch], a mapping of the value).  All tasks are
    started in array order; they settle in the order of their latencies.  On
    each fulfilment [Promise.all] stores the value in the slot of the promise's
    index; the first rejection rejects the whole; when every slot is filled the
    array of values is the result. *)
Record Task (A : Type) : Type := {
  act : Action;
  settle : Outcome (RespTy act) -> Outcome A
}.
Arguments act {A} t.
Arguments settle {A} t o.

(** Start every task, in array order: the settling time and the completion of
    each. *)
Fixpoint start_all {A} (ts : list (Task A)) (w : World) (h : list Action)
  : list (nat * Outcome A) :=
  match ts with
  | [] => []
  | t :: rest =>
      (latency w h (act t), settle t (respond w h (act t)))
        :: start_all rest w (h ++ [act t])
  end.

(** Completions tagged with their index, ordered by settling time. *)
Fixpoint insert_by_time {A} (c : nat * (nat * A)) (l : list (nat * (nat * A)))
  : list (nat * (nat * A)) :=
  match l with
  | [] => [c]
  | d :: rest =>
      if (c.2.1 <=? d.2.1)%nat then c :: d :: rest
      else d :: insert_by_time c rest
  end.

Definition completion_order {A} (started : list (nat * A)) : list (nat * (nat * A)) :=
  foldr insert_by_time [] (imap (fun i x => (i, x)) started).

(** The resolve-element steps of [Promise.all], in completion order. *)
Fixpoint settle_all {A} (completions : list (nat * (nat * Outcome A)))
    (values : list (option A)) : Outcome (list (option A)) :=
  match completions with
  | [] => Returned values
  | (i, (_, Returned v)) :: rest => settle_all rest (<[i := Some v]> values)
  | (_, (_, Thrown e)) :: _ => Thrown e
  end.

Definition Promise_all {A} (ts : list (Task A)) : M (list A) := fun w h =>
  let completions := completion_order (start_all ts w h) in
  (match settle_all completions (replicate (length ts) None) with
   | Returned values => Returned (omap id values)
   | Thrown e => Thrown e
   end,
   map act ts).

(** The promise that completes first among promises started together. *)
Definition first_to_complete {A} (ts : list (Task A)) (w : World) (h : list Action)
  : option nat :=
  fst <$> head (completion_order (start_all ts w h)).

(** [promise.catch(() => d)] on a task *)
Definition task_catch {A} (a : Action) (d : RespTy a -> A) (fallback : A) : Task A :=
  {| act := a;
     settle := fun o => match o with
                        | Returned v => Returned (d v)
                        | Thrown _ => Returned fallback
                        end |}.

Definition task_of {A} (a : Action) (d : RespTy a -> A) : Task A :=
  {| act := a;
     settle := fun o => match o with
                        | Returned v => Returned (d v)
                        | Thrown e => Thrown e
                        end |}.

(** The callback mapped over a selector list by the fallback-selector steps:
    [async (sel) => (await page.locator(sel).first().isVisible().catch(() => false)) ? sel : null] *)
Definition probe (page : Page) (sel : string) : Task (option string) :=
  task_catch (IsVisible (first (locator page sel)) None)
             (fun isVisible : bool => if isVisible then Some sel else None) None.

(** [results.find((r) => r !== null)] *)
Definition find_non_null (results : list (option string)) : option string :=
  match List.find (fun r => match r with Some _ => true | None => false end) results with
  | Some r => r
  | None => None
  end.

(** [await Promise.all([page.waitForNavigation({waitUntil: 'load', timeout: 45000}).catch(() => null), action])] *)
Definition with_navigation_wait (page : Page) (action : Action) : M unit :=
  Promise_all [ task_catch (WaitForNavigation page "load" 45000) (fun _ => tt) tt;
                task_of action (fun _ => tt) ] ;;
  ret tt.

(** ** [zod] schema fields

    A field parser gives the parsed value or the issue it raises; [parse]
    throws one [ZodError] with all issues. *)

(** [z.string().default(d)] : [undefined] takes the default. *)
Definition zod_string_default (d : string) (input : option string) : string + string :=
  inl (default d input).

(** [z.string().min(1, msg)] *)
Definition zod_string_min1 (msg : string) (input : option string) : string + string :=
  match input with
  | None => inr "Required"
  | Some s => if truthy s then inl s else inr msg
  end.

(** [z.coerce.number().default(d)] : [undefined] takes the default, anything
    else goes through [Number(..)], and [NaN] is refused. *)
Definition zod_coerce_number_default (Number : string -> option Z) (d : Z)
    (input : option string) : Z + string :=
  match input with
  | None => inl d
  | Some s => match Number s with
              | Some n => inl n
              | None => inr "Expected number, received nan"
              end
  end.

Definition issue_of {A} (field : A + string) : list string :=
  match field with inl _ => [] | inr issue => [issue] end.

(** ** The LinkedIn flow (apps/linkedin/auth/basic-2fa-login.ts) *)
Module Linkedin.

Record Config : Type := {
  sessionId : string;
  identityId : string;
  timeoutMs : Z;
  homeUrl : string
}.

Record LinkedinCredentials : Type := {
  username : string;
  password : string;
  otp : string
}.

Definition ConfigSchema_parse (Number : string -> option Z)
    (sessionId identityId timeoutMs homeUrl : option string) : Outcome Config :=
  let f1 := zod_string_default "" sessionId in
  let f2 := zod_string_min1 "ANCHOR_IDENTITY_ID is required" identityId in
  let f3 := zod_coerce_number_default Number 10000 timeoutMs in
  let f4 := zod_string_default "https://www.linkedin.com/uas/login" homeUrl in
  match f1, f2, f3, f4 with
  | inl s, inl i, inl t, inl u =>
      Returned {| sessionId := s; identityId := i; timeoutMs := t; homeUrl := u |}
  | _, _, _, _ =>
      Thrown (ZodError (issue_of f1 ++ issue_of f2 ++ issue_of f3 ++ issue_of f4))
  end.

Definition getConfig : M Config := fun w _ =>
  (ConfigSchema_parse (coerce_number w)
     (process_env w "ANCHOR_SESSION_ID")
     (process_env w "ANCHOR_IDENTITY_ID")
     (process_env w "ANCHOR_TIMEOUT_MS")
     (Some "https://www.linkedin.com/uas/login"), []).

Definition getAnchorClient : M unit := call NewAnchorBrowser.

Definition getAnchorBrowser (config : Config) (extraStealthRequired : bool) : M Browser :=
  getAnchorClient ;;
  if truthy (sessionId config) then call (Connect (sessionId config))
  else
    let browserConfiguration :=
      if extraStealthRequired then stealth_configuration else empty_configuration in
    call (Create browserConfiguration).

Definition fetchIdentityCredentials (identityId : string) : M IdentityCredentialsResponse :=
  getAnchorClient ;;
  call (RetrieveCredentials identityId).

(** The body of the [forEach] callback, on the three local variables. *)
Definition parse_step (acc : string * string * string) (cred : Credential)
  : string * string * string :=
  let '(username, password, otp) := acc in
  match cred with
  | username_password u p => (u, p, otp)
  | authenticator o => (username, password, default "" o)
  | custom _ => acc
  end.

Definition missing_message (username password : string) : string :=
  "Missing required credentials. Found: username=" +:+ show_bool (truthy username)
    +:+ ", password=" +:+ show_bool (truthy password).

Definition parseLinkedinCredentials (credentials : list Credential)
  : Outcome LinkedinCredentials :=
  let '(username, password, otp) := foldl parse_step ("", "", "") credentials in
  if (negb (truthy username) || negb (truthy password))%bool
  then Thrown (Error (missing_message username password))
  else Returned {| username := username; password := password; otp := otp |}.

Definition waitForVisible (page : Page) (selector : string) (timeout : Z) : M unit :=
  call (WaitForSelector page selector timeout).

Definition navigateToHomepage (page : Page) (config : Config) : M unit :=
  try_catch (call (Goto page (homeUrl config) "load" (timeoutMs config)))
    (fun navErr =>
       let! hasLoginButton :=
         catch_default (call (IsVisible (first (locator page "#login-nav-button")) None)) false in
       if negb hasLoginButton then throw navErr else ret tt).

Definition username_selector : string :=
  ("input#username[name=" +:+ quoted "session_key" +:+ "][type=" +:+ quoted "email" +:+ "]").

Definition password_selector : string :=
  ("input#password[name=" +:+ quoted "session_password" +:+ "][type=" +:+ quoted "password" +:+ "]").

Definition enterUsername (page : Page) (username : string) (timeoutMs : Z) : M unit :=
  waitForVisible page username_selector timeoutMs ;;
  call (Fill (locator page username_selector) username) ;;
  call (Press (locator page username_selector) "Tab").

Definition enterPasswordAndSubmit (page : Page) (password : string) (timeoutMs : Z) : M unit :=
  waitForVisible page password_selector timeoutMs ;;
  call (Fill (locator page password_selector) password) ;;
  call (Press (locator page password_selector) "Enter").

Definition feed_pattern : string := "**linkedin.com/feed/**".

(** [/linkedin\.com\/feed\//.test(url)] *)
Definition feed_regex_test (url : string) : bool := includes "linkedin.com/feed/" url.

(** [fallbackTimeout] is an optional parameter whose default is 60000. *)
Definition verifyLogin (page : Page) (step : nat) (timeoutMs : Z)
    (fallbackTimeout : option Z) : M bool :=
  let fallbackTimeout := default 60000 fallbackTimeout in
  try_catch
    (call (WaitForURL page feed_pattern (Z.max timeoutMs fallbackTimeout)) ;;
     ret true)
    (fun _ =>
       let! currentUrl := call (Url page) in
       let isOnLinkedin := feed_regex_test currentUrl in
       ret isOnLinkedin).

Definition submitSelectors : list string :=
  [ ("button:has-text(" +:+ quoted "Submit" +:+ ")");
    ("button:has-text(" +:+ quoted "Verify" +:+ ")");
    ("button:has-text(" +:+ quoted "Continue" +:+ ")");
    ("button[type=" +:+ quoted "submit" +:+ "]");
    ("input[type=" +:+ quoted "submit" +:+ "]") ].

Definition clickCommonSubmit (page : Page) : M bool :=
  let! results := Promise_all (map (probe page) submitSelectors) in
  match find_non_null results with
  | Some visibleSelector =>
      if truthy visibleSelector then
        let btn := first (locator page visibleSelector) in
        with_navigation_wait page (Click btn None) ;;
        ret true
      else ret false
  | None => ret false
  end.

Inductive OtpInputResult : Type :=
| single (l : Locator)
| multi (l : Locator).

Definition singleSelectors : list string :=
  [ ("input[name=" +:+ quoted "pin" +:+ "][maxlength=" +:+ quoted "6" +:+ "]");
    ("input[name=" +:+ quoted "code" +:+ "]");
    ("input[autocomplete=" +:+ quoted "one-time-code" +:+ "]");
    ("input[id*=" +:+ quoted "verification" +:+ " i]");
    ("input[inputmode=" +:+ quoted "numeric" +:+ "][maxlength=" +:+ quoted "6" +:+ "]") ].

Definition digit_selector : string :=
  ("input[aria-label*=" +:+ quoted "digit" +:+ " i], input[pattern=" +:+ quoted "\d*" +:+ "][maxlength=" +:+ quoted "1" +:+ "], input[inputmode=" +:+ quoted "numeric" +:+ "][maxlength=" +:+ quoted "1" +:+ "]").

(** The second half of [locateOtpInputs]: the six separate boxes. *)
Definition locate_digit_inputs (page : Page) : M (option OtpInputResult) :=
  let digitInputs := locator page digit_selector in
  let! count := catch_default (call (Count digitInputs)) 0%nat in
  if (6 <=? count)%nat then ret (Some (multi digitInputs)) else ret None.

Definition locateOtpInputs (page : Page) : M (option OtpInputResult) :=
  let! singleResults := Promise_all (map (probe page) singleSelectors) in
  match find_non_null singleResults with
  | Some visibleSingleSelector =>
      if truthy visibleSingleSelector
      then ret (Some (single (first (locator page visibleSingleSelector))))
      else locate_digit_inputs page
  | None => locate_digit_inputs page
  end.

(** The fallback after a submit by key: one more check of the URL, then the
    generic submit controls; a failure of the click is swallowed. *)
Definition verify_or_click (page : Page) (step : nat) (timeoutMs : Z) : M unit :=
  let! verified := verifyLogin page step timeoutMs (Some 10000) in
  if negb verified
  then catch_default (clickCommonSubmit page ;; ret tt) tt
  else ret tt.

(** The body of the digit loop, for index [i]. *)
Definition fill_digit (inputs : Locator) (arr : list string) (i : nat) : M unit :=
  let field := nth inputs (Z.of_nat i) in
  call (Fill field EmptyString) ;;
  call (TypeText field (default EmptyString (arr !! i))).

(** The branch [inputs.type === 'single']. *)
Definition otp_single_field (page : Page) (loc : Locator) (otp : string) (step : nat)
    (timeoutMs : Z) : M unit :=
  call (Fill loc EmptyString) ;;
  call (Fill loc otp) ;;
  with_navigation_wait page (Press loc "Enter") ;;
  verify_or_click page step timeoutMs.

(** The [else] branch: the multi-digit fields. *)
Definition otp_multi_field (page : Page) (loc : Locator) (otp : string) (step : nat)
    (timeoutMs : Z) : M unit :=
  let arr := split_chars otp in
  let! count := call (Count loc) in
  let total := Nat.min count (length arr) in
  for_each (seq 0 total) (fill_digit loc arr) ;;
  with_navigation_wait page (Press (nth loc (Z.of_nat total - 1)) "Enter") ;;
  verify_or_click page step timeoutMs.

Definition submitOtpCode (page : Page) (otp : string) (step : nat) (timeoutMs : Z)
  : M unit :=
  let! inputs := locateOtpInputs page in
  match inputs with
  | None => throw (Error "OTP inputs not found")
  | Some (single loc) => otp_single_field page loc otp step timeoutMs
  | Some (multi loc) => otp_multi_field page loc otp step timeoutMs
  end.

Definition already_authenticated : LoginResult :=
  {| success := true; message := "Already authenticated. Landed on /feed." |}.

(** Steps 5 and 6, the block [if (credentials.otp) { ... }]: the credentials
    in force after it. *)
Definition second_factor (page : Page) (config : Config) (credentials : LinkedinCredentials)
  : M LinkedinCredentials :=
  if truthy (otp credentials) then
    let! updatedCredentials := fetchIdentityCredentials (identityId config) in
    let! credentials :=
      lift (parseLinkedinCredentials (Identity.credentials updatedCredentials)) in
    submitOtpCode page (otp credentials) 6 (timeoutMs config) ;;
    ret credentials
  else ret credentials.

(** Step 7 and the result. *)
Definition final_verification (page : Page) (config : Config)
    (credentials : LinkedinCredentials) : M LoginResult :=
  let! finalLoggedIn :=
    verifyLogin page (if truthy (otp credentials) then 7 else 6)%nat
                (timeoutMs config) (Some 10000) in
  if negb finalLoggedIn then
    let! finalUrl := call (Url page) in
    let msg := "Login flow completed but Linkedin Feed URL not confirmed. Current URL: "
               +:+ finalUrl in
    ret {| success := false; message := msg |}
  else
    let successMsg := "Logged in to Linkedin as " +:+ username credentials +:+ "." in
    ret {| success := true; message := successMsg |}.

(** The statements of the [try] block after the pre-login check: steps 3-7. *)
Definition login_steps (page : Page) (config : Config) (credentials : LinkedinCredentials)
  : M LoginResult :=
  enterUsername page (username credentials) (timeoutMs config) ;;
  enterPasswordAndSubmit page (password credentials) (timeoutMs config) ;;
  let! credentials := second_factor page config credentials in
  final_verification page config credentials.

(** The [try] block. *)
Definition login_flow (page : Page) (config : Config) (credentials : LinkedinCredentials)
  : M LoginResult :=
  navigateToHomepage page config ;;
  let! loggedIn := verifyLogin page 2 (timeoutMs config) (Some 10000) in
  if loggedIn then ret already_authenticated
  else login_steps page config credentials.

(** The [catch] clause. *)
Definition login_failed (error : JsError) : M LoginResult :=
  let errorMessage := errorMessage error in
  ret {| success := false;
         message := or_else errorMessage "Unknown error during Linkedin login." |}.

Definition LoginToLinkedin : M LoginResult :=
  let! config := getConfig in
  let! identityResponse := fetchIdentityCredentials (identityId config) in
  let! credentials := lift (parseLinkedinCredentials (Identity.credentials identityResponse)) in
  let extraStealthRequired := negb (truthy (otp credentials)) in
  let! browser := getAnchorBrowser config extraStealthRequired in
  let! contexts := call (Contexts browser) in
  match head contexts with
  | None => ret {| success := false; message := "Failed to get browser context" |}
  | Some context =>
      let! pages := call (Pages context) in
      match head pages with
      | None => ret {| success := false; message := "Failed to get browser page" |}
      | Some page =>
          try_finally
            (try_catch (login_flow page config credentials) login_failed)
            (call (Close browser))
      end
  end.

End Linkedin.

(** ** The ComplyAdvantage Mesh flow (apps/comply-advantage/mesh/auth/basic-login.ts) *)
Module Mesh.

Record Config : Type := {
  sessionId : string;
  apiKey : string;
  identityId : string;
  timeoutMs : Z;
  homeUrl : string;
  meshUrl : string
}.

Record ComplyAdvantageCredentials : Type := {
  organization : string;
  username : string;
  password : string
}.

Definition ConfigSchema_parse (Number : string -> option Z)
    (sessionId apiKey identityId timeoutMs homeUrl meshUrl : option string)
  : Outcome Config :=
  let f1 := zod_string_default "" sessionId in
  let f2 := zod_string_default "" apiKey in
  let f3 := zod_string_min1 "ANCHOR_IDENTITY_ID is required" identityId in
  let f4 := zod_coerce_number_default Number 10000 timeoutMs in
  let f5 := zod_string_default "https://complyadvantage.com/" homeUrl in
  let f6 := zod_string_default "https://mesh.complyadvantage.com/" meshUrl in
  match f1, f2, f3, f4, f5, f6 with
  | inl s, inl k, inl i, inl t, inl u, inl m =>
      Returned {| sessionId := s; apiKey := k; identityId := i; timeoutMs := t;
                  homeUrl := u; meshUrl := m |}
  | _, _, _, _, _, _ =>
      Thrown (ZodError (issue_of f1 ++ issue_of f2 ++ issue_of f3 ++ issue_of f4
                          ++ issue_of f5 ++ issue_of f6))
  end.

Definition getConfig : M Config := fun w _ =>
  (ConfigSchema_parse (coerce_number w)
     (process_env w "ANCHOR_SESSION_ID")
     (process_env w "ANCHORBROWSER_API_KEY")
     (process_env w "ANCHOR_IDENTITY_ID")
     (process_env w "ANCHOR_TIMEOUT_MS")
     (Some "https://complyadvantage.com/")
     (Some "https://mesh.complyadvantage.com/"), []).

Definition getAnchorClient : M unit := call NewAnchorBrowser.

Definition getAnchorBrowser : M Browser :=
  let! config := getConfig in
  getAnchorClient ;;
  if truthy (sessionId config) then call (Connect (sessionId config))
  else call (Create no_configuration).

Definition fetchIdentityCredentials (identityId : string) : M IdentityCredentialsResponse :=
  getAnchorClient ;;
  call (RetrieveCredentials identityId).

(** The predicate of [cred.fields.find]. *)
Definition is_org_field (field : CustomField) : bool :=
  (includes "organization" (toLowerCase (field_name field))
   || includes "company" (toLowerCase (field_name field)))%bool.

(** The body of the [forEach] callback, on the three local variables. *)
Definition parse_step (acc : string * string * string) (cred : Credential)
  : string * string * string :=
  let '(organization, username, password) := acc in
  match cred with
  | username_password u p => (organization, u, p)
  | custom fields =>
      match List.find is_org_field fields with
      | Some orgField => (field_value orgField, username, password)
      | None => acc
      end
  | authenticator _ => acc
  end.

Definition missing_message (organization username password : string) : string :=
  "Missing required credentials. Found: organization=" +:+ show_bool (truthy organization)
    +:+ ", username=" +:+ show_bool (truthy username)
    +:+ ", password=" +:+ show_bool (truthy password).

Definition parseComplyAdvantageCredentials (credentials : list Credential)
  : Outcome ComplyAdvantageCredentials :=
  let '(organization, username, password) := foldl parse_step ("", "", "") credentials in
  if (negb (truthy organization) || negb (truthy username) || negb (truthy password))%bool
  then Thrown (Error (missing_message organization username password))
  else Returned {| organization := organization; username := username;
                   password := password |}.

Definition validateRequiredInputs : M unit :=
  let! config := getConfig in
  if negb (truthy (trim (identityId config))) then
    throw (Error "Missing required input ANCHOR_IDENTITY_ID. Please set ANCHOR_IDENTITY_ID environment variable.")
  else if negb (truthy (trim (apiKey config))) then
    throw (Error "Missing required input ANCHOR_API_KEY. Please set ANCHOR_API_KEY environment variable.")
  else ret tt.

(** [timeout] is an optional parameter whose default is [getConfig().timeoutMs]. *)
Definition waitForVisible (page : Page) (selector : string) (timeout : option Z) : M unit :=
  let! timeout :=
    match timeout with
    | Some t => ret t
    | None => let! config := getConfig in ret (timeoutMs config)
    end in
  call (WaitForSelector page selector timeout).

Definition scrollToTop (page : Page) : M unit := call (EvaluateScrollToTop page).

Definition clickWithFallback (page : Page) (selector description : string) : M bool :=
  let! config := getConfig in
  let element := first (locator page selector) in
  waitForVisible page selector None ;;
  scrollToTop page ;;
  try_catch
    (call (Click element (Some (timeoutMs config))) ;; ret true)
    (fun _ =>
       try_catch (call (EvaluateClick element) ;; ret true)
                 (fun e2 => ret false)).

Definition navigateToHomepage (page : Page) : M unit :=
  let! config := getConfig in
  try_catch (call (Goto page (homeUrl config) "load" (timeoutMs config)))
    (fun navErr =>
       let! hasLoginButton :=
         catch_default (call (IsVisible (first (locator page "#login-nav-button")) None)) false in
       if negb hasLoginButton then throw navErr else ret tt).

Definition dismissCookieBanner (page : Page) : M unit :=
  try_catch
    (let banner := locator page "#notice" in
     let! isVisible := catch_default (call (IsVisible banner (Some 2000))) false in
     if isVisible then
       let acceptBtn :=
         first (sub_locator banner
                  "button[title='Accept all'], button[aria-label='Accept all']") in
       let! acceptVisible := catch_default (call (IsVisible acceptBtn None)) false in
       if acceptVisible then call (Click acceptBtn None) else ret tt
     else ret tt)
    (fun _ => ret tt).

Definition goto_mesh (page : Page) (config : Config) : M unit :=
  catch_default (call (Goto page (meshUrl config) "load" (timeoutMs config))) tt.

Definition openLoginModal (page : Page) : M bool :=
  let! config := getConfig in
  let! clicked := clickWithFallback page "#login-nav-button" "Login button" in
  if negb clicked then
    goto_mesh page config ;; ret false
  else
    let! modalVisible :=
      catch_default
        (call (IsVisible (first (locator page "#mesh-li-modal-button, #loginModal")) None))
        false in
    if negb modalVisible then
      goto_mesh page config ;; ret false
    else ret true.

(** [/complyadvantage|auth0|mesh/i.test(url)] *)
Definition auth_regex_test (url : string) : bool :=
  let u := toLowerCase url in
  (includes "complyadvantage" u || includes "auth0" u || includes "mesh" u)%bool.

(** [pages.find((p) => /complyadvantage|auth0|mesh/i.test(p.url()))] *)
Fixpoint find_auth_page (pages : list Page) : M (option Page) :=
  match pages with
  | [] => ret None
  | p :: rest =>
      let! url := call (Url p) in
      if auth_regex_test url then ret (Some p) else find_auth_page rest
  end.

Definition selectMeshLoginOption (page : Page) (context : BrowserContext) : M Page :=
  let! pages := call (Pages context) in
  let authPage := List.find (fun p => negb (Nat.eqb p page)) pages in
  let! authPage :=
    match authPage with
    | Some _ => ret authPage
    | None =>
        let meshBtn := first (locator page "#mesh-li-modal-button") in
        let! isVisible := catch_default (call (IsVisible meshBtn None)) false in
        if isVisible then
          let! config := getConfig in
          let! opened :=
            Promise_all [ task_of (WaitForEvent context "page" (timeoutMs config))
                                  (fun newPage : Page => Some newPage);
                          task_of (Click meshBtn None) (fun _ => None) ] in
          ret (mjoin (head opened))
        else ret None
    end in
  let! authPage :=
    match authPage with
    | Some p => ret p
    | None =>
        let! pages := call (Pages context) in
        let! found := find_auth_page pages in
        ret (default page found)
    end in
  call (Url authPage) ;;
  ret authPage.

Definition waitForAuth0Page (page : Page) : M unit :=
  try_catch
    (let! config := getConfig in
     call (WaitForURL page "**auth0.com/**" (timeoutMs config)))
    (fun _ => ret tt) ;;
  call (Url page) ;;
  ret tt.

Definition enterOrganization (page : Page) (organization : string) : M unit :=
  try_catch
    (call (WaitForSelector page "#organizationName" 7000) ;;
     call (Fill (locator page "#organizationName") organization) ;;
     call (Press (locator page "#organizationName") "Enter"))
    (fun _ => ret tt).

Definition enterUsername (page : Page) (username : string) : M unit :=
  waitForVisible page "#username" None ;;
  call (Fill (locator page "#username") username) ;;
  call (Press (locator page "#username") "Enter").

Definition enterPassword (page : Page) (password : string) : M unit :=
  waitForVisible page "#password" None ;;
  call (Fill (locator page "#password") password) ;;
  call (Press (locator page "#password") "Enter").

Definition mesh_pattern : string := "**mesh.complyadvantage.com/**".

(** [/mesh\.complyadvantage\.com\//.test(url)] *)
Definition mesh_regex_test (url : string) : bool := includes "mesh.complyadvantage.com/" url.

Definition verifyMeshLogin (page : Page) : M bool :=
  try_catch
    (let! config := getConfig in
     call (WaitForURL page mesh_pattern (Z.max (timeoutMs config) 60000)) ;;
     ret true)
    (fun _ =>
       let! currentUrl := call (Url page) in
       let isOnMesh := mesh_regex_test currentUrl in
       ret isOnMesh).

(** The [try] block. *)
Definition login_flow (page : Page) (context : BrowserContext)
    (credentials : ComplyAdvantageCredentials) : M LoginResult :=
  navigateToHomepage page ;;
  dismissCookieBanner page ;;
  openLoginModal page ;;
  let! authPage := selectMeshLoginOption page context in
  waitForAuth0Page authPage ;;
  enterOrganization authPage (organization credentials) ;;
  enterUsername authPage (username credentials) ;;
  enterPassword authPage (password credentials) ;;
  let! meshReached := verifyMeshLogin authPage in
  if negb meshReached then
    let! finalUrl := call (Url authPage) in
    let msg := "Login flow completed but Mesh URL not confirmed. Current URL: "
               +:+ finalUrl in
    ret {| success := false; message := msg |}
  else
    let successMsg := "Logged in to ComplyAdvantage Mesh as " +:+ username credentials
                      +:+ " (org: " +:+ organization credentials +:+ ")." in
    ret {| success := true; message := successMsg |}.

(** The [catch] clause of the flow. *)
Definition login_failed (error : JsError) : M LoginResult :=
  let errorMessage := errorMessage error in
  ret {| success := false;
         message := or_else errorMessage "Unknown error during Mesh login." |}.

(** The guarded credential acquisition: the credentials, or the failure result
    the entry point returns at once. *)
Definition acquire_credentials : M (ComplyAdvantageCredentials + LoginResult) :=
  try_catch
    (let! config := getConfig in
     let! identityResponse := fetchIdentityCredentials (identityId config) in
     let! credentials :=
       lift (parseComplyAdvantageCredentials (Identity.credentials identityResponse)) in
     ret (inl credentials))
    (fun e =>
       let errorMessage := errorMessage e in
       ret (inr {| success := false;
                   message := or_else errorMessage "Failed to fetch credentials" |})).

(** The guarded input validation: the failure result, if any. *)
Definition validate_inputs : M (option LoginResult) :=
  try_catch
    (validateRequiredInputs ;; ret None)
    (fun e =>
       let errorMessage := errorMessage e in
       ret (Some {| success := false;
                    message := or_else errorMessage "Missing required inputs" |})).

Definition LoginToComplyAdvantageMesh : M LoginResult :=
  let! invalid := validate_inputs in
  match invalid with
  | Some failure => ret failure
  | None =>
      let! acquired := acquire_credentials in
      match acquired with
      | inr failure => ret failure
      | inl credentials =>
          let! browser := getAnchorBrowser in
          let! contexts := call (Contexts browser) in
          match head contexts with
          | None => ret {| success := false; message := "Failed to get browser context" |}
          | Some context =>
              let! pages := call (Pages context) in
              match head pages with
              | None => ret {| success := false; message := "Failed to get browser page" |}
              | Some page =>
                  try_finally
                    (try_catch (login_flow page context credentials) login_failed)
                    (call (Close browser))
              end
          end
      end
  end.

End Mesh.

(** ** The agent-based flow *)
Module Agent.

Definition RUN_AGENTIC_VALIDATION_PROMPT : string :=
  "Use a 3-way result so " +:+ quoted "invalid credentials" +:+ " is separated from "
  +:+ quoted "could not attempt" +:+ ".

Attempt to log in using the provided credentials. You are allowed to perform AT MOST ONE submit action (one click on "
  +:+ quoted "Log in" +:+ ", " +:+ quoted "Sign in" +:+ ", or " +:+ quoted "Submit"
  +:+ ", or one Enter-key submit on a login form). Do not submit twice.

After navigation settles (wait for network and DOM to become stable), classify the outcome and respond with EXACTLY ONE of the following strings:

- " +:+ quoted "true" +:+ " - Login succeeded: you can confirm authenticated state (e.g., redirected away from login, user avatar or name visible, logout button present, or access to a known authenticated-only page or element).
- " +:+ quoted "false" +:+ " - Login attempt was executed but credentials were rejected: you see an authentication error (e.g., "
  +:+ quoted "invalid password" +:+ ", " +:+ quoted "incorrect email" +:+ ", "
  +:+ quoted "wrong credentials" +:+ "), or you remain on the login page with a clear credentials-related error.
- " +:+ quoted "attempt_failed" +:+ " - You could not complete a login attempt: required fields or submit control not found, submit disabled, CAPTCHA/2FA/SSO blocks progress, page crashes, unexpected modal blocks interaction, timeout, or any other automation or UX issue prevented the single submit action.

Rules:
- Only return one of: " +:+ quoted "true" +:+ ", " +:+ quoted "false" +:+ ", "
  +:+ quoted "attempt_failed" +:+ " (lowercase, no extra text).
- If you did not actually perform a submit action, you MUST return "
  +:+ quoted "attempt_failed" +:+ ".
- If you performed a submit action and there is no clear success signal AND no clear credentials error, return "
  +:+ quoted "attempt_failed" +:+ ".
".

Record Config : Type := {
  sessionId : string;
  identityId : string
}.

Definition ConfigSchema_parse (sessionId identityId : option string) : Outcome Config :=
  let f1 := zod_string_min1 "ANCHOR_SESSION_ID is required" sessionId in
  let f2 := zod_string_min1 "ANCHOR_IDENTITY_ID is required" identityId in
  match f1, f2 with
  | inl s, inl i => Returned {| sessionId := s; identityId := i |}
  | _, _ => Thrown (ZodError (issue_of f1 ++ issue_of f2))
  end.

Definition getConfig : M Config := fun w _ =>
  (ConfigSchema_parse (process_env w "ANCHOR_SESSION_ID")
                      (process_env w "ANCHOR_IDENTITY_ID"), []).

Definition getAnchorClient : M unit := call NewAnchorBrowser.

Definition setupBrowser (config : Config) : M Browser :=
  getAnchorClient ;;
  call (Connect (sessionId config)).

Definition loginWithAgent : M LoginResult :=
  try_catch
    (let! config := getConfig in
     getAnchorClient ;;
     let! credentials := call (RetrieveCredentials (identityId config)) in
     setupBrowser config ;;
     call (AgentTask RUN_AGENTIC_VALIDATION_PROMPT (sessionId config)
             ("https://" +:+ Identity.source credentials)) ;;
     ret {| success := true; message := "Agent-based login placeholder" |})
    (fun error =>
       let errorMessage := errorMessage error in
       ret {| success := false;
              message := or_else errorMessage "Agent-based login failed" |}).

End Agent.

(** ** Vocabulary of the specifications *)

(** Storing the fulfilled values slot by slot, as [settle_all] does while no
    promise rejects. *)
Definition store {A} (values : list (option A)) (c : nat * (nat * Outcome A))
  : list (option A) :=
  match c.2.2 with
  | Returned v => <[c.1 := Some v]> values
  | Thrown _ => values
  end.

(** The visibility probes of a fallback-selector step, in the order of the
    candidate list, and what each probe contributes to the results. *)
Definition probe_calls (page : Page) (sels : list string) : list Action :=
  map (fun sel => IsVisible (first (locator page sel)) None) sels.

Fixpoint probe_results (w : World) (h : list Action) (page : Page) (sels : list string)
  : list (option string) :=
  match sels with
  | [] => []
  | sel :: rest =>
      let a := IsVisible (first (locator page sel)) None in
      match respond w h a with
      | Returned true => Some sel
      | _ => None
      end :: probe_results w (h ++ [a]) page rest
  end.

(** The candidates whose probe answered [true], in the order of the list. *)
Fixpoint visible_candidates (w : World) (h : list Action) (page : Page) (sels : list string)
  : list string :=
  match sels with
  | [] => []
  | sel :: rest =>
      let a := IsVisible (first (locator page sel)) None in
      match respond w h a with
      | Returned true => sel :: visible_candidates w (h ++ [a]) page rest
      | _ => visible_candidates w (h ++ [a]) page rest
      end
  end.

(** Number of calls of a kind in a trace. *)
Definition count (p : Action -> bool) (tr : list Action) : nat :=
  length (List.filter p tr).

(** A computation issues at most [n] calls of the kind [p], in every world and
    after every history. *)
Definition Bound {A} (p : Action -> bool) (n : nat) (m : M A) : Prop :=
  forall w h, (count p (m w h).2 <= n)%nat.

(** A computation issues no call at all. *)
Definition Pure {A} (m : M A) : Prop := forall w h, (m w h).2 = [].

(** Every value a computation returns satisfies [Q]. *)
Definition Returns {A} (m : M A) (Q : A -> Prop) : Prop :=
  forall w h a, (m w h).1 = Returned a -> Q a.

(** A computation never throws. *)
Definition Total {A} (m : M A) : Prop :=
  forall w h, exists a, (m w h).1 = Returned a.

(** Some call of the trace, issued after history [h] and the calls before it,
    was answered in a way that satisfies [q]. *)
Fixpoint answered (q : forall a : Action, Outcome (RespTy a) -> bool)
    (w : World) (h tr : list Action) : bool :=
  match tr with
  | [] => false
  | a :: rest => (q a (respond w h a) || answered q w (h ++ [a]) rest)%bool
  end.

Definition returned {A} (o : Outcome A) : bool :=
  match o with Returned _ => true | Thrown _ => false end.

(** The session provisioner handed out a browser. *)
Definition session_acquired (a : Action) : Outcome (RespTy a) -> bool :=
  match a with
  | Connect _ => returned
  | Create _ => returned
  | _ => fun _ => false
  end.

(** [context.pages()] gave at least one page. *)
Definition page_obtained (a : Action) : Outcome (RespTy a) -> bool :=
  match a with
  | Pages _ => fun o => match o with Returned (_ :: _) => true | _ => false end
  | _ => fun _ => false
  end.

(** [browser.close()] threw. *)
Definition close_failed (a : Action) : Outcome (RespTy a) -> bool :=
  match a with
  | Close _ => fun o => negb (returned o)
  | _ => fun _ => false
  end.

(** How an attempt ends on a lookup that gives no context or no page: with
    the failure result of the flow when the list is empty, with the exception
    when the lookup throws. *)
Definition lookup_gave_nothing (a : Action)
  : Outcome (RespTy a) -> Outcome LoginResult -> Prop :=
  match a with
  | Contexts _ => fun answer o =>
      match answer with
      | Returned [] =>
          o = Returned {| success := false; message := "Failed to get browser context" |}
      | Returned (_ :: _) => False
      | Thrown e => o = Thrown e
      end
  | Pages _ => fun answer o =>
      match answer with
      | Returned [] =>
          o = Returned {| success := false; message := "Failed to get browser page" |}
      | Returned (_ :: _) => False
      | Thrown e => o = Thrown e
      end
  | _ => fun _ _ => False
  end.

Definition is_close (a : Action) : bool :=
  match a with Close _ => true | _ => false end.

Definition is_click (a : Action) : bool :=
  match a with Click _ _ | EvaluateClick _ => true | _ => false end.

(** Calls to the session provisioner and to the page driver: everything but
    the construction of the client and the identity provider. *)
Definition is_browser_call (a : Action) : bool :=
  match a with
  | NewAnchorBrowser | RetrieveCredentials _ => false
  | _ => true
  end.

Definition on_selector (sel : string) (l : Locator) : bool :=
  match l with
  | locator _ s => String.eqb s sel
  | _ => false
  end.

(** The key-press that submits a field: [press('Enter')]. *)
Definition is_enter_on (target : Locator -> bool) (a : Action) : bool :=
  match a with
  | Press l key => (String.eqb key "Enter" && target l)%bool
  | _ => false
  end.

(** The calls of the session setup: the client, the identity provider, the
    session provisioner and the lookup of the first context and page. *)
Definition is_setup_call (a : Action) : bool :=
  match a with
  | NewAnchorBrowser | RetrieveCredentials _ | Connect _ | Create _
  | Contexts _ | Pages _ => true
  | _ => false
  end.

Definition failure (o : Outcome LoginResult) : Prop :=
  forall r, o = Returned r -> success r = false.

(** The two ways an attempt of the LinkedIn flow goes: it ends during the
    setup, before any page was obtained, with nothing but setup calls; or the
    setup hands a browser and a page to the guarded part of the flow, whose
    completion is the attempt's. *)
Inductive LinkedinAttempt (w : World) (o : Outcome LoginResult) (tr : list Action) : Prop :=
| linkedin_not_started :
    Forall (fun a => is_setup_call a = true) tr ->
    answered page_obtained w [] tr = false ->
    failure o ->
    LinkedinAttempt w o tr
| linkedin_started config response credentials browser page pro e :
    Linkedin.getConfig w [] = (Returned config, []) ->
    respond w [NewAnchorBrowser] (RetrieveCredentials (Linkedin.identityId config))
      = Returned response ->
    Linkedin.parseLinkedinCredentials (Identity.credentials response) = Returned credentials ->
    Forall (fun a => is_setup_call a = true) pro ->
    answered page_obtained w [] pro = true ->
    answered session_acquired w [] pro = true ->
    try_finally
      (try_catch (Linkedin.login_flow page config credentials) Linkedin.login_failed)
      (call (Close browser)) w pro = (o, e) ->
    tr = pro ++ e ->
    LinkedinAttempt w o tr.

(** The same for the Mesh flow. *)
Inductive MeshAttempt (w : World) (o : Outcome LoginResult) (tr : list Action) : Prop :=
| mesh_not_started :
    Forall (fun a => is_setup_call a = true) tr ->
    answered page_obtained w [] tr = false ->
    failure o ->
    MeshAttempt w o tr
| mesh_started config response credentials browser context page pro e :
    Mesh.getConfig w [] = (Returned config, []) ->
    respond w [NewAnchorBrowser] (RetrieveCredentials (Mesh.identityId config))
      = Returned response ->
    Mesh.parseComplyAdvantageCredentials (Identity.credentials response)
      = Returned credentials ->
    Forall (fun a => is_setup_call a = true) pro ->
    answered page_obtained w [] pro = true ->
    answered session_acquired w [] pro = true ->
    try_finally
      (try_catch (Mesh.login_flow page context credentials) Mesh.login_failed)
      (call (Close browser)) w pro = (o, e) ->
    tr = pro ++ e ->
    MeshAttempt w o tr.

(** ** Concrete worlds *)

(** [process.env] from a list of bindings. *)
Fixpoint env_of (bindings : list (string * string)) (var : string) : option string :=
  match bindings with
  | [] => None
  | (k, v) :: rest => if String.eqb k var then Some v else env_of rest var
  end.

(** [Number(s)] on the unsigned decimal numerals, the empty string being [0].
    The worlds below leave [ANCHOR_TIMEOUT_MS] unset, so that [Number] is
    never asked about any other string. *)
Fixpoint decimal_value (acc : Z) (s : string) : option Z :=
  match s with
  | EmptyString => Some acc
  | String c rest =>
      let n := nat_of_ascii c in
      if ((48 <=? n)%nat && (n <=? 57)%nat)%bool
      then decimal_value (10 * acc + Z.of_nat (n - 48)) rest
      else None
  end.

Definition Number_of_decimal (s : string) : option Z := decimal_value 0 s.

(** A bundle with a password record only, and one with an authenticator too. *)
Definition bundle_password : IdentityCredentialsResponse :=
  {| Identity.name := "alice"; Identity.source := "linkedin.com";
     Identity.credentials := [username_password "u" "p"] |}.

Definition bundle_otp : IdentityCredentialsResponse :=
  {| Identity.name := "alice"; Identity.source := "linkedin.com";
     Identity.credentials := [username_password "u" "p"; authenticator (Some "123456")] |}.

Definition bundle_mesh : IdentityCredentialsResponse :=
  {| Identity.name := "alice"; Identity.source := "complyadvantage.com";
     Identity.credentials :=
       [username_password "u" "p";
        custom [ {| field_name := "Organization Name"; field_value := "acme" |} ]] |}.

(** A page on which every interaction succeeds, no optional element shows,
    and the URL waits time out on a login URL. *)
Definition plain_answer (bundle : IdentityCredentialsResponse) (a : Action)
  : Outcome (RespTy a) :=
  match a with
  | NewAnchorBrowser => Returned tt
  | RetrieveCredentials _ => Returned bundle
  | Connect _ => Returned 7%nat
  | Create _ => Returned 7%nat
  | AgentTask _ _ _ => Returned tt
  | Contexts _ => Returned [1%nat]
  | Pages _ => Returned [2%nat]
  | Close _ => Returned tt
  | WaitForEvent _ _ _ => Returned 3%nat
  | Goto _ _ _ _ => Returned tt
  | WaitForSelector _ _ _ => Returned tt
  | WaitForURL _ _ _ => Thrown (Error "Timeout exceeded")
  | WaitForNavigation _ _ _ => Thrown (Error "Timeout exceeded")
  | Url _ => Returned "https://www.linkedin.com/uas/login"
  | EvaluateScrollToTop _ => Returned tt
  | IsVisible _ _ => Returned false
  | Count _ => Returned 0%nat
  | Fill _ _ => Returned tt
  | Press _ _ => Returned tt
  | TypeText _ _ => Returned tt
  | Click _ _ => Returned tt
  | EvaluateClick _ => Returned tt
  end.

Definition env_identity : string -> option string :=
  env_of [("ANCHOR_IDENTITY_ID", "identity-1"); ("ANCHORBROWSER_API_KEY", "key-1")].

Definition world_of (env : string -> option string)
    (answers : list Action -> forall a : Action, Outcome (RespTy a)) : World :=
  {| process_env := env;
     coerce_number := Number_of_decimal;
     respond := answers;
     latency := fun _ _ => 0%nat |}.

(** The environment lacks [ANCHOR_IDENTITY_ID]. *)
Definition world_no_identity : World :=
  world_of (env_of []) (fun _ => plain_answer bundle_password).

(** The provisioner hands out a browser that has no context. *)
Definition world_no_context : World :=
  world_of env_identity
    (fun _ a =>
       match a as a' return Outcome (RespTy a') with
       | Contexts _ => Returned []
       | other => plain_answer bundle_password other
       end).

(** Every step succeeds, but the feed URL is never reached. *)
Definition world_stuck_on_login : World :=
  world_of env_identity (fun _ => plain_answer bundle_password).

(** ** What a bundle holds for a flow *)

(** The last [username_password] record of a bundle. *)
Fixpoint last_username_password (creds : list Credential) : option (string * string) :=
  match creds with
  | [] => None
  | cred :: rest =>
      match last_username_password rest, cred with
      | Some found, _ => Some found
      | None, username_password u p => Some (u, p)
      | None, _ => None
      end
  end.

(** The value of the last [authenticator] record ([''] when the record has no
    code). *)
Fixpoint last_otp (creds : list Credential) : option string :=
  match creds with
  | [] => None
  | cred :: rest =>
      match last_otp rest, cred with
      | Some found, _ => Some found
      | None, authenticator o => Some (default "" o)
      | None, _ => None
      end
  end.

(** The organization of the last [custom] record that has an organization or
    company field (the first such field of the record). *)
Fixpoint last_organization (creds : list Credential) : option string :=
  match creds with
  | [] => None
  | cred :: rest =>
      match last_organization rest, cred with
      | Some found, _ => Some found
      | None, custom fields => field_value <$> List.find Mesh.is_org_field fields
      | None, _ => None
      end
  end.

Definition nonempty (s : string) : Prop := s <> "".

(** The bundle lacks a password record. *)
Definition bundle_no_password : IdentityCredentialsResponse :=
  {| Identity.name := "alice"; Identity.source := "linkedin.com";
     Identity.credentials := [authenticator (Some "123456")] |}.

Definition world_no_password : World :=
  world_of env_identity (fun _ => plain_answer bundle_no_password).

(** The configurations [env_identity] resolves to. *)
Definition linkedin_config : Linkedin.Config :=
  {| Linkedin.sessionId := ""; Linkedin.identityId := "identity-1";
     Linkedin.timeoutMs := 10000;
     Linkedin.homeUrl := "https://www.linkedin.com/uas/login" |}.

Definition mesh_config : Mesh.Config :=
  {| Mesh.sessionId := ""; Mesh.apiKey := "key-1"; Mesh.identityId := "identity-1";
     Mesh.timeoutMs := 10000;
     Mesh.homeUrl := "https://complyadvantage.com/";
     Mesh.meshUrl := "https://mesh.complyadvantage.com/" |}.

(** ** Submit actions of the LinkedIn flow *)

(** A located OTP input: one of the combined-code fields, or one of the
    single-digit fields. *)
Definition otp_field (l : Locator) : bool :=
  match l with
  | first (locator _ s) => existsb (String.eqb s) Linkedin.singleSelectors
  | nth (locator _ s) _ => String.eqb s Linkedin.digit_selector
  | _ => false
  end.

(** A generic submit/verify/continue control. *)
Definition submit_control (l : Locator) : bool :=
  match l with
  | first (locator _ s) => existsb (String.eqb s) Linkedin.submitSelectors
  | _ => false
  end.

Definition is_enter_press (a : Action) : bool :=
  match a with Press _ key => String.eqb key "Enter" | _ => false end.

Definition is_password_submit : Action -> bool :=
  is_enter_on (on_selector Linkedin.password_selector).

Definition is_otp_submit : Action -> bool := is_enter_on otp_field.

(** An [Enter] key-press that is neither the password submit nor the OTP
    submit. *)
Definition stray_submit (a : Action) : bool :=
  (is_enter_press a && negb (is_password_submit a || is_otp_submit a))%bool.

Definition is_fallback_click (a : Action) : bool :=
  match a with Click l None => submit_control l | _ => false end.

(** A click that is not the fallback click on a generic submit control. *)
Definition stray_click (a : Action) : bool :=
  (is_click a && negb (is_fallback_click a))%bool.

(** Any submit action: a submitting key-press or a click. *)
Definition is_submit (a : Action) : bool := (is_enter_press a || is_click a)%bool.

(** What [locateOtpInputs] can return for a page. *)
Definition located_by (page : Page) (r : option Linkedin.OtpInputResult) : Prop :=
  match r with
  | Some (Linkedin.single l) =>
      exists s, s ∈ Linkedin.singleSelectors /\ l = first (locator page s)
  | Some (Linkedin.multi l) => l = locator page Linkedin.digit_selector
  | None => True
  end.

(** ** The pre-login check of the LinkedIn flow *)

(** The first wait for the feed URL of an attempt is its pre-login check; the
    check matches when the wait returns, or when it throws and the URL read
    next passes the feed test. *)
Fixpoint prelogin_check_matched (w : World) (h tr : list Action) : bool :=
  match tr with
  | [] => false
  | WaitForURL page pattern timeout :: rest =>
      match respond w h (WaitForURL page pattern timeout) with
      | Returned _ => true
      | Thrown _ =>
          match rest with
          | Url page' :: _ =>
              match respond w (h ++ [WaitForURL page pattern timeout]) (Url page') with
              | Returned url => Linkedin.feed_regex_test url
              | Thrown _ => false
              end
          | _ => false
          end
      end
  | a :: rest => prelogin_check_matched w (h ++ [a]) rest
  end.

Definition on_credential_field (l : Locator) : bool :=
  (on_selector Linkedin.username_selector l || on_selector Linkedin.password_selector l)%bool.

(** Waiting for, filling, or submitting the username or the password field. *)
Definition touches_credential_fields (a : Action) : bool :=
  match a with
  | WaitForSelector _ sel _ =>
      (String.eqb sel Linkedin.username_selector
       || String.eqb sel Linkedin.password_selector)%bool
  | IsVisible l _ | Count l | Fill l _ | Press l _ | TypeText l _
  | Click l _ | EvaluateClick l => on_credential_field l
  | _ => false
  end.

Definition is_mesh_password_submit : Action -> bool :=
  is_enter_on (on_selector "#password").

(** The page is on the feed from the start. *)
Definition world_already_authenticated : World :=
  world_of env_identity
    (fun _ a =>
       match a as a' return Outcome (RespTy a') with
       | Url _ => Returned "https://www.linkedin.com/feed/"
       | other => plain_answer bundle_password other
       end).

(** The page is on the feed from the start, and closing the browser fails. *)
Definition world_authenticated_close_fails : World :=
  world_of env_identity
    (fun _ a =>
       match a as a' return Outcome (RespTy a') with
       | Url _ => Returned "https://www.linkedin.com/feed/"
       | Close _ => Thrown (Error "Target closed")
       | other => plain_answer bundle_password other
       end).

(** Every step of the Mesh flow succeeds and the dashboard is reached. *)
Definition world_mesh_dashboard : World :=
  world_of env_identity
    (fun _ a =>
       match a as a' return Outcome (RespTy a') with
       | Url _ => Returned "https://mesh.complyadvantage.com/dashboard"
       | other => plain_answer bundle_mesh other
       end).

(** ** The waits for the authenticated-area URL *)

Definition is_url_wait (a : Action) : bool :=
  match a with WaitForURL _ _ _ => true | _ => false end.

(** A wait for the feed URL whose timeout is not the larger of [timeoutMs]
    and [floor]. *)
Definition wait_off_floor (timeoutMs floor : Z) (a : Action) : bool :=
  match a with
  | WaitForURL _ pattern timeout =>
      negb (String.eqb pattern Linkedin.feed_pattern && (timeout =? Z.max timeoutMs floor))%bool
  | _ => false
  end.

(** ** Scripts of the second-factor step *)

(** Calls issued one after the other, up to the first that throws. *)
Fixpoint run_script (script : list Action) (w : World) (h : list Action)
  : option JsError * list Action :=
  match script with
  | [] => (None, [])
  | a :: rest =>
      match respond w h a with
      | Returned _ =>
          let '(r, e) := run_script rest w (h ++ [a]) in (r, a :: e)
      | Thrown err => (Some err, [a])
      end
  end.

(** A script followed by a computation; an error of the script ends it. *)
Definition script_then {A} (script : list Action) (k : M A) : M A := fun w h =>
  match run_script script w h with
  | (Some err, e) => (Thrown err, e)
  | (None, e) => let '(o, e2) := k w (h ++ e) in (o, e ++ e2)
  end.

(** The digit fields [from], [from + 1], ... in index order: each is cleared,
    then the element of its index of the array [arr] is typed. *)
Fixpoint digit_script (inputs : Locator) (arr : list string) (from n : nat) : list Action :=
  match n with
  | O => []
  | S n' =>
      Fill (nth inputs (Z.of_nat from)) ""
        :: TypeText (nth inputs (Z.of_nat from)) (default "" (arr !! from))
        :: digit_script inputs arr (S from) n'
  end.

(** The character of index [i] of a code, as a string. *)
Definition character (code : string) (i : nat) : string :=
  match String.get i code with
  | Some c => String c EmptyString
  | None => EmptyString
  end.

(** What the multi-field tactic is to do with a code: the field of index [i]
    is cleared, then the character of index [i] of the code is typed into it,
    for [i] from [from] on, [n] fields in all. *)
Fixpoint code_script (inputs : Locator) (code : string) (from n : nat) : list Action :=
  match n with
  | O => []
  | S n' =>
      Fill (nth inputs (Z.of_nat from)) ""
        :: TypeText (nth inputs (Z.of_nat from)) (character code from)
        :: code_script inputs code (S from) n'
  end.

(** The number of single-digit fields [locateOtpInputs] sees (a failing count
    is [0]). *)
Definition digit_count (w : World) (h : list Action) (page : Page) : nat :=
  match respond w h (Count (locator page Linkedin.digit_selector)) with
  | Returned n => n
  | Thrown _ => 0%nat
  end.

(** The click of the fallback, raced against the navigation wait, on the first
    visible generic control, if any. *)
Definition fallback_click (w : World) (h : list Action) (page : Page) : list Action :=
  match head (visible_candidates w h page Linkedin.submitSelectors) with
  | Some sel => [WaitForNavigation page "load" 45000; Click (first (locator page sel)) None]
  | None => []
  end.

(** ** Priority among the candidates of a fallback-selector step *)

(** The answer to the probe of the candidate of index [k]: the probes are
    issued in the order of the list, each after those before it. *)
Definition probe_answer (w : World) (h : list Action) (page : Page) (sels : list string)
    (k : nat) : bool :=
  match sels !! k with
  | Some s =>
      match respond w (h ++ probe_calls page (take k sels))
                    (IsVisible (first (locator page s)) None) with
      | Returned true => true
      | _ => false
      end
  | None => false
  end.

(** The same world with other settling times. *)
Definition with_latency (w : World) (lat : list Action -> Action -> nat) : World :=
  {| process_env := process_env w;
     coerce_number := coerce_number w;
     respond := respond w;
     latency := lat |}.

(** Every generic control is visible, and the probe of the first candidate is
    the slowest to settle. *)
Definition world_slow_first_probe : World :=
  {| process_env := env_identity;
     coerce_number := Number_of_decimal;
     respond := fun _ a =>
       match a as a' return Outcome (RespTy a') with
       | IsVisible _ _ => Returned true
       | other => plain_answer bundle_otp other
       end;
     latency := fun h _ => match h with [] => 9%nat | _ => 1%nat end |}.

(** ** The refreshed bundle of the LinkedIn flow *)

(** The calls of steps 3 and 4: the username, then the password and its
    submit. *)
Definition credential_entry (page : Page) (config : Linkedin.Config)
    (credentials : Linkedin.LinkedinCredentials) : list Action :=
  [ WaitForSelector page Linkedin.username_selector (Linkedin.timeoutMs config);
    Fill (locator page Linkedin.username_selector) (Linkedin.username credentials);
    Press (locator page Linkedin.username_selector) "Tab";
    WaitForSelector page Linkedin.password_selector (Linkedin.timeoutMs config);
    Fill (locator page Linkedin.password_selector) (Linkedin.password credentials);
    Press (locator page Linkedin.password_selector) "Enter" ].

(** A fetch of the credential bundle from the identity provider. *)
Definition is_fetch (a : Action) : bool :=
  match a with RetrieveCredentials _ => true | _ => false end.

(** The password was submitted: the [Enter] key-press on the password field
    returned. *)
Definition password_submitted (a : Action) (answer : Outcome (RespTy a)) : bool :=
  (is_password_submit a && returned answer)%bool.

(** The second fetch, seen from the calls of an attempt: [h] are the calls up
    to the password submit, [after] the calls that follow up to the end of the
    guarded steps, [o] is the outcome of these steps and [failed] what they
    make of an error. *)
Definition second_fetch (w : World) (page : Page) (config : Linkedin.Config)
    (failed : JsError -> Outcome LoginResult) (h after : list Action)
    (o : Outcome LoginResult) : Prop :=
  let fetch := RetrieveCredentials (Linkedin.identityId config) in
  match respond w h NewAnchorBrowser with
  | Thrown err => after = [NewAnchorBrowser] /\ o = failed err
  | Returned _ =>
      match respond w (h ++ [NewAnchorBrowser]) fetch with
      | Thrown err => after = [NewAnchorBrowser; fetch] /\ o = failed err
      | Returned updated =>
          match Linkedin.parseLinkedinCredentials (Identity.credentials updated) with
          | Thrown err => after = [NewAnchorBrowser; fetch] /\ o = failed err
          | Returned refreshed =>
              exists rest,
                after = [NewAnchorBrowser; fetch]
                        ++ (Linkedin.submitOtpCode page (Linkedin.otp refreshed) 6
                              (Linkedin.timeoutMs config) w
                              (h ++ [NewAnchorBrowser; fetch])).2
                        ++ rest /\
                count is_fetch after = 1%nat
          end
      end
  end.

(** The bundle holds a password record and an OTP record that has no code. *)
Definition bundle_otp_without_code : IdentityCredentialsResponse :=
  {| Identity.name := "alice"; Identity.source := "linkedin.com";
     Identity.credentials := [username_password "u" "p"; authenticator None] |}.

Definition world_otp_without_code : World :=
  world_of env_identity (fun _ => plain_answer bundle_otp_without_code).

(** The identity provider first hands out a bundle with a password and a
    code, and on the second fetch a bundle without a password record. *)
Definition world_refresh_loses_password : World :=
  world_of env_identity
    (fun h a =>
       match a as a' return Outcome (RespTy a') with
       | RetrieveCredentials _ =>
           if (length h <=? 1)%nat then Returned bundle_otp else Returned bundle_no_password
       | other => plain_answer bundle_otp other
       end).

(** ** Vocabulary of the properties of the remaining code *)

(** *** Results of the entry points *)

(** What a result of the LinkedIn flow looks like: it carries a message, and
    a success is the short-circuit or names the account. *)
Definition linkedin_result (r : LoginResult) : Prop :=
  nonempty (message r) /\
  (success r = true ->
   r = Linkedin.already_authenticated \/
   exists username, nonempty username /\
     r = {| success := true;
            message := "Logged in to Linkedin as " +:+ username +:+ "." |}).

Definition mesh_result (r : LoginResult) : Prop :=
  nonempty (message r) /\
  (success r = true ->
   exists username organization, nonempty username /\ nonempty organization /\
     r = {| success := true;
            message := "Logged in to ComplyAdvantage Mesh as " +:+ username
                       +:+ " (org: " +:+ organization +:+ ")." |}).

Definition agent_result (r : LoginResult) : Prop :=
  nonempty (message r) /\
  (success r = true ->
   r = {| success := true; message := "Agent-based login placeholder" |}).

(** The environment names an existing session; every step succeeds, and the
    URL waits time out on a login URL. *)
Definition env_session : string -> option string :=
  env_of [("ANCHOR_SESSION_ID", "session-1"); ("ANCHOR_IDENTITY_ID", "identity-1");
          ("ANCHORBROWSER_API_KEY", "key-1")].

Definition world_with_session : World :=
  world_of env_session (fun _ => plain_answer bundle_password).

(** *** Configuration *)

(** The same world with one more variable in the environment. *)
Definition setenv (var value : string) (w : World) : World :=
  {| process_env := fun v => if String.eqb v var then Some value else process_env w v;
     coerce_number := coerce_number w;
     respond := respond w;
     latency := latency w |}.

(** The no-break space U+00A0, in UTF-8. *)
Definition no_break_space : string :=
  String (ascii_of_nat 194) (String (ascii_of_nat 160) EmptyString).

(** The identity id is set, to a no-break space. *)
Definition world_blank_identity : World :=
  world_of (env_of [("ANCHOR_IDENTITY_ID", no_break_space);
                    ("ANCHORBROWSER_API_KEY", "key-1")])
           (fun _ => plain_answer bundle_mesh).

(** The configuration of the Mesh flow is usable: the schema accepts the
    environment and [validateRequiredInputs] passes. *)
Definition mesh_configured (w : World) (config : Mesh.Config) : Prop :=
  Mesh.getConfig w [] = (Returned config, []).

(** A computation issues the call [a] first, in every world. *)
Definition Starts {A} (a : Action) (m : M A) : Prop :=
  forall w h, exists r, (m w h).2 = a :: r.

(** *** Steps of the Mesh flow *)

Definition is_goto (a : Action) : bool :=
  match a with Goto _ _ _ _ => true | _ => false end.

(** The calls whose failure fails the Mesh flow: the navigation to the
    homepage, the waits for the login button, the username and the password
    field, the scroll, the listing of the pages, the new-tab event and the
    click that opens the tab, reading a URL, and filling or submitting the
    username or the password.  Every other call is made on a best-effort
    basis. *)
Definition mesh_essential (a : Action) : bool :=
  match a with
  | Goto _ url _ _ => String.eqb url "https://complyadvantage.com/"
  | WaitForSelector _ sel _ => negb (String.eqb sel "#organizationName")
  | EvaluateScrollToTop _ | Pages _ | WaitForEvent _ _ _ | Url _ => true
  | Click (first (locator _ sel)) _ => String.eqb sel "#mesh-li-modal-button"
  | Fill l _ | Press l _ => negb (on_selector "#organizationName" l)
  | _ => false
  end.

Definition essential_failed (a : Action) (o : Outcome (RespTy a)) : bool :=
  (mesh_essential a && negb (returned o))%bool.

(** A computation throws only when one of its calls of the kind [q] did, in
    the worlds that are [valid]. *)
Definition Blames {A} (valid : World -> Prop)
    (q : forall a : Action, Outcome (RespTy a) -> bool) (m : M A) : Prop :=
  forall w h e tr, valid w -> m w h = (Thrown e, tr) -> answered q w h tr = true.

(** Every essential call succeeds and every best-effort call fails; the page
    is on the Mesh dashboard. *)
Definition world_mesh_bare : World :=
  world_of env_identity
    (fun _ a =>
       if mesh_essential a then
         match a as a' return Outcome (RespTy a') with
         | Url _ => Returned "https://mesh.complyadvantage.com/dashboard"
         | other => plain_answer bundle_mesh other
         end
       else Thrown (Error "not available")).

Definition is_standard_click (a : Action) : bool :=
  match a with Click _ _ => true | _ => false end.

Definition is_script_click (a : Action) : bool :=
  match a with EvaluateClick _ => true | _ => false end.

(** A URL was read that passes the test of the fallback search for the
    authentication page. *)
Definition auth_url_seen (a : Action) : Outcome (RespTy a) -> bool :=
  match a with
  | Url _ => fun o => match o with
                      | Returned url => Mesh.auth_regex_test url
                      | Thrown _ => false
                      end
  | _ => fun _ => false
  end.

(** The page has a second tab open from the start. *)
Definition world_second_tab : World :=
  world_of env_identity
    (fun _ a =>
       match a as a' return Outcome (RespTy a') with
       | Pages _ => Returned [2%nat; 5%nat]
       | other => plain_answer bundle_mesh other
       end).

(** *** Submits and clicks of the Mesh flow *)

(** The three fields the Mesh flow submits by key. *)
Definition mesh_field (l : Locator) : bool :=
  (on_selector "#organizationName" l || on_selector "#username" l
   || on_selector "#password" l)%bool.

(** An [Enter] key-press on anything but one of the three fields. *)
Definition mesh_stray_submit (a : Action) : bool :=
  (is_enter_press a && negb (is_enter_on mesh_field a))%bool.

(** The controls the Mesh flow clicks: the login button, the Mesh button of
    the login modal and the accept button of the cookie banner. *)
Definition mesh_click_target (l : Locator) : bool :=
  match l with
  | first (locator _ s) =>
      (String.eqb s "#login-nav-button" || String.eqb s "#mesh-li-modal-button")%bool
  | first (sub_locator (locator _ s) s') =>
      (String.eqb s "#notice"
       && String.eqb s' "button[title='Accept all'], button[aria-label='Accept all']")%bool
  | _ => false
  end.

Definition mesh_stray_click (a : Action) : bool :=
  match a with
  | Click l _ | EvaluateClick l => negb (mesh_click_target l)
  | _ => false
  end.

(** *** The session of an attempt *)

(** The entry points from the point where the credentials are extracted: the
    session is provisioned, its first context and page are looked up, and the
    guarded steps run. *)
Definition linkedin_session (config : Linkedin.Config)
    (credentials : Linkedin.LinkedinCredentials) : M LoginResult :=
  let extraStealthRequired := negb (truthy (Linkedin.otp credentials)) in
  let! browser := Linkedin.getAnchorBrowser config extraStealthRequired in
  let! contexts := call (Contexts browser) in
  match head contexts with
  | None => ret {| success := false; message := "Failed to get browser context" |}
  | Some context =>
      let! pages := call (Pages context) in
      match head pages with
      | None => ret {| success := false; message := "Failed to get browser page" |}
      | Some page =>
          try_finally
            (try_catch (Linkedin.login_flow page config credentials) Linkedin.login_failed)
            (call (Close browser))
      end
  end.

Definition mesh_session (credentials : Mesh.ComplyAdvantageCredentials) : M LoginResult :=
  let! browser := Mesh.getAnchorBrowser in
  let! contexts := call (Contexts browser) in
  match head contexts with
  | None => ret {| success := false; message := "Failed to get browser context" |}
  | Some context =>
      let! pages := call (Pages context) in
      match head pages with
      | None => ret {| success := false; message := "Failed to get browser page" |}
      | Some page =>
          try_finally
            (try_catch (Mesh.login_flow page context credentials) Mesh.login_failed)
            (call (Close browser))
      end
  end.

(** A call to the session provisioner. *)
Definition is_provision (a : Action) : bool :=
  match a with Connect _ | Create _ => true | _ => false end.

Definition configuration_eqb (c1 c2 : BrowserConfiguration) : bool :=
  match c1, c2 with
  | no_configuration, no_configuration
  | empty_configuration, empty_configuration
  | stealth_configuration, stealth_configuration => true
  | _, _ => false
  end.

(** A call to the session provisioner other than the expected one. *)
Definition unexpected_provision (expected : Action) (a : Action) : bool :=
  match a, expected with
  | Connect s, Connect s' => negb (String.eqb s s')
  | Create c, Create c' => negb (configuration_eqb c c')
  | Connect _, _ | Create _, _ => true
  | _, _ => false
  end.

(** The identity provider hands out a bundle with a one-time code. *)
Definition world_with_otp : World :=
  world_of env_identity (fun _ => plain_answer bundle_otp).

(** The session the LinkedIn flow asks for: the existing one when a session id
    is configured, else a new one, with the stealth options exactly when the
    bundle has no one-time code. *)
Definition linkedin_provision (config : Linkedin.Config)
    (credentials : Linkedin.LinkedinCredentials) : Action :=
  if truthy (Linkedin.sessionId config) then Connect (Linkedin.sessionId config)
  else Create (if truthy (Linkedin.otp credentials)
               then empty_configuration else stealth_configuration).

Definition mesh_provision (config : Mesh.Config) : Action :=
  if truthy (Mesh.sessionId config) then Connect (Mesh.sessionId config)
  else Create no_configuration.

(** The failure result of the guarded credential acquisition of the Mesh
    flow. *)
Definition mesh_no_credentials (e : JsError) : LoginResult :=
  {| success := false;
     message := or_else (errorMessage e) "Failed to fetch credentials" |}.

(** The calls the agent flow makes. *)
Definition is_agent_call (a : Action) : bool :=
  match a with
  | NewAnchorBrowser | RetrieveCredentials _ | Connect _ | AgentTask _ _ _ => true
  | _ => false
  end.

Definition not_agent_call (a : Action) : bool := negb (is_agent_call a).

(** *** The digits of a one-time code *)

(** What a call types, and into which field. *)
Definition typed_digit (a : Action) : option (Locator * string) :=
  match a with
  | TypeText l text => Some (l, text)
  | _ => None
  end.

Definition typed (tr : list Action) : list (Locator * string) := omap typed_digit tr.

Definition is_type_text (a : Action) : bool :=
  match a with TypeText _ _ => true | _ => false end.

(** The page shows six single-digit fields and no combined field. *)
Definition world_six_digit_fields : World :=
  world_of env_identity
    (fun _ a =>
       match a as a' return Outcome (RespTy a') with
       | Count _ => Returned 6%nat
       | other => plain_answer bundle_otp other
       end).

(** ** The application registry (types.ts, apps/linkedin) *)

Module Types.

(** [AuthMethodTypeSchema]: the types of credential records. *)
Inductive AuthMethodType : Type := username_password | authenticator | custom.

Definition AuthMethodType_eqb (m1 m2 : AuthMethodType) : bool :=
  match m1, m2 with
  | username_password, username_password
  | authenticator, authenticator
  | custom, custom => true
  | _, _ => false
  end.

Module AuthFlow.
Record AuthFlow : Type := {
  name : string;
  description : string;
  requiredMethods : list AuthMethodType;
  optionalMethods : list AuthMethodType
}.
End AuthFlow.

Module AppTool.
Record AppTool : Type := { name : string; description : string }.
End AppTool.

Module Application.
Record Application : Type := {
  id : string;
  name : string;
  description : string;
  domain : string;
  authFlows : list (string * AuthFlow.AuthFlow);
  tools : list (string * AppTool.AppTool)
}.
End Application.

(** The checks the schemas make on a value of the schema's type:
    [z.string().min(1)] refuses the empty string, and a record is accepted
    when each of its values is. *)
Definition AuthFlowSchema_accepts (flow : AuthFlow.AuthFlow) : bool :=
  truthy (AuthFlow.name flow).

Definition AppToolSchema_accepts (tool : AppTool.AppTool) : bool :=
  truthy (AppTool.name tool).

Definition ApplicationSchema_accepts (app : Application.Application) : bool :=
  (truthy (Application.id app) && truthy (Application.name app)
   && truthy (Application.domain app)
   && forallb (fun entry => AuthFlowSchema_accepts entry.2) (Application.authFlows app)
   && forallb (fun entry => AppToolSchema_accepts entry.2) (Application.tools app))%bool.

End Types.

(** apps/linkedin/auth: the flows of the LinkedIn application. *)
Definition authFlows : list (string * Types.AuthFlow.AuthFlow) :=
  [ ("basic-2fa-login",
     {| Types.AuthFlow.name := "Basic 2FA Login";
        Types.AuthFlow.description :=
          "Login to LinkedIn using username and password and can optionally use 2FA";
        Types.AuthFlow.requiredMethods := [Types.username_password];
        Types.AuthFlow.optionalMethods := [Types.authenticator] |}) ].

(** apps/linkedin: the application. *)
Definition linkedin : Types.Application.Application :=
  {| Types.Application.id := "linkedin";
     Types.Application.name := "LinkedIn";
     Types.Application.description := "LinkedIn";
     Types.Application.domain := "linkedin.com";
     Types.Application.authFlows := authFlows;
     Types.Application.tools := [] |}.

(** The [type] tag of a credential record. *)
Definition method_of (cred : Credential) : Types.AuthMethodType :=
  match cred with
  | username_password _ _ => Types.username_password
  | authenticator _ => Types.authenticator
  | custom _ => Types.custom
  end.

Definition uses_method (methods : list Types.AuthMethodType) (cred : Credential) : bool :=
  existsb (Types.AuthMethodType_eqb (method_of cred)) methods.

(** *** Timeouts of the LinkedIn flow *)

(** A navigation or a wait for a selector whose timeout is not [timeoutMs] or
    that does not wait for the load event, or a navigation wait after a submit
    that is not the 45 s wait for the load event. *)
Definition off_timeout (timeoutMs : Z) (a : Action) : bool :=
  match a with
  | Goto _ _ waitUntil timeout =>
      negb (String.eqb waitUntil "load" && (timeout =? timeoutMs))%bool
  | WaitForSelector _ _ timeout => negb (timeout =? timeoutMs)
  | WaitForNavigation _ waitUntil timeout =>
      negb (String.eqb waitUntil "load" && (timeout =? 45000))%bool
  | _ => false
  end.

Definition is_timed_wait (a : Action) : bool :=
  match a with
  | Goto _ _ _ _ | WaitForSelector _ _ _ | WaitForNavigation _ _ _ => true
  | _ => false
  end.

(** ** Facts about [Promise.all] *)

Lemma insert_by_time_Permutation {A} (c : nat * (nat * A)) l :
  insert_by_time c l ≡ₚ c :: l.
Proof.
  induction l as [|d l IH]; simpl; [done|].
  destruct (c.2.1 <=? d.2.1)%nat; [done|].
  rewrite IH. apply Permutation_swap.
Qed.

Lemma completion_order_Permutation {A} (started : list (nat * A)) :
  completion_order started ≡ₚ imap (fun i x => (i, x)) started.
Proof.
  unfold completion_order.
  induction (imap (fun i x => (i, x)) started) as [|c l IH]; simpl; [done|].
  by rewrite insert_by_time_Permutation, IH.
Qed.

Lemma completion_order_indices {A} (started : list (nat * A)) :
  NoDup (completion_order started).*1.
Proof.
  rewrite completion_order_Permutation, fmap_imap.
  rewrite (imap_ext _ (fun j _ => id j)) by done.
  rewrite imap_seq_0, list_fmap_id. apply NoDup_seq.
Qed.

Lemma settle_all_fulfilled {A} (l : list (nat * (nat * Outcome A))) values :
  Forall (fun c => exists v, c.2.2 = Returned v) l ->
  settle_all l values = Returned (foldl store values l).
Proof.
  intros H. revert values.
  induction H as [|[i [t o]] l [v Hv] _ IH]; intros values; simpl in *; [done|].
  subst o. rewrite IH. done.
Qed.

Lemma settle_all_rejected {A} (l : list (nat * (nat * Outcome A))) values e :
  settle_all l values = Thrown e -> exists i t, (i, (t, Thrown e)) ∈ l.
Proof.
  revert values. induction l as [|[i [t o]] l IH]; intros values; simpl; [done|].
  destruct o as [v|e'].
  - intros H. destruct (IH _ H) as (j & t' & Hin). exists j, t'. by right.
  - intros [= ->]. exists i, t. by left.
Qed.

Lemma store_length {A} (l : list (nat * (nat * Outcome A))) values :
  length (foldl store values l) = length values.
Proof.
  revert values. induction l as [|c l IH]; intros values; simpl; [done|].
  rewrite IH. unfold store. destruct (c.2.2); [apply length_insert|done].
Qed.

Lemma store_other {A} (l : list (nat * (nat * Outcome A))) values j :
  j ∉ l.*1 -> foldl store values l !! j = values !! j.
Proof.
  revert values. induction l as [|c l IH]; intros values Hj; simpl; [done|].
  rewrite fmap_cons, not_elem_of_cons in Hj. destruct Hj as [Hne Hj].
  rewrite IH by done. unfold store. destruct (c.2.2); [|done].
  by apply list_lookup_insert_ne.
Qed.

Lemma store_lookup {A} (l : list (nat * (nat * Outcome A))) values j t v :
  NoDup l.*1 -> (j, (t, Returned v)) ∈ l -> (j < length values)%nat ->
  foldl store values l !! j = Some (Some v).
Proof.
  revert values. induction l as [|c l IH]; intros values Hnd Hin Hlt.
  - by apply elem_of_nil in Hin.
  - rewrite fmap_cons in Hnd. apply NoDup_cons in Hnd as [Hc Hnd].
    apply elem_of_cons in Hin as [<-|Hin]; simpl.
    + rewrite store_other by done. unfold store; simpl.
      by apply list_lookup_insert_eq.
    + apply IH; [done|done|].
      unfold store. destruct (c.2.2); [by rewrite length_insert|done].
Qed.

(** The values [Promise.all] resolves with are those of the tasks in array
    order, whatever the order in which the tasks settle. *)
Lemma Promise_all_fulfilled {A} (ts : list (Task A)) w h vs :
  (start_all ts w h).*2 = Returned <$> vs ->
  Promise_all ts w h = (Returned vs, map act ts).
Proof.
  intros Hvs. unfold Promise_all. f_equal.
  set (started := start_all ts w h) in *.
  assert (Hlen : length started = length ts).
  { subst started. clear. revert h. induction ts; intros; simpl; [done|]. by rewrite IHts. }
  assert (Hlv : length vs = length ts).
  { rewrite <- Hlen, <- (length_fmap snd started), Hvs. by rewrite length_fmap. }
  rewrite settle_all_fulfilled.
  2:{ apply Forall_forall. intros c Hc.
      rewrite completion_order_Permutation in Hc.
      apply elem_of_lookup_imap in Hc as (i & [t o] & -> & Hi). simpl.
      assert (Ho : started.*2 !! i = Some o) by (by rewrite list_lookup_fmap, Hi).
      rewrite Hvs, list_lookup_fmap in Ho.
      destruct (vs !! i); simplify_eq/=. eauto. }
  f_equal.
  replace (foldl store (replicate (length ts) None) (completion_order started))
    with (Some <$> vs).
  { clear. induction vs as [|v vs IH]; [done|]. simpl. f_equal. exact IH. }
  apply list_eq. intros j.
  destruct (decide (j < length ts)%nat) as [Hj|Hj].
  - destruct (lookup_lt_is_Some_2 vs j) as [v Hv]; [lia|].
    rewrite list_lookup_fmap, Hv. simpl. symmetry.
    assert (Ho : started.*2 !! j = Some (Returned v)).
    { by rewrite Hvs, list_lookup_fmap, Hv. }
    rewrite list_lookup_fmap in Ho.
    destruct (started !! j) as [[t o]|] eqn:Hs; simplify_eq/=.
    eapply (store_lookup _ _ _ t).
    + apply completion_order_indices.
    + rewrite completion_order_Permutation.
      by apply (elem_of_lookup_imap_2 (fun i x => (i, x)) _ _ _ Hs).
    + by rewrite length_replicate.
  - rewrite !lookup_ge_None_2; [done| |].
    + rewrite store_length, length_replicate. lia.
    + rewrite length_fmap. lia.
Qed.

Lemma Promise_all_rejected {A} (ts : list (Task A)) w h e :
  (Promise_all ts w h).1 = Thrown e -> Thrown e ∈ (start_all ts w h).*2.
Proof.
  unfold Promise_all; simpl.
  destruct (settle_all _ _) eqn:Hs; [done|]. intros [= ->].
  apply settle_all_rejected in Hs as (i & t & Hin).
  rewrite completion_order_Permutation in Hin.
  apply elem_of_lookup_imap in Hin as (j & [t' o] & [= -> -> ->] & Hj).
  apply list_elem_of_fmap. exists (t', o). split; [done|].
  by eapply list_elem_of_lookup_2.
Qed.

Lemma start_all_probes w h page sels :
  (start_all (map (probe page) sels) w h).*2 = Returned <$> probe_results w h page sels.
Proof.
  revert h. induction sels as [|sel sels IH]; intros h; simpl; [done|].
  rewrite IH. f_equal.
  destruct (respond w h (IsVisible (first (locator page sel)) None)) as [[|]|]; done.
Qed.

(** The probes of a candidate list never reject: the step gets one result per
    candidate, in the order of the list, after issuing every probe. *)
Lemma probes_run page sels w h :
  Promise_all (map (probe page) sels) w h
  = (Returned (probe_results w h page sels), probe_calls page sels).
Proof.
  rewrite (Promise_all_fulfilled _ _ _ _ (start_all_probes w h page sels)).
  f_equal. unfold probe_calls. by rewrite map_map.
Qed.

Lemma find_non_null_visible w h page sels :
  find_non_null (probe_results w h page sels) = head (visible_candidates w h page sels).
Proof.
  revert h. induction sels as [|sel sels IH]; intros h; [done|].
  unfold find_non_null in *. simpl.
  destruct (respond w h (IsVisible (first (locator page sel)) None)) as [[|]|];
    simpl; [done| |]; apply IH.
Qed.

Lemma visible_candidates_sub w h page sels sel :
  sel ∈ visible_candidates w h page sels -> sel ∈ sels.
Proof.
  revert h. induction sels as [|s sels IH]; intros h; simpl; [done|].
  destruct (respond w h _) as [[|]|]; intros Hin.
  - apply elem_of_cons in Hin as [->|Hin]; [by left|right; by eapply IH].
  - right. by eapply IH.
  - right. by eapply IH.
Qed.

(** The navigation wait raced against an action: both are issued, the wait
    never rejects, and the whole completes as the action does. *)
Lemma with_navigation_wait_run page a w h :
  with_navigation_wait page a w h
  = (match respond w (h ++ [WaitForNavigation page "load" 45000]) a with
     | Returned _ => Returned tt
     | Thrown e => Thrown e
     end, [WaitForNavigation page "load" 45000; a]).
Proof.
  unfold with_navigation_wait, bind, Promise_all, completion_order. simpl.
  destruct (_ <=? _)%nat; simpl;
    destruct (respond w h (WaitForNavigation page "load" 45000));
    destruct (respond w _ a); simpl; done.
Qed.

(** ** Counting calls along the structure of a computation *)

Section Counting.
Variable p : Action -> bool.

Lemma count_app l1 l2 : count p (l1 ++ l2) = (count p l1 + count p l2)%nat.
Proof. unfold count. by rewrite List.filter_app, length_app. Qed.

Lemma count_cons a l :
  count p (a :: l) = ((if p a then 1 else 0) + count p l)%nat.
Proof. unfold count. simpl. by destruct (p a). Qed.

Lemma count_le_length l : (count p l <= length l)%nat.
Proof.
  induction l as [|a l IH]; [done|]. rewrite count_cons. simpl. destruct (p a); lia.
Qed.

Lemma Bound_weaken {A} n n' (m : M A) : (n <= n')%nat -> Bound p n m -> Bound p n' m.
Proof. intros Hn H w h. specialize (H w h). lia. Qed.

Lemma Bound_pure {A} (m : M A) : Pure m -> Bound p 0 m.
Proof. intros H w h. by rewrite H. Qed.

Lemma Bound_call_0 a : p a = false -> Bound p 0 (call a).
Proof. intros H w h. simpl. rewrite count_cons, H. done. Qed.

Lemma Bound_call_1 a : Bound p 1 (call a).
Proof. intros w h. apply (count_le_length [a]). Qed.

Lemma Bound_bind {A B} n k (m : M A) (f : A -> M B) :
  Bound p n m -> (forall a, Bound p k (f a)) -> Bound p (n + k) (bind m f).
Proof.
  intros Hm Hf w h. unfold bind. specialize (Hm w h).
  destruct (m w h) as [[a|e] e1]; simpl in *; [|lia].
  specialize (Hf a w (h ++ e1)). destruct (f a w (h ++ e1)) as [o e2]; simpl in *.
  rewrite count_app. lia.
Qed.

(** The same, knowing something of the value handed over. *)
Lemma Bound_bind_returns {A B} n k (m : M A) (f : A -> M B) (Q : A -> Prop) :
  Bound p n m -> Returns m Q -> (forall a, Q a -> Bound p k (f a)) ->
  Bound p (n + k) (bind m f).
Proof.
  intros Hm HQ Hf w h. unfold bind. specialize (Hm w h). specialize (HQ w h).
  destruct (m w h) as [[a|e] e1]; simpl in *; [|lia].
  specialize (Hf a (HQ a eq_refl) w (h ++ e1)).
  destruct (f a w (h ++ e1)) as [o e2]; simpl in *.
  rewrite count_app. lia.
Qed.

Lemma Bound_try_catch {A} n k (m : M A) handler :
  Bound p n m -> (forall e, Bound p k (handler e)) ->
  Bound p (n + k) (try_catch m handler).
Proof.
  intros Hm Hf w h. unfold try_catch. specialize (Hm w h).
  destruct (m w h) as [[a|e] e1]; simpl in *; [lia|].
  specialize (Hf e w (h ++ e1)). destruct (handler e w (h ++ e1)) as [o e2]; simpl in *.
  rewrite count_app. lia.
Qed.

Lemma Bound_try_finally {A} n k (m : M A) fin :
  Bound p n m -> Bound p k fin -> Bound p (n + k) (try_finally m fin).
Proof.
  intros Hm Hf w h. unfold try_finally. specialize (Hm w h).
  destruct (m w h) as [o e1]; simpl in *.
  specialize (Hf w (h ++ e1)). destruct (fin w (h ++ e1)) as [[[]|e] e2]; simpl in *;
    rewrite count_app; lia.
Qed.

Lemma Bound_Promise_all {A} n (ts : list (Task A)) :
  (count p (map act ts) <= n)%nat -> Bound p n (Promise_all ts).
Proof. intros H w h. done. Qed.

(** A loop stays silent when its body is. *)
Lemma Bound_for_each {A} n (l : list A) body :
  (forall x, Bound p n (body x)) -> n = 0%nat -> Bound p 0 (for_each l body).
Proof.
  intros H ->. induction l as [|x l IH]; simpl.
  - by apply Bound_pure.
  - apply (Bound_bind 0 0); [apply H|done].
Qed.

Lemma Bound_find_auth_page pages :
  (forall page, p (Url page) = false) -> Bound p 0 (Mesh.find_auth_page pages).
Proof.
  intros H. induction pages as [|x l IH]; simpl.
  - by apply Bound_pure.
  - apply (Bound_bind 0 0); [by apply Bound_call_0|].
    intros url. by destruct (Mesh.auth_regex_test url); [apply Bound_pure|].
Qed.

Lemma Bound_if {A} n k (b : bool) (m1 m2 : M A) :
  Bound p n m1 -> Bound p k m2 -> Bound p (Nat.max n k) (if b then m1 else m2).
Proof. intros H1 H2. destruct b; (eapply Bound_weaken; [|eassumption]); lia. Qed.

Lemma Bound_option {A B} n k (o : option B) (f : B -> M A) (d : M A) :
  (forall y, Bound p n (f y)) -> Bound p k d ->
  Bound p (Nat.max n k) (match o with Some y => f y | None => d end).
Proof. intros H1 H2. destruct o; (eapply Bound_weaken; [|eauto]); lia. Qed.

Lemma Bound_sum {A B C} n k (s : B + C) (f : B -> M A) (g : C -> M A) :
  (forall y, Bound p n (f y)) -> (forall z, Bound p k (g z)) ->
  Bound p (Nat.max n k) (match s with inl y => f y | inr z => g z end).
Proof. intros H1 H2. destruct s; (eapply Bound_weaken; [|eauto]); lia. Qed.

Lemma Bound_otp_inputs {A} n k (r : Linkedin.OtpInputResult) (f g : Locator -> M A) :
  (forall l, Bound p n (f l)) -> (forall l, Bound p k (g l)) ->
  Bound p (Nat.max n k)
        (match r with Linkedin.single l => f l | Linkedin.multi l => g l end).
Proof. intros H1 H2. destruct r; (eapply Bound_weaken; [|eauto]); lia. Qed.

(** Setup calls are not of a kind that no setup call is of. *)
Lemma count_setup tr :
  (forall a, is_setup_call a = true -> p a = false) ->
  Forall (fun a => is_setup_call a = true) tr -> count p tr = 0%nat.
Proof.
  intros Hp. induction 1 as [|a tr Ha _ IH]; [done|].
  rewrite count_cons, IH, (Hp a Ha). done.
Qed.
End Counting.

Create HintDb bound_db discriminated.

Ltac head_of t := lazymatch t with ?f _ => head_of f | _ => t end.

(** A bound on the calls of a list that may mention unknown locators. *)
Ltac count_calls :=
  simpl; rewrite ?count_cons; unfold count; simpl;
  repeat (match goal with |- context [if ?b then _ else _] => destruct b end; simpl);
  lia.

(** Counting through a computation: a bound is synthesized along the
    structure of the program (sums over sequencing, maxima over branches) and
    then compared with the bound asked for.  A step that is not a combinator
    is looked up in [bound_db], and unfolded when nothing is known of it. *)
Ltac bound_step :=
  lazymatch goal with
  | |- Bound _ _ (bind _ _) => eapply Bound_bind
  | |- Bound _ _ (try_catch _ _) => eapply Bound_try_catch
  | |- Bound _ _ (try_finally _ _) => eapply Bound_try_finally
  | |- Bound ?p _ (call ?a) =>
      first [ eapply (Bound_call_0 p a);
              first [reflexivity | cbn; rewrite Z.eqb_refl; reflexivity]
            | eapply (Bound_call_1 p a) ]
  | |- Bound _ _ (Promise_all _) =>
      first [ eapply (Bound_Promise_all _ 0); count_calls
            | eapply (Bound_Promise_all _ 1); count_calls ]
  | |- Bound _ _ (for_each _ _) => eapply Bound_for_each
  | |- Bound _ _ (Mesh.find_auth_page _) => eapply Bound_find_auth_page; reflexivity
  | |- Bound _ _ (match _ with _ => _ end) =>
      first [ eapply Bound_if | eapply Bound_option | eapply Bound_sum
            | eapply Bound_otp_inputs ]
  | |- Bound _ _ (ret _) => eapply Bound_pure; intros ? ?; reflexivity
  | |- Bound _ _ (throw _) => eapply Bound_pure; intros ? ?; reflexivity
  | |- Bound _ _ (lift _) => eapply Bound_pure; intros ? ?; reflexivity
  | |- Bound _ _ Linkedin.getConfig => eapply Bound_pure; intros ? ?; reflexivity
  | |- Bound _ _ Mesh.getConfig => eapply Bound_pure; intros ? ?; reflexivity
  | |- Bound _ _ Agent.getConfig => eapply Bound_pure; intros ? ?; reflexivity
  | |- Bound _ _ ?m =>
      first [ solve [eauto 1 with bound_db nocore]
            | let hd := head_of m in unfold hd ]
  end.

Ltac bound_synth := repeat (intros; bound_step).

Ltac bound :=
  intros; eapply Bound_weaken; [|bound_synth]; vm_compute; first [reflexivity | lia].

(** ** The setup of an attempt *)

(** Symbolic execution of straight-line code: case analysis on the answer to
    the next call. *)
Ltac next_call :=
  match goal with
  | |- context [match respond ?w ?h ?a with _ => _ end] =>
      let E := fresh "E" in destruct (respond w h a) eqn:E
  | |- context [let (_, _) := respond ?w ?h ?a in _] =>
      let E := fresh "E" in destruct (respond w h a) eqn:E
  end.

Ltac ends :=
  let H := fresh in intros H; inversion H; subst; clear H.

Lemma Linkedin_attempt w o tr :
  run Linkedin.LoginToLinkedin w = (o, tr) -> LinkedinAttempt w o tr.
Proof.
  unfold run, Linkedin.LoginToLinkedin.
  cbv [bind Linkedin.fetchIdentityCredentials Linkedin.getAnchorClient call lift
       Linkedin.getAnchorBrowser].
  destruct (Linkedin.getConfig w []) as [[config|e] e0] eqn:Hc;
    assert (e0 = []) as -> by (by injection Hc).
  2:{ intros [= <- <-]. by apply linkedin_not_started. }
  simpl. next_call; simpl.
  2:{ intros [= <- <-]. by apply linkedin_not_started; [repeat constructor| |]. }
  next_call; simpl.
  2:{ intros [= <- <-]. by apply linkedin_not_started; [repeat constructor| |]. }
  destruct (Linkedin.parseLinkedinCredentials _) as [credentials|e] eqn:Hp; simpl.
  2:{ intros [= <- <-]. by apply linkedin_not_started; [repeat constructor| |]. }
  next_call; simpl.
  2:{ intros [= <- <-]. by apply linkedin_not_started; [repeat constructor| |]. }
  destruct (truthy (Linkedin.sessionId config)); simpl.
  all: next_call; simpl;
    [|intros [= <- <-]; by apply linkedin_not_started; [repeat constructor|simpl; rewrite ?E2|]].
  all: next_call; simpl;
    [|intros [= <- <-]; by apply linkedin_not_started; [repeat constructor|simpl; rewrite ?E2|]].
  all: match goal with |- context [head ?l] => destruct l as [|context ?] end; simpl;
    [intros [= <- <-]; by apply linkedin_not_started; [repeat constructor|simpl|intros ? [= <-]]|].
  all: next_call; simpl;
    [|intros [= <- <-]; by apply linkedin_not_started;
        [repeat constructor|simpl; rewrite ?E4|]].
  all: match goal with |- context [head ?l] => destruct l as [|page ?] end; simpl;
    [intros [= <- <-]; by apply linkedin_not_started;
        [repeat constructor|simpl; rewrite ?E4|intros ? [= <-]]|].
  all: match goal with |- context [try_finally ?m ?f ?w0 ?h0] =>
         destruct (try_finally m f w0 h0) as [o' e'] eqn:Ht end.
  all: intros [= <- <-].
  all: eapply linkedin_started;
    [exact Hc|exact E0|exact Hp| | | |exact Ht|reflexivity];
    [repeat constructor|simpl; by rewrite ?E4|simpl; by rewrite ?E2].
Qed.

Lemma failure_result msg : failure (Returned {| success := false; message := msg |}).
Proof. by intros r [= <-]. Qed.

Lemma Mesh_attempt w o tr :
  run Mesh.LoginToComplyAdvantageMesh w = (o, tr) -> MeshAttempt w o tr.
Proof.
  unfold run, Mesh.LoginToComplyAdvantageMesh.
  cbv [bind try_catch Mesh.validate_inputs Mesh.validateRequiredInputs
       Mesh.acquire_credentials Mesh.fetchIdentityCredentials Mesh.getAnchorClient
       call lift Mesh.getAnchorBrowser Mesh.getConfig].
  destruct (Mesh.ConfigSchema_parse _ _ _ _ _ _ _) as [config|e] eqn:Hc'.
  1: assert (Hc : Mesh.getConfig w [] = (Returned config, []))
       by (unfold Mesh.getConfig; by rewrite Hc').
  2:{ simpl. ends. apply mesh_not_started; [constructor|reflexivity|apply failure_result]. }
  simpl; rewrite ?Hc'; simpl.
  destruct (negb (truthy (trim (Mesh.identityId config)))); simpl; rewrite ?Hc'; simpl.
  { ends. apply mesh_not_started; [constructor|reflexivity|apply failure_result]. }
  destruct (negb (truthy (trim (Mesh.apiKey config)))); simpl; rewrite ?Hc'; simpl.
  { ends. apply mesh_not_started; [constructor|reflexivity|apply failure_result]. }
  next_call; simpl; rewrite ?Hc'; simpl; rewrite ?Hc'; simpl.
  2:{ ends.
      apply mesh_not_started; [repeat constructor|reflexivity|apply failure_result]. }
  next_call; simpl; rewrite ?Hc'; simpl; rewrite ?Hc'; simpl.
  2:{ ends.
      apply mesh_not_started; [repeat constructor|reflexivity|apply failure_result]. }
  destruct (Mesh.parseComplyAdvantageCredentials _) as [credentials|e] eqn:Hp; simpl; rewrite ?Hc'; simpl.
  2:{ ends.
      apply mesh_not_started; [repeat constructor|reflexivity|apply failure_result]. }
  next_call; simpl; rewrite ?Hc'; simpl; rewrite ?Hc'; simpl.
  2:{ ends. by apply mesh_not_started; [repeat constructor| |]. }
  destruct (truthy (Mesh.sessionId config)); simpl; rewrite ?Hc'; simpl.
  all: next_call; simpl; rewrite ?Hc'; simpl;
    [|ends; by apply mesh_not_started; [repeat constructor|simpl; rewrite ?E2|]].
  all: next_call; simpl; rewrite ?Hc'; simpl;
    [|ends; by apply mesh_not_started; [repeat constructor|simpl; rewrite ?E2|]].
  all: match goal with |- context [head ?l] => destruct l as [|context ?] end; simpl; rewrite ?Hc'; simpl;
    [ends; by apply mesh_not_started; [repeat constructor|simpl|intros ? [= <-]]|].
  all: next_call; simpl; rewrite ?Hc'; simpl;
    [|ends; by apply mesh_not_started;
        [repeat constructor|simpl; rewrite ?E4|]].
  all: match goal with |- context [head ?l] => destruct l as [|page ?] end; simpl; rewrite ?Hc'; simpl;
    [ends; by apply mesh_not_started;
        [repeat constructor|simpl; rewrite ?E4|intros ? [= <-]]|].
  all: match goal with |- context [try_finally ?m ?f ?w0 ?h0] =>
         destruct (try_finally m f w0 h0) as [o' e'] eqn:Ht end.
  all: ends.
  all: eapply mesh_started;
    [exact Hc|exact E0|exact Hp| | | |exact Ht|reflexivity];
    [repeat constructor|simpl; by rewrite ?E4|simpl; by rewrite ?E2].
Qed.

(** ** Release of the browser session (C3) *)

Lemma answered_app q w h l1 l2 :
  answered q w h (l1 ++ l2) = (answered q w h l1 || answered q w (h ++ l1) l2)%bool.
Proof.
  revert h. induction l1 as [|a l1 IH]; intros h; simpl.
  - by rewrite app_nil_r.
  - by rewrite IH, <- app_assoc, orb_assoc.
Qed.

Lemma try_finally_close {A} (m : M A) browser w h o e :
  try_finally m (call (Close browser)) w h = (o, e) ->
  exists o' e', m w h = (o', e') /\ e = e' ++ [Close browser] /\
    o = match respond w (h ++ e') (Close browser) with
        | Returned _ => o'
        | Thrown err => Thrown err
        end.
Proof.
  unfold try_finally, call. destruct (m w h) as [o' e'].
  destruct (respond w (h ++ e') (Close browser)) eqn:E; intros [= <- <-];
    exists o', e'; by rewrite E.
Qed.

Lemma Linkedin_body_no_close page config credentials :
  Bound is_close 0
    (try_catch (Linkedin.login_flow page config credentials) Linkedin.login_failed).
Proof. bound. Qed.

Lemma Mesh_body_no_close page context credentials :
  Bound is_close 0
    (try_catch (Mesh.login_flow page context credentials) Mesh.login_failed).
Proof. bound. Qed.

(** The guarded part of an attempt closes the browser once, whatever its body
    does. *)
Lemma guarded_closes_once {A} (body : M A) browser w h o e :
  Bound is_close 0 body ->
  try_finally body (call (Close browser)) w h = (o, e) ->
  count is_close e = 1%nat.
Proof.
  intros Hb Ht. apply try_finally_close in Ht as (o' & e' & Hm & -> & _).
  specialize (Hb w h). rewrite Hm in Hb. simpl in Hb.
  rewrite count_app, count_cons. unfold count at 2; simpl. lia.
Qed.

(** An attempt that acquired a session and no page ends on the lookup of the
    first context or of the first page. *)
Lemma Linkedin_without_page w o tr :
  run Linkedin.LoginToLinkedin w = (o, tr) ->
  answered session_acquired w [] tr = true ->
  answered page_obtained w [] tr = false ->
  exists pre a, tr = pre ++ [a] /\ lookup_gave_nothing a (respond w pre a) o.
Proof.
  unfold run, Linkedin.LoginToLinkedin.
  cbv [bind Linkedin.fetchIdentityCredentials Linkedin.getAnchorClient call lift
       Linkedin.getAnchorBrowser].
  destruct (Linkedin.getConfig w []) as [[config|e] e0] eqn:Hc;
    assert (e0 = []) as -> by (by injection Hc).
  2:{ by intros [= <- <-]. }
  simpl. next_call; simpl.
  2:{ by intros [= <- <-]. }
  next_call; simpl.
  2:{ by intros [= <- <-]. }
  destruct (Linkedin.parseLinkedinCredentials _) as [credentials|e] eqn:Hp; simpl.
  2:{ by intros [= <- <-]. }
  next_call; simpl.
  2:{ by intros [= <- <-]. }
  destruct (truthy (Linkedin.sessionId config)); simpl.
  all: next_call; simpl;
    [|intros [= <- <-]; simpl; by rewrite ?E2].
  all: next_call; simpl.
  all: try (intros [= <- <-] _ _;
            match goal with
            | |- context [[?x; ?y; ?z; ?a; ?c]] =>
                exists [x; y; z; a], c; split; [done|]; simpl; by rewrite E3
            end).
  all: match goal with |- context [head ?l] => destruct l as [|context ?] end; simpl.
  all: try (intros [= <- <-] _ _;
            match goal with
            | |- context [[?x; ?y; ?z; ?a; ?c]] =>
                exists [x; y; z; a], c; split; [done|]; simpl; by rewrite E3
            end).
  all: next_call; simpl.
  all: try (intros [= <- <-] _ _;
            match goal with
            | |- context [[?x; ?y; ?z; ?a; ?c; ?d]] =>
                exists [x; y; z; a; c], d; split; [done|]; simpl; by rewrite E4
            end).
  all: match goal with |- context [head ?l] => destruct l as [|page ?] end; simpl.
  all: try (intros [= <- <-] _ _;
            match goal with
            | |- context [[?x; ?y; ?z; ?a; ?c; ?d]] =>
                exists [x; y; z; a; c], d; split; [done|]; simpl; by rewrite E4
            end).
  all: match goal with |- context [try_finally ?m ?f ?w0 ?h0] =>
         destruct (try_finally m f w0 h0) as [o' e'] end.
  all: intros [= <- <-] _; simpl; by rewrite ?E4.
Qed.
Lemma Mesh_without_page w o tr :
  run Mesh.LoginToComplyAdvantageMesh w = (o, tr) ->
  answered session_acquired w [] tr = true ->
  answered page_obtained w [] tr = false ->
  exists pre a, tr = pre ++ [a] /\ lookup_gave_nothing a (respond w pre a) o.
Proof.
  unfold run, Mesh.LoginToComplyAdvantageMesh.
  cbv [bind try_catch Mesh.validate_inputs Mesh.validateRequiredInputs
       Mesh.acquire_credentials Mesh.fetchIdentityCredentials Mesh.getAnchorClient
       call lift Mesh.getAnchorBrowser Mesh.getConfig].
  destruct (Mesh.ConfigSchema_parse _ _ _ _ _ _ _) as [config|e] eqn:Hc'.
  2:{ simpl. by ends. }
  simpl; rewrite ?Hc'; simpl.
  destruct (negb (truthy (trim (Mesh.identityId config)))); simpl; rewrite ?Hc'; simpl.
  { by ends. }
  destruct (negb (truthy (trim (Mesh.apiKey config)))); simpl; rewrite ?Hc'; simpl.
  { by ends. }
  next_call; simpl; rewrite ?Hc'; simpl; rewrite ?Hc'; simpl.
  2:{ by ends. }
  next_call; simpl; rewrite ?Hc'; simpl; rewrite ?Hc'; simpl.
  2:{ by ends. }
  destruct (Mesh.parseComplyAdvantageCredentials _) as [credentials|e] eqn:Hp; simpl;
    rewrite ?Hc'; simpl.
  2:{ by ends. }
  next_call; simpl; rewrite ?Hc'; simpl; rewrite ?Hc'; simpl.
  2:{ by ends. }
  destruct (truthy (Mesh.sessionId config)); simpl; rewrite ?Hc'; simpl.
  all: next_call; simpl; rewrite ?Hc'; simpl;
    [|ends; simpl; by rewrite ?E2].
  all: next_call; simpl; rewrite ?Hc'; simpl.
  all: try (ends; intros _ _;
            match goal with
            | |- context [[?x; ?y; ?z; ?a; ?c]] =>
                exists [x; y; z; a], c; split; [done|]; simpl; by rewrite E3
            end).
  all: match goal with |- context [head ?l] => destruct l as [|context ?] end; simpl;
    rewrite ?Hc'; simpl.
  all: try (ends; intros _ _;
            match goal with
            | |- context [[?x; ?y; ?z; ?a; ?c]] =>
                exists [x; y; z; a], c; split; [done|]; simpl; by rewrite E3
            end).
  all: next_call; simpl; rewrite ?Hc'; simpl.
  all: try (ends; intros _ _;
            match goal with
            | |- context [[?x; ?y; ?z; ?a; ?c; ?d]] =>
                exists [x; y; z; a; c], d; split; [done|]; simpl; by rewrite E4
            end).
  all: match goal with |- context [head ?l] => destruct l as [|page ?] end; simpl;
    rewrite ?Hc'; simpl.
  all: try (ends; intros _ _;
            match goal with
            | |- context [[?x; ?y; ?z; ?a; ?c; ?d]] =>
                exists [x; y; z; a; c], d; split; [done|]; simpl; by rewrite E4
            end).
  all: match goal with |- context [try_finally ?m ?f ?w0 ?h0] =>
         destruct (try_finally m f w0 h0) as [o' e'] end.
  all: ends; intros _; simpl; by rewrite ?E4.
Qed.

(** C3 (amended): in both selector-driven flows the browser is closed exactly
    once on every exit path of an attempt that obtained a page (success,
    failure result, or an exception inside the steps), and it is not closed at
    all when the attempt ends before a page was obtained.  An attempt that
    acquired a session and obtained no page ends on the lookup of the first
    context or of the first page, without a close: when the list is empty it
    returns the failure result [Failed to get browser context] or [Failed to
    get browser page], and when the lookup itself throws, the exception leaves
    the entry point. *)
Theorem browser_closed_once_after_page_obtained (w : World) :
  (let attempt := run Linkedin.LoginToLinkedin w in
   count is_close attempt.2
   = (if answered page_obtained w [] attempt.2 then 1%nat else 0%nat) /\
   (answered session_acquired w [] attempt.2 = true ->
    answered page_obtained w [] attempt.2 = false ->
    count is_close attempt.2 = 0%nat /\
    exists pre a, attempt.2 = pre ++ [a] /\
                  lookup_gave_nothing a (respond w pre a) attempt.1))
  /\
  (let attempt := run Mesh.LoginToComplyAdvantageMesh w in
   count is_close attempt.2
   = (if answered page_obtained w [] attempt.2 then 1%nat else 0%nat) /\
   (answered session_acquired w [] attempt.2 = true ->
    answered page_obtained w [] attempt.2 = false ->
    count is_close attempt.2 = 0%nat /\
    exists pre a, attempt.2 = pre ++ [a] /\
                  lookup_gave_nothing a (respond w pre a) attempt.1)).
Proof.
  assert (Hl : forall o tr, run Linkedin.LoginToLinkedin w = (o, tr) ->
             count is_close tr
             = if answered page_obtained w [] tr then 1%nat else 0%nat).
  { intros o tr Hrun.
    destruct (Linkedin_attempt _ _ _ Hrun)
      as [Hs Hp _|config response credentials browser page pro e _ _ _ Hs Hp _ Ht ->].
    - rewrite Hp. apply count_setup; [|done]. by intros [].
    - rewrite answered_app, Hp. simpl.
      rewrite count_app, (count_setup is_close pro); [|by intros []|done].
      eapply guarded_closes_once; [|exact Ht]. apply Linkedin_body_no_close. }
  assert (Hm : forall o tr, run Mesh.LoginToComplyAdvantageMesh w = (o, tr) ->
             count is_close tr
             = if answered page_obtained w [] tr then 1%nat else 0%nat).
  { intros o tr Hrun.
    destruct (Mesh_attempt _ _ _ Hrun)
      as [Hs Hp _|config response credentials browser context page pro e _ _ _ Hs Hp _ Ht ->].
    - rewrite Hp. apply count_setup; [|done]. by intros [].
    - rewrite answered_app, Hp. simpl.
      rewrite count_app, (count_setup is_close pro); [|by intros []|done].
      eapply guarded_closes_once; [|exact Ht]. apply Mesh_body_no_close. }
  split; cbv zeta.
  - destruct (run Linkedin.LoginToLinkedin w) as [o tr] eqn:Hrun. cbn [fst snd].
    specialize (Hl o tr eq_refl).
    split; [done|]. intros Hs Hp. split.
    + by rewrite Hl, Hp.
    + by apply Linkedin_without_page.
  - destruct (run Mesh.LoginToComplyAdvantageMesh w) as [o tr] eqn:Hrun. cbn [fst snd].
    specialize (Hm o tr eq_refl).
    split; [done|]. intros Hs Hp. split.
    + by rewrite Hm, Hp.
    + by apply Mesh_without_page.
Qed.

(** The provisioner hands out a browser without a context: the attempt
    returns the failure result and the browser stays open. *)
Lemma browser_closed_once_after_page_obtained_witness :
  count is_close (run Linkedin.LoginToLinkedin world_no_context).2 = 0%nat /\
  exists pre a,
    (run Linkedin.LoginToLinkedin world_no_context).2 = pre ++ [a] /\
    lookup_gave_nothing a (respond world_no_context pre a)
      (run Linkedin.LoginToLinkedin world_no_context).1.
Proof.
  apply (proj2 (proj1 (browser_closed_once_after_page_obtained world_no_context)));
    reflexivity.
Defined.

(** C3 as stated fails: the provisioner hands out a browser without a
    context; the session was acquired, the flow returns a failure result, and
    the browser is never closed. *)
Lemma browser_not_closed_without_context :
  let attempt := run Linkedin.LoginToLinkedin world_no_context in
  answered session_acquired world_no_context [] attempt.2 = true /\
  attempt.1 = Returned {| success := false; message := "Failed to get browser context" |} /\
  count is_close attempt.2 = 0%nat.
Proof. vm_compute. repeat split; reflexivity. Qed.

(** ** Credential extraction (C4) *)

Lemma truthy_nonempty s : truthy s = true <-> nonempty s.
Proof.
  unfold truthy, nonempty. destruct (String.eqb_spec s ""); simpl; split; congruence.
Qed.

Lemma truthy_false s : truthy s = false <-> s = "".
Proof.
  unfold truthy. destruct (String.eqb_spec s ""); simpl; split; congruence.
Qed.

Lemma Linkedin_parse_fold creds u0 p0 o0 :
  foldl Linkedin.parse_step (u0, p0, o0) creds
  = (default (u0, p0) (last_username_password creds), default o0 (last_otp creds)).
Proof.
  revert u0 p0 o0. induction creds as [|cred creds IH]; intros u0 p0 o0; [done|].
  simpl. destruct cred as [u p|o|fields]; simpl; rewrite IH;
    destruct (last_username_password creds) as [[]|], (last_otp creds); done.
Qed.

Lemma Mesh_parse_fold creds g0 u0 p0 :
  foldl Mesh.parse_step (g0, u0, p0) creds
  = (default g0 (last_organization creds),
     (default (u0, p0) (last_username_password creds)).1,
     (default (u0, p0) (last_username_password creds)).2).
Proof.
  revert g0 u0 p0. induction creds as [|cred creds IH]; intros g0 u0 p0; [done|].
  simpl. destruct cred as [u p|o|fields]; simpl.
  - rewrite IH.
    destruct (last_username_password creds) as [[]|], (last_organization creds); done.
  - rewrite IH.
    destruct (last_username_password creds) as [[]|], (last_organization creds); done.
  - destruct (List.find Mesh.is_org_field fields) as [f|]; simpl; rewrite IH;
      destruct (last_username_password creds) as [[]|], (last_organization creds); done.
Qed.

(** What extraction makes of a bundle, for each flow. *)
Lemma Linkedin_parse_spec creds :
  let '(u, p) := default ("", "") (last_username_password creds) in
  Linkedin.parseLinkedinCredentials creds
  = if (truthy u && truthy p)%bool
    then Returned {| Linkedin.username := u; Linkedin.password := p;
                     Linkedin.otp := default "" (last_otp creds) |}
    else Thrown (Error (Linkedin.missing_message u p)).
Proof.
  unfold Linkedin.parseLinkedinCredentials. rewrite Linkedin_parse_fold.
  destruct (default _ _) as [u p]. by destruct (truthy u), (truthy p).
Qed.

Lemma Mesh_parse_spec creds :
  let g := default "" (last_organization creds) in
  let '(u, p) := default ("", "") (last_username_password creds) in
  Mesh.parseComplyAdvantageCredentials creds
  = if (truthy g && truthy u && truthy p)%bool
    then Returned {| Mesh.organization := g; Mesh.username := u; Mesh.password := p |}
    else Thrown (Error (Mesh.missing_message g u p)).
Proof.
  unfold Mesh.parseComplyAdvantageCredentials. rewrite Mesh_parse_fold.
  destruct (default ("", "") _) as [u p]; simpl.
  by destruct (truthy _), (truthy u), (truthy p).
Qed.

(** C4 (amended): extraction for the LinkedIn flow succeeds exactly when the
    username and the password of the last [username_password] record are
    non-empty; extraction for the Mesh flow needs a non-empty organization as
    well.  A failed extraction throws an error whose message tells for each
    required field whether it was found.  When the extraction of the fetched
    bundle fails, neither flow issues any call to the session provisioner or
    the page driver, and the Mesh flow returns a failure result carrying that
    message. *)
Theorem extraction_requires_fields :
  (forall creds,
     let '(u, p) := default ("", "") (last_username_password creds) in
     ((exists c, Linkedin.parseLinkedinCredentials creds = Returned c)
        <-> nonempty u /\ nonempty p) /\
     (forall e, Linkedin.parseLinkedinCredentials creds = Thrown e ->
        e = Error ("Missing required credentials. Found: username="
                   +:+ show_bool (bool_decide (nonempty u))
                   +:+ ", password=" +:+ show_bool (bool_decide (nonempty p)))))
  /\
  (forall creds,
     let g := default "" (last_organization creds) in
     let '(u, p) := default ("", "") (last_username_password creds) in
     ((exists c, Mesh.parseComplyAdvantageCredentials creds = Returned c)
        <-> nonempty g /\ nonempty u /\ nonempty p) /\
     (forall e, Mesh.parseComplyAdvantageCredentials creds = Thrown e ->
        e = Error ("Missing required credentials. Found: organization="
                   +:+ show_bool (bool_decide (nonempty g))
                   +:+ ", username=" +:+ show_bool (bool_decide (nonempty u))
                   +:+ ", password=" +:+ show_bool (bool_decide (nonempty p)))))
  /\
  (forall w config response e,
     Linkedin.getConfig w [] = (Returned config, []) ->
     respond w [] NewAnchorBrowser = Returned tt ->
     respond w [NewAnchorBrowser] (RetrieveCredentials (Linkedin.identityId config))
       = Returned response ->
     Linkedin.parseLinkedinCredentials (Identity.credentials response) = Thrown e ->
     (run Linkedin.LoginToLinkedin w).2
       = [NewAnchorBrowser; RetrieveCredentials (Linkedin.identityId config)] /\
     count is_browser_call (run Linkedin.LoginToLinkedin w).2 = 0%nat)
  /\
  (forall w config response e,
     Mesh.getConfig w [] = (Returned config, []) ->
     nonempty (trim (Mesh.identityId config)) ->
     nonempty (trim (Mesh.apiKey config)) ->
     respond w [] NewAnchorBrowser = Returned tt ->
     respond w [NewAnchorBrowser] (RetrieveCredentials (Mesh.identityId config))
       = Returned response ->
     Mesh.parseComplyAdvantageCredentials (Identity.credentials response) = Thrown e ->
     run Mesh.LoginToComplyAdvantageMesh w
       = (Returned {| success := false; message := errorMessage e |},
          [NewAnchorBrowser; RetrieveCredentials (Mesh.identityId config)]) /\
     count is_browser_call (run Mesh.LoginToComplyAdvantageMesh w).2 = 0%nat).
Proof.
  assert (Hshow : forall s, show_bool (truthy s) = show_bool (bool_decide (nonempty s))).
  { intros s. destruct (truthy s) eqn:E.
    - apply truthy_nonempty in E. by rewrite bool_decide_true.
    - apply truthy_false in E. rewrite bool_decide_false; [done|]. by intros []. }
  split; [|split; [|split]].
  - intros creds. pose proof (Linkedin_parse_spec creds) as Hs.
    destruct (default ("", "") (last_username_password creds)) as [u p].
    rewrite Hs, <- !truthy_nonempty. unfold Linkedin.missing_message.
    rewrite <- !Hshow.
    destruct (truthy u), (truthy p); simpl; (split; [split|]);
      try (intros [c Hc]; discriminate); try (intros []; discriminate);
      try (intros _; eauto); try (intros e [= <-]; done); try (intros; discriminate).
  - intros creds g. pose proof (Mesh_parse_spec creds) as Hs. fold g in Hs.
    destruct (default ("", "") (last_username_password creds)) as [u p].
    rewrite Hs, <- !truthy_nonempty. unfold Mesh.missing_message.
    rewrite <- !Hshow.
    destruct (truthy g), (truthy u), (truthy p); simpl; (split; [split|]);
      try (intros [c Hc]; discriminate); try (intros (? & ? & ?); discriminate);
      try (intros _; eauto); try (intros e [= <-]; done); try (intros; discriminate).
  - intros w config response e Hc H1 H2 Hp.
    assert (Htr : (run Linkedin.LoginToLinkedin w).2
                  = [NewAnchorBrowser; RetrieveCredentials (Linkedin.identityId config)]);
      [|by rewrite Htr].
    unfold run, Linkedin.LoginToLinkedin.
    cbv [bind Linkedin.fetchIdentityCredentials Linkedin.getAnchorClient call lift].
    rewrite Hc. simpl. rewrite H1. simpl. rewrite H2. simpl. by rewrite Hp.
  - intros w config response e Hc Hi Hk H1 H2 Hp.
    assert (Hrun : run Mesh.LoginToComplyAdvantageMesh w
                   = (Returned {| success := false; message := errorMessage e |},
                      [NewAnchorBrowser; RetrieveCredentials (Mesh.identityId config)]));
      [|by rewrite Hrun].
    apply truthy_nonempty in Hi, Hk.
    assert (Hc' := Hc). unfold Mesh.getConfig in Hc'. injection Hc' as Hc'.
    unfold run, Mesh.LoginToComplyAdvantageMesh.
    cbv [bind try_catch Mesh.validate_inputs Mesh.validateRequiredInputs
         Mesh.acquire_credentials Mesh.fetchIdentityCredentials Mesh.getAnchorClient
         call lift Mesh.getConfig].
    rewrite ?Hc'. simpl. rewrite Hi, Hk. simpl. rewrite ?Hc'. simpl.
    rewrite H1. simpl. rewrite H2. simpl. rewrite Hp. simpl.
    assert (He : exists m, e = Error m /\ truthy m = true).
    { pose proof (Mesh_parse_spec (Identity.credentials response)) as Hs. simpl in Hs.
      destruct (default ("", "") _) as [u p]. rewrite Hp in Hs.
      destruct (_ && _)%bool; [done|]. injection Hs as ->. eexists; split; [done|].
      unfold Mesh.missing_message. by destruct (show_bool _). }
    destruct He as (m & -> & Hm). simpl. unfold or_else. by rewrite Hm.
Qed.

Lemma extraction_requires_fields_witness :
  ((run Linkedin.LoginToLinkedin world_no_password).2
     = [NewAnchorBrowser; RetrieveCredentials "identity-1"] /\
   count is_browser_call (run Linkedin.LoginToLinkedin world_no_password).2 = 0%nat)
  /\
  (run Mesh.LoginToComplyAdvantageMesh world_no_password
     = (Returned {| success := false;
                    message := "Missing required credentials. Found: organization=false, username=false, password=false" |},
        [NewAnchorBrowser; RetrieveCredentials "identity-1"]) /\
   count is_browser_call (run Mesh.LoginToComplyAdvantageMesh world_no_password).2 = 0%nat).
Proof.
  destruct extraction_requires_fields as (_ & _ & HL & HM). split.
  - apply (HL world_no_password linkedin_config bundle_no_password
              (Error (Linkedin.missing_message "" ""))); reflexivity.
  - apply (HM world_no_password mesh_config bundle_no_password
              (Error (Mesh.missing_message "" "" ""))); try reflexivity; discriminate.
Defined.

(** C4 as stated fails for the Mesh flow: a bundle whose username and
    password are present is refused, because no organization is found. *)
Lemma mesh_extraction_needs_organization :
  let creds := [username_password "u" "p"] in
  last_username_password creds = Some ("u", "p") /\
  Mesh.parseComplyAdvantageCredentials creds
    = Thrown (Error "Missing required credentials. Found: organization=false, username=true, password=true").
Proof. split; reflexivity. Qed.

(** ** The boundary of the entry points (C1) *)

(** C1, at the failing input: with [ANCHOR_IDENTITY_ID] unset the LinkedIn
    entry point completes with the schema error instead of a result; the
    configuration is resolved outside every [try] block. *)
Theorem linkedin_throws_on_missing_identity :
  run Linkedin.LoginToLinkedin world_no_identity = (Thrown (ZodError ["Required"]), []).
Proof. reflexivity. Qed.

(** The two sibling entry points turn the same input into a failure result. *)
Lemma mesh_reports_missing_identity :
  exists msg, run Mesh.LoginToComplyAdvantageMesh world_no_identity
              = (Returned {| success := false; message := msg |}, []).
Proof. eexists. reflexivity. Qed.

Lemma Total_try_catch {A} (m : M A) handler :
  (forall e, Total (handler e)) -> Total (try_catch m handler).
Proof.
  intros H w h. unfold try_catch. destruct (m w h) as [[a|e] e1]; simpl; [eauto|].
  destruct (H e w (h ++ e1)) as [a Ha]. destruct (handler e w (h ++ e1)). eauto.
Qed.

(** The agent flow never throws: its whole body is inside the [try]. *)
Lemma agent_never_throws : Total Agent.loginWithAgent.
Proof. apply Total_try_catch. intros e w h. eexists. reflexivity. Qed.

(** Inside the guarded part of both selector-driven flows every error of a
    step becomes a failure result. *)
Lemma linkedin_steps_never_throw page config credentials :
  Total (try_catch (Linkedin.login_flow page config credentials) Linkedin.login_failed).
Proof. apply Total_try_catch. intros e w h. eexists. reflexivity. Qed.

Lemma mesh_steps_never_throw page context credentials :
  Total (try_catch (Mesh.login_flow page context credentials) Mesh.login_failed).
Proof. apply Total_try_catch. intros e w h. eexists. reflexivity. Qed.

Lemma guarded_throws_only_on_close {A} (body : M A) browser w h o e err :
  Total body ->
  try_finally body (call (Close browser)) w h = (o, e) -> o = Thrown err ->
  answered close_failed w h e = true.
Proof.
  intros Hb Ht ->. apply try_finally_close in Ht as (o' & e' & Hm & -> & Ho).
  destruct (Hb w h) as [a Ha]. rewrite Hm in Ha. simpl in Ha. subst o'.
  rewrite answered_app. simpl.
  destruct (respond w (h ++ e') (Close browser)); [done|]. simpl. by rewrite orb_true_r.
Qed.

(** Once a page was obtained, the only error that leaves the selector-driven
    entry points is an error of closing the browser. *)
Lemma linkedin_throws_only_outside_the_steps w err :
  (run Linkedin.LoginToLinkedin w).1 = Thrown err ->
  answered page_obtained w [] (run Linkedin.LoginToLinkedin w).2 = false \/
  answered close_failed w [] (run Linkedin.LoginToLinkedin w).2 = true.
Proof.
  destruct (run Linkedin.LoginToLinkedin w) as [o tr] eqn:Hrun; simpl. intros ->.
  destruct (Linkedin_attempt _ _ _ Hrun)
    as [_ Hp _|config response credentials browser page pro e _ _ _ _ _ _ Ht ->].
  { by left. }
  right. rewrite answered_app. simpl.
  rewrite (guarded_throws_only_on_close _ _ _ _ _ _ err
             (linkedin_steps_never_throw page config credentials) Ht eq_refl).
  by rewrite orb_true_r.
Qed.

Lemma mesh_throws_only_outside_the_steps w err :
  (run Mesh.LoginToComplyAdvantageMesh w).1 = Thrown err ->
  answered page_obtained w [] (run Mesh.LoginToComplyAdvantageMesh w).2 = false \/
  answered close_failed w [] (run Mesh.LoginToComplyAdvantageMesh w).2 = true.
Proof.
  destruct (run Mesh.LoginToComplyAdvantageMesh w) as [o tr] eqn:Hrun; simpl. intros ->.
  destruct (Mesh_attempt _ _ _ Hrun)
    as [_ Hp _|config response credentials browser context page pro e _ _ _ _ _ _ Ht ->].
  { by left. }
  right. rewrite answered_app. simpl.
  rewrite (guarded_throws_only_on_close _ _ _ _ _ _ err
             (mesh_steps_never_throw page context credentials) Ht eq_refl).
  by rewrite orb_true_r.
Qed.

(** ** At most one submit of each kind (C2) *)

(** The selector a fallback-selector step picks is one of its candidates. *)
Lemma probes_return page sels :
  Returns (Promise_all (map (probe page) sels))
          (fun results => forall s, find_non_null results = Some s -> s ∈ sels).
Proof.
  intros w h results. rewrite probes_run. intros [= <-] s.
  rewrite find_non_null_visible. intros Hs.
  apply (visible_candidates_sub w h page). destruct (visible_candidates _ _ _ _); [done|].
  injection Hs as ->. by left.
Qed.

Lemma Returns_bind {A B} (m : M A) (f : A -> M B) (Q : A -> Prop) (R : B -> Prop) :
  Returns m Q -> (forall a, Q a -> Returns (f a) R) -> Returns (bind m f) R.
Proof.
  intros Hm Hf w h b. unfold bind. specialize (Hm w h).
  destruct (m w h) as [[a|e] e1]; simpl in *; [|done].
  specialize (Hf a (Hm a eq_refl) w (h ++ e1)).
  destruct (f a w (h ++ e1)) as [o e2]; simpl in *. apply Hf.
Qed.

Lemma locate_digit_inputs_returns page :
  Returns (Linkedin.locate_digit_inputs page) (located_by page).
Proof.
  intros w h r. unfold Linkedin.locate_digit_inputs, bind, catch_default, try_catch, call, ret.
  destruct (respond w h _) as [n|e]; [destruct (6 <=? n)%nat|]; simpl;
    intros [= <-]; done.
Qed.

Lemma locateOtpInputs_returns page :
  Returns (Linkedin.locateOtpInputs page) (located_by page).
Proof.
  unfold Linkedin.locateOtpInputs. eapply Returns_bind; [apply probes_return|].
  intros results Hr. simpl in Hr.
  destruct (find_non_null results) as [s|]; [|apply locate_digit_inputs_returns].
  destruct (truthy s); [|apply locate_digit_inputs_returns].
  intros w h r [= <-]. exists s. split; [by apply Hr|done].
Qed.

Ltac candidates H :=
  repeat (apply elem_of_cons in H as [->|H]); [..|by apply elem_of_nil in H].

(** The click of the fallback goes to one of the generic controls. *)
Lemma clickCommonSubmit_clicks_a_control page :
  Bound stray_click 0 (Linkedin.clickCommonSubmit page).
Proof.
  unfold Linkedin.clickCommonSubmit.
  eapply (Bound_bind_returns _ 0 0); [bound|apply probes_return|].
  intros results Hr. simpl in Hr.
  destruct (find_non_null results) as [s|] eqn:Hs; [|bound].
  specialize (Hr s eq_refl). destruct (truthy s); [|bound].
  candidates Hr; bound.
Qed.

#[global] Hint Resolve clickCommonSubmit_clicks_a_control : bound_db.

(** The key-press of the OTP step goes to the located OTP input. *)
Lemma submitOtpCode_no_password_submit page otp step timeoutMs :
  Bound is_password_submit 0 (Linkedin.submitOtpCode page otp step timeoutMs).
Proof.
  unfold Linkedin.submitOtpCode.
  eapply (Bound_bind_returns _ 0 0); [bound|apply locateOtpInputs_returns|].
  intros [[l|l]|] Hl; simpl in Hl; [destruct Hl as (s & Hs & ->)|subst l|]; bound.
Qed.

Lemma submitOtpCode_no_stray_submit page otp step timeoutMs :
  Bound stray_submit 0 (Linkedin.submitOtpCode page otp step timeoutMs).
Proof.
  unfold Linkedin.submitOtpCode.
  eapply (Bound_bind_returns _ 0 0); [bound|apply locateOtpInputs_returns|].
  intros [[l|l]|] Hl; simpl in Hl; [destruct Hl as (s & Hs & ->)|subst l|]; [|bound..].
  candidates Hs; bound.
Qed.

#[global] Hint Resolve submitOtpCode_no_password_submit submitOtpCode_no_stray_submit
  : bound_db.

Lemma submit_control_is_another_control l :
  submit_control l = true ->
  otp_field l = false /\ on_selector Linkedin.password_selector l = false.
Proof.
  destruct l as [p s|l s|[p s|l s|l|l i]|l i]; try discriminate.
  intros H. change (existsb (String.eqb s) Linkedin.submitSelectors = true) in H.
  split; [|done]. apply existsb_exists in H as (c & Hc & Hs).
  apply String.eqb_eq in Hs as ->. apply list_elem_of_In in Hc.
  candidates Hc; reflexivity.
Qed.

(** C2: in every attempt of the LinkedIn flow the [Enter] key-press on the
    password field is issued at most once and the [Enter] key-press on an OTP
    input at most once; no other [Enter] key-press is ever issued; at most one
    click is issued, and a click only goes to one of the generic
    submit/verify/continue controls, which is neither the password field nor
    an OTP input. *)
Theorem at_most_one_submit_of_each_kind (w : World) :
  let tr := (run Linkedin.LoginToLinkedin w).2 in
  (count is_password_submit tr <= 1)%nat /\
  (count is_otp_submit tr <= 1)%nat /\
  count stray_submit tr = 0%nat /\
  (count is_click tr <= 1)%nat /\
  count stray_click tr = 0%nat /\
  (forall l, submit_control l = true ->
             otp_field l = false /\ on_selector Linkedin.password_selector l = false).
Proof.
  simpl. unfold run.
  assert (H1 : Bound is_password_submit 1 Linkedin.LoginToLinkedin) by bound.
  assert (H2 : Bound is_otp_submit 1 Linkedin.LoginToLinkedin) by bound.
  assert (H3 : Bound stray_submit 0 Linkedin.LoginToLinkedin) by bound.
  assert (H4 : Bound is_click 1 Linkedin.LoginToLinkedin) by bound.
  assert (H5 : Bound stray_click 0 Linkedin.LoginToLinkedin) by bound.
  specialize (H1 w []). specialize (H2 w []). specialize (H3 w []).
  specialize (H4 w []). specialize (H5 w []).
  refine (conj _ (conj _ (conj _ (conj _ (conj _ submit_control_is_another_control)))));
    lia.
Qed.

Lemma at_most_one_submit_of_each_kind_witness :
  let tr := (run Linkedin.LoginToLinkedin world_stuck_on_login).2 in
  let control := first (locator 2%nat (default "" (Linkedin.submitSelectors !! 3%nat))) in
  (count is_password_submit tr <= 1)%nat /\
  (count is_otp_submit tr <= 1)%nat /\
  count stray_submit tr = 0%nat /\
  (count is_click tr <= 1)%nat /\
  count stray_click tr = 0%nat /\
  otp_field control = false /\ on_selector Linkedin.password_selector control = false.
Proof.
  destruct (at_most_one_submit_of_each_kind world_stuck_on_login)
    as (H1 & H2 & H3 & H4 & H5 & H6).
  repeat (split; [assumption|]). apply H6. reflexivity.
Defined.

(** ** The pre-login short-circuit (C6) and outcomes without a submit (C5) *)

Lemma prelogin_after_setup w h pro rest :
  Forall (fun a => is_setup_call a = true) pro ->
  prelogin_check_matched w h (pro ++ rest) = prelogin_check_matched w (h ++ pro) rest.
Proof.
  intros H. revert h. induction H as [|a pro Ha _ IH]; intros h; simpl.
  - by rewrite app_nil_r.
  - destruct a; try discriminate; simpl; rewrite IH, <- app_assoc; done.
Qed.

Lemma prelogin_setup_only w h tr :
  Forall (fun a => is_setup_call a = true) tr -> prelogin_check_matched w h tr = false.
Proof.
  intros H. rewrite <- (app_nil_r tr), prelogin_after_setup by done. done.
Qed.

(** The navigation step issues the navigation and, when it fails, one probe. *)
Lemma navigateToHomepage_calls page config w h :
  let a := Goto page (Linkedin.homeUrl config) "load" (Linkedin.timeoutMs config) in
  let b := IsVisible (first (locator page "#login-nav-button")) None in
  (Linkedin.navigateToHomepage page config w h).2 = [a] \/
  (Linkedin.navigateToHomepage page config w h).2 = [a; b].
Proof.
  unfold Linkedin.navigateToHomepage, try_catch, bind, catch_default, try_catch, call.
  simpl. destruct (respond w h _); simpl; [by left|].
  destruct (respond w _ _) as [[|]|]; simpl; by right.
Qed.

(** What the verification step does, completely. *)
Lemma verifyLogin_run page step timeoutMs fallbackTimeout w h :
  let a := WaitForURL page Linkedin.feed_pattern
             (Z.max timeoutMs (default 60000 fallbackTimeout)) in
  Linkedin.verifyLogin page step timeoutMs fallbackTimeout w h
  = match respond w h a with
    | Returned _ => (Returned true, [a])
    | Thrown _ =>
        (match respond w (h ++ [a]) (Url page) with
         | Returned url => Returned (Linkedin.feed_regex_test url)
         | Thrown e => Thrown e
         end, [a; Url page])
    end.
Proof.
  unfold Linkedin.verifyLogin, try_catch, bind, call, ret. simpl.
  destruct (respond w h _); simpl; [done|].
  destruct (respond w _ (Url page)); done.
Qed.

Lemma verifyLogin_prelogin page step timeoutMs fallbackTimeout w h o e rest :
  Linkedin.verifyLogin page step timeoutMs fallbackTimeout w h = (o, e) ->
  prelogin_check_matched w h (e ++ rest)
  = match o with Returned b => b | Thrown _ => false end.
Proof.
  rewrite verifyLogin_run. simpl.
  destruct (respond w h _) eqn:E1.
  - intros [= <- <-]. simpl. by rewrite E1.
  - destruct (respond w _ (Url page)) eqn:E2; intros [= <- <-]; simpl; by rewrite E1, E2.
Qed.

Lemma enterPasswordAndSubmit_submits page password timeoutMs w h e :
  Linkedin.enterPasswordAndSubmit page password timeoutMs w h = (Returned tt, e) ->
  count is_password_submit e = 1%nat.
Proof.
  unfold Linkedin.enterPasswordAndSubmit, Linkedin.waitForVisible, bind, call. simpl.
  repeat (destruct (respond w _ _); simpl; [|discriminate]).
  intros H; inversion H. reflexivity.
Qed.

(** The two ways the [try] block of the LinkedIn flow returns: the pre-login
    check matched and nothing else was done, or the check did not match and the
    login steps ran. *)
Lemma login_flow_cases page config credentials w h o e :
  Linkedin.login_flow page config credentials w h = (o, e) ->
  ((forall rest, prelogin_check_matched w h (e ++ rest) = true) /\
   o = Returned Linkedin.already_authenticated /\
   count touches_credential_fields e = 0%nat /\ count is_submit e = 0%nat)
  \/
  (forall b, prelogin_check_matched w h (e ++ [Close b]) = false) /\
  (forall r, o = Returned r -> success r = true -> (1 <= count is_password_submit e)%nat).
Proof.
  unfold Linkedin.login_flow, bind.
  pose proof (navigateToHomepage_calls page config w h) as Hn.
  destruct (Linkedin.navigateToHomepage page config w h) as [[[]|err] en]; simpl in Hn.
  2:{ intros [= <- <-]. right. split; [|done].
      intros b. destruct Hn as [-> | ->]; done. }
  assert (Hskip : forall rest, prelogin_check_matched w h (en ++ rest)
                               = prelogin_check_matched w (h ++ en) rest).
  { intros rest. destruct Hn as [-> | ->]; simpl; by rewrite <- ?app_assoc. }
  assert (Hen : count touches_credential_fields en = 0%nat /\ count is_submit en = 0%nat).
  { destruct Hn as [-> | ->]; done. }
  destruct (Linkedin.verifyLogin page 2 _ _ w (h ++ en)) as [[b|err] ev] eqn:Hv.
  2:{ intros [= <- <-]. right. split; [|done]. intros b.
      by rewrite <- app_assoc, Hskip, (verifyLogin_prelogin _ _ _ _ _ _ _ _ _ Hv). }
  pose proof (fun rest => verifyLogin_prelogin _ _ _ _ _ _ _ _ rest Hv) as Hpre.
  simpl in Hpre. destruct b.
  - simpl. intros [= <- <-]. left.
    rewrite app_nil_r. split; [intros rest; by rewrite <- app_assoc, Hskip, Hpre|].
    split; [done|].
    assert (Hev : count touches_credential_fields ev = 0%nat /\ count is_submit ev = 0%nat).
    { rewrite verifyLogin_run in Hv. simpl in Hv.
      destruct (respond w (h ++ en) _); [|destruct (respond w _ _)];
        inversion Hv; done. }
    destruct Hen as [Hen1 Hen2], Hev as [Hev1 Hev2].
    rewrite !count_app, Hen1, Hen2, Hev1, Hev2. done.
  - destruct (Linkedin.login_steps _ _ _ _ _) as [o3 e3] eqn:Hs. intros [= <- <-].
    right. split.
    + intros b. by rewrite <- !app_assoc, Hskip, Hpre.
    + intros r -> Hr. rewrite !count_app.
      revert Hs. unfold Linkedin.login_steps. unfold bind at 1.
      destruct (Linkedin.enterUsername _ _ _ _ _) as [[[]|?] eu]; [|discriminate].
      unfold bind at 1.
      destruct (Linkedin.enterPasswordAndSubmit _ _ _ _ _) as [[[]|?] ep] eqn:Hp;
        [|discriminate].
      apply enterPasswordAndSubmit_submits in Hp.
      destruct (bind _ _ w _) as [? er]. intros [= _ <-].
      rewrite !count_app, Hp. lia.
Qed.

Lemma Linkedin_guarded_cases page config credentials browser w h o e :
  try_finally
    (try_catch (Linkedin.login_flow page config credentials) Linkedin.login_failed)
    (call (Close browser)) w h = (o, e) ->
  exists o' e',
    e = e' ++ [Close browser] /\
    o = match respond w (h ++ e') (Close browser) with
        | Returned _ => o'
        | Thrown err => Thrown err
        end /\
    (((forall rest, prelogin_check_matched w h (e' ++ rest) = true) /\
      o' = Returned Linkedin.already_authenticated /\
      count touches_credential_fields e' = 0%nat /\ count is_submit e' = 0%nat)
     \/
     ((forall b, prelogin_check_matched w h (e' ++ [Close b]) = false) /\
      (forall r, o' = Returned r -> success r = true ->
                 (1 <= count is_password_submit e')%nat))).
Proof.
  intros Ht. apply try_finally_close in Ht as (o' & e' & Hm & -> & ->).
  exists o', e'. split; [done|]. split; [done|].
  revert Hm. unfold try_catch.
  destruct (Linkedin.login_flow page config credentials w h) as [[r|err] ef] eqn:Hf;
    apply login_flow_cases in Hf.
  - by intros [= <- <-].
  - simpl. intros [= <- <-]. rewrite app_nil_r. right.
    destruct Hf as [(_ & [=] & _)|[Hf _]]. split; [done|]. by intros r [= <-].
Qed.

Lemma Mesh_enterPassword_submits page password w h e :
  Mesh.enterPassword page password w h = (Returned tt, e) ->
  count is_mesh_password_submit e = 1%nat.
Proof.
  unfold Mesh.enterPassword, Mesh.waitForVisible, bind, call, ret.
  destruct (Mesh.getConfig w h) as [[config|?] ec] eqn:Hc; [|discriminate].
  assert (ec = []) as -> by (by injection Hc). simpl.
  repeat (destruct (respond w _ _); simpl; [|discriminate]).
  intros H; inversion H. reflexivity.
Qed.

Lemma Mesh_login_flow_success page context credentials w h r e :
  Mesh.login_flow page context credentials w h = (Returned r, e) ->
  success r = true -> (1 <= count is_mesh_password_submit e)%nat.
Proof.
  unfold Mesh.login_flow.
  do 7 (unfold bind at 1;
        match goal with |- context [match ?m w ?h' with _ => _ end] =>
          destruct (m w h') as [[?|?] ?]; [|discriminate] end).
  unfold bind at 1.
  destruct (Mesh.enterPassword _ _ _ _) as [[[]|?] ep] eqn:Hp; [|discriminate].
  apply Mesh_enterPassword_submits in Hp.
  destruct (bind _ _ w _) as [? er]. intros [= _ <-] _.
  rewrite !count_app, Hp. lia.
Qed.

(** A successful result of the Mesh flow comes after the password submit. *)
Lemma Mesh_success_submits w r :
  (run Mesh.LoginToComplyAdvantageMesh w).1 = Returned r -> success r = true ->
  (1 <= count is_mesh_password_submit (run Mesh.LoginToComplyAdvantageMesh w).2)%nat.
Proof.
  destruct (run Mesh.LoginToComplyAdvantageMesh w) as [o tr] eqn:Hrun; simpl.
  intros -> Hr.
  destruct (Mesh_attempt _ _ _ Hrun)
    as [_ _ Hf|config response credentials browser context page pro e _ _ _ Hs _ _ Ht ->].
  { specialize (Hf r eq_refl). congruence. }
  apply try_finally_close in Ht as (o' & e' & Hm & -> & Ho).
  assert (o' = Returned r) as ->.
  { destruct (respond w (pro ++ e') (Close browser)); [done|discriminate]. }
  revert Hm. unfold try_catch.
  destruct (Mesh.login_flow page context credentials w pro) as [[r'|err] ef] eqn:Hf.
  - intros [= -> ->]. apply Mesh_login_flow_success in Hf; [|done].
    rewrite !count_app. lia.
  - simpl. intros [= <- _]. discriminate.
Qed.

(** C6 (amended): whenever the pre-login check of the LinkedIn flow matches,
    the attempt never waits for, fills or submits the username or password
    field and performs no submit action at all; it ends on the release of the
    browser, its outcome being the success result of the short-circuit when
    [browser.close()] returns (and the error of [browser.close()] when it
    throws).  The Mesh flow has no pre-login check and no short-circuit: a
    successful result of the Mesh flow always comes after the password
    submit. *)
Theorem prelogin_match_short_circuits (w : World) :
  (let attempt := run Linkedin.LoginToLinkedin w in
   prelogin_check_matched w [] attempt.2 = true ->
   count touches_credential_fields attempt.2 = 0%nat /\
   count is_submit attempt.2 = 0%nat /\
   exists pre browser,
     attempt.2 = pre ++ [Close browser] /\
     attempt.1 = match respond w pre (Close browser) with
                 | Returned _ => Returned Linkedin.already_authenticated
                 | Thrown err => Thrown err
                 end)
  /\
  (let attempt := run Mesh.LoginToComplyAdvantageMesh w in
   forall r, attempt.1 = Returned r -> success r = true ->
             (1 <= count is_mesh_password_submit attempt.2)%nat).
Proof.
  split; cbv zeta; [|apply Mesh_success_submits].
  destruct (run Linkedin.LoginToLinkedin w) as [o tr] eqn:Hrun; simpl.
  destruct (Linkedin_attempt _ _ _ Hrun)
    as [Hs _ _|config response credentials browser page pro e _ _ _ Hs _ _ Ht ->].
  { by rewrite prelogin_setup_only. }
  rewrite prelogin_after_setup by done. simpl.
  apply Linkedin_guarded_cases in Ht as (o' & e' & -> & -> & [H|[H _]]).
  2:{ by rewrite H. }
  destruct H as (_ & -> & Ht & Hsub). intros _.
  rewrite !count_app, Ht, Hsub.
  rewrite !(count_setup _ pro) by (done || by intros []).
  split; [done|]. split; [done|].
  exists (pro ++ e'), browser. by rewrite <- app_assoc.
Qed.

(** The page is on the feed after the navigation: the short-circuit.  The
    Mesh flow on a page that is on the dashboard throughout: the password is
    entered and submitted all the same. *)
Lemma prelogin_match_short_circuits_witness :
  (count touches_credential_fields (run Linkedin.LoginToLinkedin world_already_authenticated).2
     = 0%nat /\
   count is_submit (run Linkedin.LoginToLinkedin world_already_authenticated).2 = 0%nat /\
   (run Linkedin.LoginToLinkedin world_already_authenticated).1
     = Returned Linkedin.already_authenticated)
  /\
  (1 <= count is_mesh_password_submit
          (run Mesh.LoginToComplyAdvantageMesh world_mesh_dashboard).2)%nat.
Proof.
  split.
  - destruct (proj1 (prelogin_match_short_circuits world_already_authenticated) eq_refl)
      as (H1 & H2 & pre & browser & H3 & H4).
    split; [exact H1|]. split; [exact H2|].
    rewrite H4. reflexivity.
  - apply (proj2 (prelogin_match_short_circuits world_mesh_dashboard)
             {| success := true;
                message := "Logged in to ComplyAdvantage Mesh as u (org: acme)." |});
      reflexivity.
Defined.

(** C6 as stated fails.  In the LinkedIn flow: the page is on the feed after
    the navigation, the pre-login check matches and no credential field is
    touched, but closing the browser fails and the attempt ends with that
    error instead of a success.  In the Mesh flow: the page is on the
    dashboard throughout, and the password is entered and submitted all the
    same. *)
Lemma prelogin_match_without_success :
  (let attempt := run Linkedin.LoginToLinkedin world_authenticated_close_fails in
   prelogin_check_matched world_authenticated_close_fails [] attempt.2 = true /\
   count touches_credential_fields attempt.2 = 0%nat /\
   attempt.1 = Thrown (Error "Target closed"))
  /\
  (let attempt := run Mesh.LoginToComplyAdvantageMesh world_mesh_dashboard in
   (forall h page, respond world_mesh_dashboard h (Url page)
                   = Returned "https://mesh.complyadvantage.com/dashboard") /\
   Mesh.mesh_regex_test "https://mesh.complyadvantage.com/dashboard" = true /\
   count is_mesh_password_submit attempt.2 = 1%nat).
Proof. split; vm_compute; repeat split; reflexivity. Qed.

(** C5 (amended): a successful result of the LinkedIn flow either is the
    short-circuit result of a matched pre-login check, reached without any
    submit action, or was preceded by the password submit; a successful result
    of the Mesh flow was always preceded by the password submit. *)
Theorem success_without_submit_is_the_short_circuit (w : World) (r : LoginResult) :
  ((run Linkedin.LoginToLinkedin w).1 = Returned r -> success r = true ->
   (r = Linkedin.already_authenticated /\
    prelogin_check_matched w [] (run Linkedin.LoginToLinkedin w).2 = true /\
    count is_submit (run Linkedin.LoginToLinkedin w).2 = 0%nat)
   \/ (1 <= count is_password_submit (run Linkedin.LoginToLinkedin w).2)%nat)
  /\
  ((run Mesh.LoginToComplyAdvantageMesh w).1 = Returned r -> success r = true ->
   (1 <= count is_mesh_password_submit (run Mesh.LoginToComplyAdvantageMesh w).2)%nat).
Proof.
  split.
  - destruct (run Linkedin.LoginToLinkedin w) as [o tr] eqn:Hrun; simpl.
    intros -> Hr.
    destruct (Linkedin_attempt _ _ _ Hrun)
      as [_ _ Hf|config response credentials browser page pro e _ _ _ Hs _ _ Ht ->].
    { specialize (Hf r eq_refl). congruence. }
    apply Linkedin_guarded_cases in Ht as (o' & e' & -> & Ho & H).
    assert (o' = Returned r) as ->.
    { destruct (respond w (pro ++ e') (Close browser)); [done|discriminate]. }
    destruct H as [(Hpre & [= <-] & _ & Hsub)|[_ H]].
    + left. split; [done|]. rewrite prelogin_after_setup by done. simpl.
      split; [apply Hpre|].
      rewrite !count_app, Hsub, (count_setup _ pro); [done|by intros []|done].
    + right. specialize (H r eq_refl Hr). rewrite !count_app. lia.
  - destruct (run Mesh.LoginToComplyAdvantageMesh w) as [o tr] eqn:Hrun; simpl.
    intros -> Hr.
    destruct (Mesh_attempt _ _ _ Hrun)
      as [_ _ Hf|config response credentials browser context page pro e _ _ _ Hs _ _ Ht ->].
    { specialize (Hf r eq_refl). congruence. }
    apply try_finally_close in Ht as (o' & e' & Hm & -> & Ho).
    assert (o' = Returned r) as ->.
    { destruct (respond w (pro ++ e') (Close browser)); [done|discriminate]. }
    revert Hm. unfold try_catch.
    destruct (Mesh.login_flow page context credentials w pro) as [[r'|err] ef] eqn:Hf.
    + intros [= -> ->]. apply Mesh_login_flow_success in Hf; [|done].
      rewrite !count_app. lia.
    + simpl. intros [= <- _]. discriminate.
Qed.

Lemma success_without_submit_is_the_short_circuit_witness :
  ((Linkedin.already_authenticated = Linkedin.already_authenticated /\
    prelogin_check_matched world_already_authenticated []
      (run Linkedin.LoginToLinkedin world_already_authenticated).2 = true /\
    count is_submit (run Linkedin.LoginToLinkedin world_already_authenticated).2 = 0%nat)
   \/ (1 <= count is_password_submit
              (run Linkedin.LoginToLinkedin world_already_authenticated).2)%nat)
  /\
  (1 <= count is_mesh_password_submit
          (run Mesh.LoginToComplyAdvantageMesh world_mesh_dashboard).2)%nat.
Proof.
  split.
  - apply (success_without_submit_is_the_short_circuit
             world_already_authenticated Linkedin.already_authenticated);
      reflexivity.
  - apply (success_without_submit_is_the_short_circuit world_mesh_dashboard
             {| success := true;
                message := "Logged in to ComplyAdvantage Mesh as u (org: acme)." |});
      reflexivity.
Defined.

(** C5 as stated fails: the page is on the feed after the navigation, no
    submit action is performed, and the result is a success. *)
Lemma success_with_no_submit :
  (run Linkedin.LoginToLinkedin world_already_authenticated).1
    = Returned Linkedin.already_authenticated /\
  success Linkedin.already_authenticated = true /\
  count is_submit (run Linkedin.LoginToLinkedin world_already_authenticated).2 = 0%nat.
Proof. vm_compute. repeat split. Qed.

(** ** The terminal verification wait (C8) *)

Lemma verifyMeshLogin_run page config w h :
  Mesh.getConfig w [] = (Returned config, []) ->
  let a := WaitForURL page Mesh.mesh_pattern (Z.max (Mesh.timeoutMs config) 60000) in
  Mesh.verifyMeshLogin page w h
  = match respond w h a with
    | Returned _ => (Returned true, [a])
    | Thrown _ =>
        (match respond w (h ++ [a]) (Url page) with
         | Returned url => Returned (Mesh.mesh_regex_test url)
         | Thrown e => Thrown e
         end, [a; Url page])
    end.
Proof.
  intros Hc. assert (Hc' : Mesh.getConfig w h = (Returned config, [])) by exact Hc.
  unfold Mesh.verifyMeshLogin, try_catch, bind, call, ret. rewrite Hc'. simpl.
  rewrite app_nil_r.
  destruct (respond w h _); simpl; [done|].
  destruct (respond w _ (Url page)); done.
Qed.

Lemma Linkedin_waits_on_the_call_site_floor page config credentials :
  Bound (wait_off_floor (Linkedin.timeoutMs config) 10000) 0
    (try_catch (Linkedin.login_flow page config credentials) Linkedin.login_failed).
Proof. bound. Qed.

(** C8 (amended): the verification step waits for the authenticated-area URL
    with the larger of the configured per-step timeout and a floor; when the
    wait returns the step succeeds without reading the URL, and when the wait
    throws the step reads the current URL exactly once and tests it against
    the same address.  The floor is 60000 ms in the Mesh flow.  In the
    LinkedIn flow the floor is a parameter whose default is 60000 ms, and
    every wait of an attempt, the terminal one included, is issued with the
    floor 10000 ms. *)
Theorem verification_waits_with_a_floor :
  (forall page config w h,
     Mesh.getConfig w [] = (Returned config, []) ->
     let timeout := Z.max (Mesh.timeoutMs config) 60000 in
     let a := WaitForURL page Mesh.mesh_pattern timeout in
     60000 <= timeout /\ Mesh.timeoutMs config <= timeout /\
     Mesh.verifyMeshLogin page w h
     = match respond w h a with
       | Returned _ => (Returned true, [a])
       | Thrown _ =>
           (match respond w (h ++ [a]) (Url page) with
            | Returned url => Returned (Mesh.mesh_regex_test url)
            | Thrown e => Thrown e
            end, [a; Url page])
       end)
  /\
  (forall page step timeoutMs fallbackTimeout w h,
     let floor := default 60000 fallbackTimeout in
     let timeout := Z.max timeoutMs floor in
     let a := WaitForURL page Linkedin.feed_pattern timeout in
     floor <= timeout /\ timeoutMs <= timeout /\
     Linkedin.verifyLogin page step timeoutMs fallbackTimeout w h
     = match respond w h a with
       | Returned _ => (Returned true, [a])
       | Thrown _ =>
           (match respond w (h ++ [a]) (Url page) with
            | Returned url => Returned (Linkedin.feed_regex_test url)
            | Thrown e => Thrown e
            end, [a; Url page])
       end)
  /\
  (forall w config,
     Linkedin.getConfig w [] = (Returned config, []) ->
     count (wait_off_floor (Linkedin.timeoutMs config) 10000)
           (run Linkedin.LoginToLinkedin w).2 = 0%nat).
Proof.
  split; [|split].
  - intros page config w h Hc timeout a. split; [lia|]. split; [lia|].
    by apply verifyMeshLogin_run.
  - intros page step timeoutMs fallbackTimeout w h floor timeout a.
    split; [lia|]. split; [lia|]. apply verifyLogin_run.
  - intros w config Hc.
    destruct (run Linkedin.LoginToLinkedin w) as [o tr] eqn:Hrun; simpl.
    destruct (Linkedin_attempt _ _ _ Hrun)
      as [Hs _ _|config' response credentials browser page pro e Hc' _ _ Hs _ _ Ht ->].
    { apply count_setup; [|done]. by intros []. }
    assert (config' = config) as -> by congruence.
    rewrite count_app, (count_setup _ pro); [|by intros []|done].
    apply try_finally_close in Ht as (o' & e' & Hm & -> & _).
    pose proof (Linkedin_waits_on_the_call_site_floor page config credentials w pro) as Hb.
    rewrite Hm in Hb. simpl in Hb. rewrite count_app. unfold count at 2. simpl. lia.
Qed.

Lemma verification_waits_with_a_floor_witness :
  (60000 <= Z.max 10000 60000 /\ 10000 <= Z.max 10000 60000 /\
   Mesh.verifyMeshLogin 2%nat world_mesh_dashboard []
   = (Returned true,
      [WaitForURL 2%nat Mesh.mesh_pattern (Z.max 10000 60000); Url 2%nat]))
  /\
  count (wait_off_floor 10000 10000) (run Linkedin.LoginToLinkedin world_stuck_on_login).2
    = 0%nat.
Proof.
  destruct verification_waits_with_a_floor as (HM & _ & HL). split.
  - apply (HM 2%nat mesh_config world_mesh_dashboard []). reflexivity.
  - apply (HL world_stuck_on_login linkedin_config). reflexivity.
Defined.

(** C8 as stated fails: with the default per-step timeout the terminal
    verification of the LinkedIn flow waits 10 seconds, not 60. *)
Lemma linkedin_terminal_wait_is_ten_seconds :
  let tr := (run Linkedin.LoginToLinkedin world_stuck_on_login).2 in
  List.last (List.filter is_url_wait tr) NewAnchorBrowser
    = WaitForURL 2%nat Linkedin.feed_pattern 10000 /\
  (10000 <? 60000) = true.
Proof. vm_compute. split; reflexivity. Qed.

(** ** The second-factor step (C7) *)

Lemma truthy_candidate sel sels :
  sel ∈ sels -> Forall (fun s => truthy s = true) sels -> truthy sel = true.
Proof. intros Hin Hall. by eapply Forall_forall in Hall. Qed.

Lemma submitSelectors_truthy : Forall (fun s => truthy s = true) Linkedin.submitSelectors.
Proof. repeat constructor. Qed.

Lemma singleSelectors_truthy : Forall (fun s => truthy s = true) Linkedin.singleSelectors.
Proof. repeat constructor. Qed.

Lemma head_visible_candidate w h page sels sel :
  head (visible_candidates w h page sels) = Some sel -> sel ∈ sels.
Proof.
  intros H. apply (visible_candidates_sub w h page).
  destruct (visible_candidates w h page sels); [done|]. injection H as ->. by left.
Qed.

(** Routing of the second-factor step: the first visible combined-code field
    wins; otherwise six or more single-digit fields; otherwise nothing. *)
Lemma locateOtpInputs_run page w h :
  let probes := probe_calls page Linkedin.singleSelectors in
  let digitInputs := locator page Linkedin.digit_selector in
  Linkedin.locateOtpInputs page w h
  = match head (visible_candidates w h page Linkedin.singleSelectors) with
    | Some sel => (Returned (Some (Linkedin.single (first (locator page sel)))), probes)
    | None =>
        (Returned (if (6 <=? digit_count w (h ++ probes) page)%nat
                   then Some (Linkedin.multi digitInputs) else None),
         probes ++ [Count digitInputs])
    end.
Proof.
  simpl. unfold Linkedin.locateOtpInputs. unfold bind at 1. rewrite probes_run.
  rewrite find_non_null_visible.
  assert (Hd : Linkedin.locate_digit_inputs page w
                 (h ++ probe_calls page Linkedin.singleSelectors)
               = (Returned (if (6 <=? digit_count w
                                        (h ++ probe_calls page Linkedin.singleSelectors) page)%nat
                            then Some (Linkedin.multi (locator page Linkedin.digit_selector))
                            else None),
                  [Count (locator page Linkedin.digit_selector)])).
  { unfold Linkedin.locate_digit_inputs, digit_count, bind, catch_default, try_catch, call, ret.
    destruct (respond w _ _) as [n|e]; [destruct (6 <=? n)%nat|]; reflexivity. }
  destruct (head _) as [sel|] eqn:Hs.
  - apply head_visible_candidate in Hs.
    rewrite (truthy_candidate _ _ Hs singleSelectors_truthy). unfold ret. by rewrite app_nil_r.
  - by rewrite Hd.
Qed.

Lemma script_then_cons {A} a script (k : M A) w h :
  script_then (a :: script) k w h
  = match respond w h a with
    | Returned _ =>
        let '(o, e) := script_then script k w (h ++ [a]) in (o, a :: e)
    | Thrown err => (Thrown err, [a])
    end.
Proof.
  unfold script_then. simpl. destruct (respond w h a); [|done].
  destruct (run_script script w (h ++ [a])) as [[err|] e]; [done|].
  rewrite <- app_assoc. simpl. by destruct (k w _).
Qed.

Lemma script_then_nil {A} (k : M A) w h : script_then [] k w h = k w h.
Proof.
  unfold script_then. simpl. rewrite app_nil_r. by destruct (k w h).
Qed.

Lemma bind_assoc {A B C} (m : M A) (f : A -> M B) (g : B -> M C) w h :
  bind (bind m f) g w h = bind m (fun x => bind (f x) g) w h.
Proof.
  unfold bind. destruct (m w h) as [[a|e] e1]; [|done].
  destruct (f a w (h ++ e1)) as [[b|e] e2]; [|done].
  rewrite <- app_assoc. destruct (g b w (h ++ e1 ++ e2)) as [o e3].
  by rewrite <- app_assoc.
Qed.

Lemma bind_call {A} a (m : M A) w h :
  bind (call a) (fun _ => m) w h
  = match respond w h a with
    | Returned _ => let '(o, e) := m w (h ++ [a]) in (o, a :: e)
    | Thrown err => (Thrown err, [a])
    end.
Proof. unfold bind, call. by destruct (respond w h a). Qed.

(** The digit loop is its script: fields in index order, each cleared and then
    typed into, stopping at the first failure. *)
Lemma fill_loop_run {A} inputs arr from n (k : M A) w h :
  (for_each (seq from n) (Linkedin.fill_digit inputs arr) ;; k) w h
  = script_then (digit_script inputs arr from n) k w h.
Proof.
  revert from h. induction n as [|n IH]; intros from h.
  - simpl. rewrite script_then_nil. unfold bind, ret. simpl. rewrite app_nil_r.
    by destruct (k w h).
  - simpl. rewrite !script_then_cons, bind_assoc.
    unfold Linkedin.fill_digit at 1. rewrite bind_assoc. cbv beta.
    rewrite (bind_call (Fill _ _)).
    destruct (respond w h _); [|done].
    cbv beta. rewrite (bind_call (TypeText _ _)).
    destruct (respond w _ _); [|done].
    by rewrite IH.
Qed.

Lemma split_chars_length s : length (split_chars s) = String.length s.
Proof. induction s as [|c s IH]; [done|]. simpl. by rewrite IH. Qed.

(** The element of index [i] of [otp.split('')] is the character of index [i]
    of [otp]. *)
Lemma split_chars_lookup s i : default "" (split_chars s !! i) = character s i.
Proof.
  unfold character. revert i. induction s as [|c s IH]; intros [|i]; simpl; done.
Qed.

Lemma digit_script_code inputs otp from n :
  digit_script inputs (split_chars otp) from n = code_script inputs otp from n.
Proof.
  revert from. induction n as [|n IH]; intros from; [done|].
  simpl. by rewrite split_chars_lookup, IH.
Qed.

#[local] Arguments probe_calls : simpl never.

(** The fallback on the generic controls: every candidate is probed, and the
    first visible one, if any, is clicked once. *)
Lemma clickCommonSubmit_run page w h :
  let probes := probe_calls page Linkedin.submitSelectors in
  Linkedin.clickCommonSubmit page w h
  = match head (visible_candidates w h page Linkedin.submitSelectors) with
    | Some sel =>
        let click := Click (first (locator page sel)) None in
        (match respond w (h ++ probes ++ [WaitForNavigation page "load" 45000]) click with
         | Returned _ => Returned true
         | Thrown e => Thrown e
         end, probes ++ [WaitForNavigation page "load" 45000; click])
    | None => (Returned false, probes)
    end.
Proof.
  simpl. unfold Linkedin.clickCommonSubmit. unfold bind at 1. rewrite probes_run.
  rewrite find_non_null_visible.
  destruct (head _) as [sel|] eqn:Hs; [|unfold ret; by rewrite app_nil_r].
  apply head_visible_candidate in Hs.
  rewrite (truthy_candidate _ _ Hs submitSelectors_truthy).
  unfold bind. rewrite with_navigation_wait_run. rewrite <- app_assoc.
  destruct (respond w _ (Click _ _)); unfold ret; by rewrite ?app_nil_r.
Qed.

Lemma verify_or_click_run page step timeoutMs w h :
  Linkedin.verify_or_click page step timeoutMs w h
  = let '(ov, ev) := Linkedin.verifyLogin page step timeoutMs (Some 10000) w h in
    match ov with
    | Returned true => (Returned tt, ev)
    | Returned false =>
        (Returned tt,
         ev ++ probe_calls page Linkedin.submitSelectors ++ fallback_click w (h ++ ev) page)
    | Thrown err => (Thrown err, ev)
    end.
Proof.
  unfold Linkedin.verify_or_click. unfold bind at 1.
  destruct (Linkedin.verifyLogin _ _ _ _ _ _) as [[[|]|err] ev]; [| |done].
  - unfold ret. simpl. by rewrite ?app_nil_r.
  - simpl. unfold catch_default, try_catch, bind. rewrite clickCommonSubmit_run.
    unfold fallback_click.
    destruct (head _) as [sel|]; simpl.
    + destruct (respond w _ (Click _ _)); simpl; rewrite ?app_nil_r; done.
    + by rewrite ?app_nil_r.
Qed.

(** C7: the second-factor step probes the prioritized combined-code
    selectors; if one is visible the single-field tactic runs on the first
    visible one; otherwise, with six or more single-digit fields, the
    multi-field tactic runs; otherwise the step throws "OTP inputs not found".
    The single-field tactic clears and fills the field; the multi-field
    tactic takes as many fields as the smaller of the number of fields and the
    number of characters of the code and, in index order, clears the field of
    index [i] and types the character of index [i] of the code into it; both submit
    by an [Enter] key-press (on the last filled field) issued together with a
    navigation wait whose failure is ignored; if the verification that follows
    fails, the generic submit controls are probed once and at most one of them
    is clicked, exactly one when one is visible. *)
Theorem second_factor_step (page : Page) (otp : string) (step : nat) (timeoutMs : Z)
    (w : World) (h : list Action) :
  let probes := probe_calls page Linkedin.singleSelectors in
  let digitInputs := locator page Linkedin.digit_selector in
  let submit_and_verify loc :=
    (with_navigation_wait page (Press loc "Enter") ;;
     Linkedin.verify_or_click page step timeoutMs) in
  (Linkedin.submitOtpCode page otp step timeoutMs w h
   = match head (visible_candidates w h page Linkedin.singleSelectors) with
     | Some sel =>
         let '(o, e) := Linkedin.otp_single_field page (first (locator page sel)) otp step
                          timeoutMs w (h ++ probes) in
         (o, probes ++ e)
     | None =>
         if (6 <=? digit_count w (h ++ probes) page)%nat then
           let '(o, e) := Linkedin.otp_multi_field page digitInputs otp step timeoutMs w
                            (h ++ probes ++ [Count digitInputs]) in
           (o, probes ++ Count digitInputs :: e)
         else (Thrown (Error "OTP inputs not found"), probes ++ [Count digitInputs])
     end)
  /\
  (forall loc,
     Linkedin.otp_single_field page loc otp step timeoutMs w h
     = script_then [Fill loc ""; Fill loc otp] (submit_and_verify loc) w h)
  /\
  (forall loc,
     Linkedin.otp_multi_field page loc otp step timeoutMs w h
     = match respond w h (Count loc) with
       | Returned count =>
           let total := Nat.min count (String.length otp) in
           let '(o, e) :=
             script_then (code_script loc otp 0 total)
               (submit_and_verify (nth loc (Z.of_nat total - 1))) w (h ++ [Count loc]) in
           (o, Count loc :: e)
       | Thrown err => (Thrown err, [Count loc])
       end)
  /\
  (forall action,
     with_navigation_wait page action w h
     = (match respond w (h ++ [WaitForNavigation page "load" 45000]) action with
        | Returned _ => Returned tt
        | Thrown e => Thrown e
        end, [WaitForNavigation page "load" 45000; action]))
  /\
  (Linkedin.verify_or_click page step timeoutMs w h
   = let '(ov, ev) := Linkedin.verifyLogin page step timeoutMs (Some 10000) w h in
     match ov with
     | Returned true => (Returned tt, ev)
     | Returned false =>
         (Returned tt,
          ev ++ probe_calls page Linkedin.submitSelectors ++ fallback_click w (h ++ ev) page)
     | Thrown err => (Thrown err, ev)
     end)
  /\
  (forall h', count is_click (fallback_click w h' page)
              = match head (visible_candidates w h' page Linkedin.submitSelectors) with
                | Some _ => 1%nat
                | None => 0%nat
                end).
Proof.
  cbv zeta. split; [|split; [|split; [|split; [|split]]]].
  - unfold Linkedin.submitOtpCode. unfold bind at 1. rewrite locateOtpInputs_run. cbv zeta.
    destruct (head _) as [sel|].
    + done.
    + destruct (6 <=? _)%nat; [|unfold throw; by rewrite app_nil_r].
      destruct (Linkedin.otp_multi_field _ _ _ _ _ _ _) as [o e].
      by rewrite <- app_assoc.
  - intros loc. unfold Linkedin.otp_single_field.
    rewrite !script_then_cons, script_then_nil.
    rewrite (bind_call (Fill _ _)). destruct (respond w h _); [|done].
    rewrite (bind_call (Fill _ _)). by destruct (respond w _ _).
  - intros loc. unfold Linkedin.otp_multi_field. cbv zeta.
    unfold bind at 1, call at 1.
    destruct (respond w h (Count loc)) as [count|err]; [|done].
    rewrite <- split_chars_length, <- digit_script_code, <- fill_loop_run.
    by destruct (bind _ _ w _).
  - intros action. apply with_navigation_wait_run.
  - apply verify_or_click_run.
  - intros h'. unfold fallback_click. by destruct (head _).
Qed.

Lemma second_factor_step_witness :
  take 11 (Linkedin.otp_multi_field 2%nat (locator 2%nat Linkedin.digit_selector) "4711"
             4%nat 10000 world_six_digit_fields []).2
  = [Count (locator 2%nat Linkedin.digit_selector);
     Fill (nth (locator 2%nat Linkedin.digit_selector) 0) "";
     TypeText (nth (locator 2%nat Linkedin.digit_selector) 0) "4";
     Fill (nth (locator 2%nat Linkedin.digit_selector) 1) "";
     TypeText (nth (locator 2%nat Linkedin.digit_selector) 1) "7";
     Fill (nth (locator 2%nat Linkedin.digit_selector) 2) "";
     TypeText (nth (locator 2%nat Linkedin.digit_selector) 2) "1";
     Fill (nth (locator 2%nat Linkedin.digit_selector) 3) "";
     TypeText (nth (locator 2%nat Linkedin.digit_selector) 3) "1";
     WaitForNavigation 2%nat "load" 45000;
     Press (nth (locator 2%nat Linkedin.digit_selector) 3) "Enter"].
Proof.
  pose proof (second_factor_step 2%nat "4711" 4%nat 10000 world_six_digit_fields []) as H.
  cbv zeta in H. destruct H as (_ & _ & H & _).
  rewrite H. reflexivity.
Defined.

(** ** Priority among candidate selectors (C9) *)

Lemma probe_answer_head w h page s sels :
  probe_answer w h page (s :: sels) 0
  = match respond w h (IsVisible (first (locator page s)) None) with
    | Returned true => true
    | _ => false
    end.
Proof. unfold probe_answer. simpl. by rewrite app_nil_r. Qed.

Lemma probe_answer_tail w h page s sels k :
  probe_answer w h page (s :: sels) (S k)
  = probe_answer w (h ++ [IsVisible (first (locator page s)) None]) page sels k.
Proof. unfold probe_answer. simpl. by rewrite <- app_assoc. Qed.

(** The chosen candidate is the first, in the order of the list, whose probe
    answered visible. *)
Lemma first_visible_by_priority w h page sels s :
  head (visible_candidates w h page sels) = Some s <->
  exists k, sels !! k = Some s /\ probe_answer w h page sels k = true /\
            forall j, (j < k)%nat -> probe_answer w h page sels j = false.
Proof.
  revert h. induction sels as [|c sels IH]; intros h.
  - simpl. split; [done|]. by intros (k & Hk & _).
  - pose proof (probe_answer_head w h page c sels) as H0.
    simpl. destruct (respond w h (IsVisible (first (locator page c)) None)) as [[|]|] eqn:E.
    + simpl. split.
      * intros [= <-]. exists 0%nat. split; [done|]. split; [done|]. intros j Hj; lia.
      * intros ([|k] & Hk & Hv & Hmin); [by injection Hk as ->|].
        specialize (Hmin 0%nat ltac:(lia)). congruence.
    + rewrite IH. split.
      * intros (k & Hk & Hv & Hmin). exists (S k). split; [done|].
        rewrite probe_answer_tail. split; [done|].
        intros [|j] Hj; [done|]. rewrite probe_answer_tail. apply Hmin. lia.
      * intros ([|k] & Hk & Hv & Hmin); [congruence|].
        exists k. split; [done|]. rewrite probe_answer_tail in Hv. split; [done|].
        intros j Hj. specialize (Hmin (S j) ltac:(lia)). by rewrite probe_answer_tail in Hmin.
    + rewrite IH. split.
      * intros (k & Hk & Hv & Hmin). exists (S k). split; [done|].
        rewrite probe_answer_tail. split; [done|].
        intros [|j] Hj; [done|]. rewrite probe_answer_tail. apply Hmin. lia.
      * intros ([|k] & Hk & Hv & Hmin); [congruence|].
        exists k. split; [done|]. rewrite probe_answer_tail in Hv. split; [done|].
        intros j Hj. specialize (Hmin (S j) ltac:(lia)). by rewrite probe_answer_tail in Hmin.
Qed.

Lemma probe_results_latency w lat h page sels :
  probe_results (with_latency w lat) h page sels = probe_results w h page sels.
Proof. revert h. induction sels as [|s sels IH]; intros h; simpl; [done|]. by rewrite IH. Qed.

Lemma visible_candidates_latency w lat h page sels :
  visible_candidates (with_latency w lat) h page sels = visible_candidates w h page sels.
Proof.
  revert h. induction sels as [|s sels IH]; intros h; simpl; [done|].
  destruct (respond w h _) as [[|]|]; by rewrite IH.
Qed.

(** C9: a fallback-selector step issues the visibility probe of every
    candidate, in the order of the list, before it chooses; the results it
    gets are those of the candidates in the order of the list, whatever the
    order in which the probes settle; the candidate it chooses is the first of
    the list whose probe answered visible.  The fallback submit click and the
    search for the OTP input both choose in this way. *)
Theorem fallback_selector_priority (page : Page) (sels : list string)
    (w : World) (h : list Action) :
  (forall lat,
     Promise_all (map (probe page) sels) (with_latency w lat) h
     = (Returned (probe_results w h page sels), probe_calls page sels))
  /\
  (forall s,
     find_non_null (probe_results w h page sels) = Some s <->
     exists k, sels !! k = Some s /\ probe_answer w h page sels k = true /\
               forall j, (j < k)%nat -> probe_answer w h page sels j = false)
  /\
  (forall lat,
     let w' := with_latency w lat in
     let probes := probe_calls page Linkedin.submitSelectors in
     Linkedin.clickCommonSubmit page w' h
     = match find_non_null (probe_results w h page Linkedin.submitSelectors) with
       | Some sel =>
           let click := Click (first (locator page sel)) None in
           (match respond w (h ++ probes ++ [WaitForNavigation page "load" 45000]) click with
            | Returned _ => Returned true
            | Thrown e => Thrown e
            end, probes ++ [WaitForNavigation page "load" 45000; click])
       | None => (Returned false, probes)
       end)
  /\
  (forall lat,
     let w' := with_latency w lat in
     let probes := probe_calls page Linkedin.singleSelectors in
     match find_non_null (probe_results w h page Linkedin.singleSelectors) with
     | Some sel =>
         Linkedin.locateOtpInputs page w' h
         = (Returned (Some (Linkedin.single (first (locator page sel)))), probes)
     | None =>
         (Linkedin.locateOtpInputs page w' h).2
         = probes ++ [Count (locator page Linkedin.digit_selector)]
     end).
Proof.
  split; [|split; [|split]].
  - intros lat. by rewrite probes_run, probe_results_latency.
  - intros s. rewrite find_non_null_visible. apply first_visible_by_priority.
  - intros lat. cbv zeta. rewrite clickCommonSubmit_run. cbv zeta.
    by rewrite find_non_null_visible, visible_candidates_latency.
  - intros lat. cbv zeta. rewrite locateOtpInputs_run. cbv zeta.
    rewrite find_non_null_visible, visible_candidates_latency.
    by destruct (head _).
Qed.

(** Two visible candidates, the later one settling first: the earlier one of
    the list is clicked. *)
Lemma earlier_candidate_wins_over_faster_probe :
  let w := world_slow_first_probe in
  let page := 2%nat in
  first_to_complete (map (probe page) Linkedin.submitSelectors) w [] = Some 1%nat /\
  probe_answer w [] page Linkedin.submitSelectors 0 = true /\
  probe_answer w [] page Linkedin.submitSelectors 1 = true /\
  head (visible_candidates w [] page Linkedin.submitSelectors)
    = Linkedin.submitSelectors !! 0%nat /\
  List.last (Linkedin.clickCommonSubmit page w []).2 NewAnchorBrowser
    = Click (first (locator page (default "" (Linkedin.submitSelectors !! 0%nat)))) None.
Proof. vm_compute. repeat split. Qed.

(** ** The second fetch of the credential bundle (C10) *)

Lemma login_steps_run page config credentials w h :
  Linkedin.login_steps page config credentials w h
  = script_then (credential_entry page config credentials)
      (let! refreshed := Linkedin.second_factor page config credentials in
       Linkedin.final_verification page config refreshed) w h.
Proof.
  unfold Linkedin.login_steps, credential_entry, Linkedin.enterUsername,
    Linkedin.enterPasswordAndSubmit, Linkedin.waitForVisible.
  rewrite !script_then_cons, script_then_nil.
  rewrite !bind_assoc. cbv beta.
  rewrite (bind_call (WaitForSelector _ _ _)). destruct (respond w h _); [|done].
  rewrite bind_assoc. cbv beta.
  rewrite (bind_call (Fill _ _)). destruct (respond w _ _); [|done].
  rewrite (bind_call (Press _ _)). destruct (respond w _ _); [|done].
  rewrite !bind_assoc. cbv beta.
  rewrite (bind_call (WaitForSelector _ _ _)). destruct (respond w _ _); [|done].
  rewrite bind_assoc. cbv beta.
  rewrite (bind_call (Fill _ _)). destruct (respond w _ _); [|done].
  rewrite (bind_call (Press _ _)). by destruct (respond w _ _).
Qed.

Lemma second_factor_run page config credentials w h :
  let fetch := [NewAnchorBrowser; RetrieveCredentials (Linkedin.identityId config)] in
  Linkedin.second_factor page config credentials w h
  = if truthy (Linkedin.otp credentials) then
      match respond w h NewAnchorBrowser with
      | Thrown e => (Thrown e, [NewAnchorBrowser])
      | Returned _ =>
          match respond w (h ++ [NewAnchorBrowser])
                        (RetrieveCredentials (Linkedin.identityId config)) with
          | Thrown e => (Thrown e, fetch)
          | Returned updated =>
              match Linkedin.parseLinkedinCredentials (Identity.credentials updated) with
              | Thrown e => (Thrown e, fetch)
              | Returned refreshed =>
                  let '(o, e) :=
                    Linkedin.submitOtpCode page (Linkedin.otp refreshed) 6
                      (Linkedin.timeoutMs config) w (h ++ fetch) in
                  (match o with
                   | Returned _ => Returned refreshed
                   | Thrown err => Thrown err
                   end, fetch ++ e)
              end
          end
      end
    else (Returned credentials, []).
Proof.
  cbv zeta. unfold Linkedin.second_factor.
  destruct (truthy (Linkedin.otp credentials)); [|done].
  unfold Linkedin.fetchIdentityCredentials, Linkedin.getAnchorClient.
  rewrite bind_assoc. cbv beta.
  rewrite (bind_call NewAnchorBrowser). destruct (respond w h _); [|done].
  unfold bind at 1, call at 1.
  destruct (respond w _ (RetrieveCredentials _)) as [updated|]; [|done].
  unfold bind at 1, lift at 1.
  destruct (Linkedin.parseLinkedinCredentials _) as [refreshed|]; [|done].
  simpl. unfold bind. rewrite <- !app_assoc. simpl.
  destruct (Linkedin.submitOtpCode _ _ _ _ _ _) as [[[]|err] e]; simpl;
    by rewrite ?app_nil_r.
Qed.

Lemma is_password_submit_press page :
  is_password_submit (Press (locator page Linkedin.password_selector) "Enter") = true.
Proof. unfold is_password_submit, is_enter_on, on_selector. by rewrite !String.eqb_refl. Qed.

Lemma submitOtpCode_no_fetch page otp step timeoutMs :
  Bound is_fetch 0 (Linkedin.submitOtpCode page otp step timeoutMs).
Proof. bound. Qed.

Lemma final_verification_no_fetch page config credentials :
  Bound is_fetch 0 (Linkedin.final_verification page config credentials).
Proof. bound. Qed.

(** The calls of steps 3 and 4 stop at the first that throws; the password is
    submitted when none does. *)
Lemma credential_entry_run page config credentials w h r es :
  run_script (credential_entry page config credentials) w h = (r, es) ->
  count is_fetch es = 0%nat /\
  answered password_submitted w h es
  = match r with None => true | Some _ => false end /\
  (r = None -> es = credential_entry page config credentials).
Proof.
  unfold credential_entry. cbn [run_script].
  destruct (respond w h _) eqn:E1; [|by intros [= <- <-]].
  destruct (respond w (h ++ [_]) _) eqn:E2; [|by intros [= <- <-]].
  destruct (respond w ((h ++ [_]) ++ [_]) _) eqn:E3; [|by intros [= <- <-]].
  destruct (respond w (((h ++ [_]) ++ [_]) ++ [_]) _) eqn:E4; [|by intros [= <- <-]].
  destruct (respond w ((((h ++ [_]) ++ [_]) ++ [_]) ++ [_]) _) eqn:E5;
    [|by intros [= <- <-]].
  destruct (respond w (((((h ++ [_]) ++ [_]) ++ [_]) ++ [_]) ++ [_]) _) eqn:E6;
    intros [= <- <-]; (split; [done|]); (split; [|done]);
    cbn [answered]; unfold password_submitted; rewrite is_password_submit_press, E6;
    cbn; by rewrite ?orb_false_r.
Qed.

(** The login steps, from the point of view of the identity provider: with a
    one-time code at hand the bundle is fetched again right after the password
    submit, and it is not fetched otherwise. *)
Lemma login_steps_second_fetch page config credentials w h o e :
  Linkedin.login_steps page config credentials w h = (o, e) ->
  let entry := credential_entry page config credentials in
  if (answered password_submitted w h e && truthy (Linkedin.otp credentials))%bool then
    exists after, e = entry ++ after /\
                  second_fetch w page config Thrown (h ++ entry) after o
  else count is_fetch e = 0%nat.
Proof.
  cbv zeta. rewrite login_steps_run. unfold script_then, second_fetch.
  destruct (run_script _ w h) as [r es] eqn:Hs.
  destruct (credential_entry_run _ _ _ _ _ _ _ Hs) as (Hes & Ha & Hall).
  destruct r as [err|].
  { intros [= <- <-]. by rewrite Ha. }
  rewrite (Hall eq_refl) in *. clear Hall Hs.
  unfold bind at 1. rewrite second_factor_run. cbv zeta.
  destruct (truthy (Linkedin.otp credentials)) eqn:Hotp.
  2:{ pose proof (final_verification_no_fetch page config credentials w
                    ((h ++ credential_entry page config credentials) ++ [])) as Hf.
      destruct (Linkedin.final_verification _ _ _ _ _) as [o2 e2]. cbn [fst snd] in Hf.
      intros [= <- <-]. rewrite andb_false_r, !count_cons. cbn. lia. }
  rewrite andb_true_r.
  set (entry := credential_entry page config credentials) in *.
  set (fetch := RetrieveCredentials (Linkedin.identityId config)).
  assert (Hyes : forall after, answered password_submitted w h (entry ++ after) = true).
  { intros after. by rewrite answered_app, Ha. }
  destruct (respond w (h ++ entry) NewAnchorBrowser) as [[]|err].
  2:{ intros Heq. apply pair_equal_spec in Heq as [<- <-]. rewrite Hyes.
      by exists [NewAnchorBrowser]. }
  destruct (respond w ((h ++ entry) ++ [NewAnchorBrowser]) fetch) as [updated|err].
  2:{ intros Heq. apply pair_equal_spec in Heq as [<- <-]. rewrite Hyes.
      by exists [NewAnchorBrowser; fetch]. }
  destruct (Linkedin.parseLinkedinCredentials _) as [refreshed|err].
  2:{ intros Heq. apply pair_equal_spec in Heq as [<- <-]. rewrite Hyes.
      by exists [NewAnchorBrowser; fetch]. }
  pose proof (submitOtpCode_no_fetch page (Linkedin.otp refreshed) 6
                (Linkedin.timeoutMs config) w
                ((h ++ entry) ++ [NewAnchorBrowser; fetch])) as Ho.
  destruct (Linkedin.submitOtpCode _ _ _ _ _ _) as [[[]|err] eo]; cbn [fst snd] in *.
  - pose proof (final_verification_no_fetch page config refreshed w
                  ((h ++ entry) ++ [NewAnchorBrowser; fetch] ++ eo)) as Hf.
    destruct (Linkedin.final_verification _ _ _ _ _) as [o2 e2]. cbn [fst snd] in Hf.
    intros Heq. apply pair_equal_spec in Heq as [<- <-]. rewrite Hyes.
    exists (([NewAnchorBrowser; fetch] ++ eo) ++ e2). split; [done|].
    exists e2. split; [by rewrite <- app_assoc|].
    rewrite !count_app. unfold count at 1. cbn. lia.
  - intros Heq. apply pair_equal_spec in Heq as [<- <-]. rewrite Hyes.
    exists ([NewAnchorBrowser; fetch] ++ eo). split; [done|].
    exists []. split; [by rewrite app_nil_r|].
    rewrite !count_app. unfold count at 1. cbn. lia.
Qed.

(** The same for the whole [try] block: the navigation and the pre-login
    check come first. *)
Lemma login_flow_second_fetch page config credentials w h o e :
  Linkedin.login_flow page config credentials w h = (o, e) ->
  if (answered password_submitted w h e && truthy (Linkedin.otp credentials))%bool then
    exists before after,
      e = before ++ after /\
      last before = Some (Press (locator page Linkedin.password_selector) "Enter") /\
      count is_fetch before = 0%nat /\
      second_fetch w page config Thrown (h ++ before) after o
  else count is_fetch e = 0%nat.
Proof.
  unfold Linkedin.login_flow. unfold bind at 1.
  pose proof (navigateToHomepage_calls page config w h) as Hn.
  destruct (Linkedin.navigateToHomepage page config w h) as [[[]|err] en];
    cbn [fst snd] in Hn.
  2:{ intros [= <- <-]. by destruct Hn as [-> | ->]. }
  assert (Hen : count is_fetch en = 0%nat /\
                forall rest, answered password_submitted w h (en ++ rest)
                             = answered password_submitted w (h ++ en) rest).
  { destruct Hn as [-> | ->]; (split; [done|]); intros rest; cbn;
      by rewrite <- ?app_assoc. }
  destruct Hen as [Hen1 Hen2]. clear Hn.
  unfold bind at 1. rewrite verifyLogin_run. cbv zeta.
  set (a := WaitForURL _ _ _).
  assert (Hev : exists ev b,
             (match respond w (h ++ en) a with
              | Returned _ => (Returned true, [a])
              | Thrown _ =>
                  (match respond w ((h ++ en) ++ [a]) (Url page) with
                   | Returned url => Returned (Linkedin.feed_regex_test url)
                   | Thrown e0 => Thrown e0
                   end, [a; Url page])
              end) = (b, ev) /\ count is_fetch ev = 0%nat /\
             forall rest, answered password_submitted w (h ++ en) (ev ++ rest)
                          = answered password_submitted w ((h ++ en) ++ ev) rest).
  { destruct (respond w (h ++ en) a); eexists _, _; (split; [reflexivity|]);
      (split; [done|]); intros rest; cbn; by rewrite <- ?app_assoc. }
  destruct Hev as (ev & b & -> & Hev1 & Hev2).
  destruct b as [[|]|err].
  - intros [= <- <-]. rewrite Hen2, Hev2. cbn.
    by rewrite !count_app, Hen1, Hev1.
  - destruct (Linkedin.login_steps _ _ _ _ _) as [o3 e3] eqn:Hs.
    apply login_steps_second_fetch in Hs. cbv zeta in Hs.
    intros Heq. apply pair_equal_spec in Heq as [<- <-].
    rewrite Hen2, Hev2.
    destruct (_ && _)%bool.
    + destruct Hs as (after & -> & Hs).
      exists (en ++ ev ++ credential_entry page config credentials), after.
      split; [by rewrite <- !app_assoc|]. split; [by rewrite !last_app|].
      split; [by rewrite !count_app, Hen1, Hev1|].
      by rewrite !app_assoc in *.
    + by rewrite !count_app, Hen1, Hev1, Hs.
  - intros [= <- <-]. rewrite Hen2, <- (app_nil_r ev), Hev2. cbn.
    by rewrite !count_app, Hen1, Hev1.
Qed.

Lemma second_fetch_caught w page config failed h after o :
  second_fetch w page config Thrown h after o ->
  second_fetch w page config failed h after
    (match o with Returned r => Returned r | Thrown err => failed err end).
Proof.
  unfold second_fetch.
  destruct (respond w h NewAnchorBrowser); [|by intros [-> ->]].
  destruct (respond w _ (RetrieveCredentials _)); [|by intros [-> ->]].
  destruct (Linkedin.parseLinkedinCredentials _); [done|by intros [-> ->]].
Qed.

(** The same for the guarded steps, where an error becomes a failure
    result. *)
Lemma guarded_second_fetch page config credentials w h o e :
  try_catch (Linkedin.login_flow page config credentials) Linkedin.login_failed w h
  = (o, e) ->
  if (answered password_submitted w h e && truthy (Linkedin.otp credentials))%bool then
    exists before after,
      e = before ++ after /\
      last before = Some (Press (locator page Linkedin.password_selector) "Enter") /\
      count is_fetch before = 0%nat /\
      second_fetch w page config
        (fun err => Returned {| success := false;
                                message := or_else (errorMessage err)
                                             "Unknown error during Linkedin login." |})
        (h ++ before) after o
  else count is_fetch e = 0%nat.
Proof.
  unfold try_catch.
  destruct (Linkedin.login_flow page config credentials w h) as [[r|err] ef] eqn:Hf;
    apply login_flow_second_fetch in Hf.
  - intros Heq. apply pair_equal_spec in Heq as [<- <-].
    destruct (_ && _)%bool; [|done].
    destruct Hf as (before & after & -> & Hl & Hc & Hs).
    exists before, after. repeat (split; [done|]).
    exact (second_fetch_caught w page config _ _ _ (Returned r) Hs).
  - unfold Linkedin.login_failed, ret. cbn [fst snd].
    intros Heq. apply pair_equal_spec in Heq as [<- <-]. rewrite app_nil_r.
    destruct (_ && _)%bool; [|done].
    destruct Hf as (before & after & -> & Hl & Hc & Hs).
    exists before, after. repeat (split; [done|]).
    exact (second_fetch_caught w page config _ _ _ (Thrown err) Hs).
Qed.

Lemma answered_setup_no_submit w h tr :
  Forall (fun a => is_setup_call a = true) tr ->
  answered password_submitted w h tr = false.
Proof.
  intros H. revert h. induction H as [|a tr Ha _ IH]; intros h; [done|].
  cbn [answered]. rewrite IH. by destruct a.
Qed.

(** The attempt as a whole, once the first extraction has succeeded. *)
Lemma Linkedin_second_fetch w config response credentials o tr :
  Linkedin.getConfig w [] = (Returned config, []) ->
  respond w [] NewAnchorBrowser = Returned tt ->
  respond w [NewAnchorBrowser] (RetrieveCredentials (Linkedin.identityId config))
  = Returned response ->
  Linkedin.parseLinkedinCredentials (Identity.credentials response) = Returned credentials ->
  run Linkedin.LoginToLinkedin w = (o, tr) ->
  if (answered password_submitted w [] tr && truthy (Linkedin.otp credentials))%bool
  then
    exists before after page browser o',
      tr = before ++ after ++ [Close browser] /\
      o = match respond w (before ++ after) (Close browser) with
          | Returned _ => o'
          | Thrown err => Thrown err
          end /\
      last before = Some (Press (locator page Linkedin.password_selector) "Enter") /\
      count is_fetch before = 1%nat /\
      second_fetch w page config
        (fun err => Returned {| success := false;
                                message := or_else (errorMessage err)
                                             "Unknown error during Linkedin login." |})
        before after o'
  else count is_fetch tr = 1%nat.
Proof.
  intros Hc Hnew Hfetch Hparse.
  unfold run, Linkedin.LoginToLinkedin.
  cbv [bind Linkedin.fetchIdentityCredentials Linkedin.getAnchorClient call lift
       Linkedin.getAnchorBrowser].
  rewrite Hc. cbn [app]. rewrite Hnew. cbn [app]. rewrite Hfetch, Hparse.
  cbn [app].
  next_call; simpl.
  2:{ ends. by rewrite answered_setup_no_submit by repeat constructor. }
  destruct (truthy (Linkedin.sessionId config)); simpl.
  all: next_call; simpl;
    [|ends; by rewrite answered_setup_no_submit by repeat constructor].
  all: next_call; simpl;
    [|ends; by rewrite answered_setup_no_submit by repeat constructor].
  all: match goal with |- context [head ?l] => destruct l as [|context ?] end; simpl;
    [ends; by rewrite answered_setup_no_submit by repeat constructor|].
  all: next_call; simpl;
    [|ends; by rewrite answered_setup_no_submit by repeat constructor].
  all: match goal with |- context [head ?l] => destruct l as [|page ?] end; simpl;
    [ends; by rewrite answered_setup_no_submit by repeat constructor|].
  all: match goal with |- context [try_finally ?m ?f ?w0 ?h0] =>
         destruct (try_finally m f w0 h0) as [o' e'] eqn:Ht end.
  all: ends.
  all: match type of Ht with
       | try_finally ?m (fun _ _ => (_, [Close ?b])) _ ?pro = _ =>
           destruct (try_finally_close m b w pro _ _ Ht) as (o1 & e1 & Hm & -> & ->);
           apply guarded_second_fetch in Hm;
           match goal with
           | |- context [answered _ _ [] ?tr] =>
               change tr with (pro ++ e1 ++ [Close b])
           end;
           rewrite (answered_app _ w [] pro (e1 ++ [Close b])),
             (answered_app _ w ([] ++ pro) e1 [Close b])
       end.
  all: rewrite answered_setup_no_submit by repeat constructor.
  all: cbn [orb answered password_submitted is_password_submit is_enter_on andb].
  all: rewrite orb_false_r.
  all: destruct (_ && _)%bool; [|by rewrite !count_app, Hm].
  all: destruct Hm as (before & after & -> & Hl & Hn & Hs).
  all: match goal with
       | |- context [Close ?b :: _] =>
           match type of Hs with
           | second_fetch _ ?page _ _ (?pro ++ _) _ ?o1 =>
               exists (pro ++ before), after, page, b, o1
           end
       end.
  all: split; [by rewrite <- !app_assoc|].
  all: split; [by rewrite <- !app_assoc|].
  all: split; [by rewrite last_app, Hl|].
  all: split; [by rewrite count_app, Hn|done].
Qed.



(** C10 (amended): in an attempt of the LinkedIn flow whose first extraction
    succeeds, the one-time code is the code of the last authenticator record
    of the bundle (empty when there is no such record or the record has no
    code).  When the password was submitted and that code is not empty,
    [fetchIdentityCredentials] is called a second time right after the
    password submit; when it returns, the whole extraction runs on the new
    bundle and [submitOtpCode] is given the code of the new bundle; an error
    of the second call or of the second extraction ends the guarded steps
    there, with a failure result carrying the error's message, and the
    browser is closed.  In every other attempt the bundle is fetched once, an
    authenticator record without a code being no reason for a second fetch.
    The extraction throws exactly when the
    username or the password of the last [username_password] record is
    missing or empty. *)
Theorem otp_refetches_and_re_extracts (w : World) (config : Linkedin.Config)
    (response : IdentityCredentialsResponse)
    (credentials : Linkedin.LinkedinCredentials) :
  Linkedin.getConfig w [] = (Returned config, []) ->
  respond w [] NewAnchorBrowser = Returned tt ->
  respond w [NewAnchorBrowser] (RetrieveCredentials (Linkedin.identityId config))
  = Returned response ->
  Linkedin.parseLinkedinCredentials (Identity.credentials response) = Returned credentials ->
  let attempt := run Linkedin.LoginToLinkedin w in
  let fetch := RetrieveCredentials (Linkedin.identityId config) in
  let failed err :=
    Returned {| success := false;
                message := or_else (errorMessage err)
                             "Unknown error during Linkedin login." |} in
  Linkedin.otp credentials = default "" (last_otp (Identity.credentials response))
  /\
  (if (answered password_submitted w [] attempt.2
       && truthy (Linkedin.otp credentials))%bool
   then
     exists before after page browser o,
       attempt.2 = before ++ after ++ [Close browser] /\
       attempt.1 = match respond w (before ++ after) (Close browser) with
                   | Returned _ => o
                   | Thrown err => Thrown err
                   end /\
       last before = Some (Press (locator page Linkedin.password_selector) "Enter") /\
       count is_fetch before = 1%nat /\
       match respond w before NewAnchorBrowser with
       | Thrown err => after = [NewAnchorBrowser] /\ o = failed err
       | Returned _ =>
           match respond w (before ++ [NewAnchorBrowser]) fetch with
           | Thrown err => after = [NewAnchorBrowser; fetch] /\ o = failed err
           | Returned updated =>
               match Linkedin.parseLinkedinCredentials (Identity.credentials updated) with
               | Thrown err => after = [NewAnchorBrowser; fetch] /\ o = failed err
               | Returned refreshed =>
                   exists rest,
                     after = [NewAnchorBrowser; fetch]
                             ++ (Linkedin.submitOtpCode page (Linkedin.otp refreshed) 6
                                   (Linkedin.timeoutMs config) w
                                   (before ++ [NewAnchorBrowser; fetch])).2
                             ++ rest /\
                     count is_fetch after = 1%nat
               end
           end
       end
   else count is_fetch attempt.2 = 1%nat)
  /\
  (forall bundle,
     let '(u, p) := default ("", "") (last_username_password bundle) in
     (exists e, Linkedin.parseLinkedinCredentials bundle = Thrown e)
     <-> ~ (nonempty u /\ nonempty p)).
Proof.
  intros Hc Hnew Hfetch Hparse. cbv zeta. split; [|split].
  - pose proof (Linkedin_parse_spec (Identity.credentials response)) as Hs.
    destruct (default ("", "") _) as [u p]. rewrite Hparse in Hs.
    destruct (_ && _)%bool; [|done]. by injection Hs as ->.
  - destruct (run Linkedin.LoginToLinkedin w) as [o tr] eqn:Hrun. cbn [fst snd].
    exact (Linkedin_second_fetch w config response credentials o tr
             Hc Hnew Hfetch Hparse Hrun).
  - intros bundle. pose proof (Linkedin_parse_spec bundle) as Hs.
    destruct (default ("", "") _) as [u p]. rewrite Hs, <- !truthy_nonempty.
    destruct (truthy u), (truthy p); simpl; (split; [intros [e He]|intros H]);
      first [discriminate He | by (exfalso; apply H) | by intros [? ?] | by eauto].
Qed.

(** The identity provider hands out a bundle with a one-time code: the bundle
    is fetched twice. *)
Lemma otp_refetches_and_re_extracts_witness :
  count is_fetch (run Linkedin.LoginToLinkedin world_with_otp).2 = 2%nat.
Proof.
  destruct (otp_refetches_and_re_extracts world_with_otp linkedin_config bundle_otp
              {| Linkedin.username := "u"; Linkedin.password := "p";
                 Linkedin.otp := "123456" |}
              eq_refl eq_refl eq_refl eq_refl) as (_ & H & _).
  assert (Hyes : (answered password_submitted world_with_otp []
                    (run Linkedin.LoginToLinkedin world_with_otp).2
                  && truthy "123456")%bool = true) by (vm_compute; reflexivity).
  cbn [Linkedin.otp] in H. rewrite Hyes in H.
  destruct H as (before & after & page & browser & o & -> & _ & _ & Hb & H).
  cbn in H. destruct H as (rest & _ & Ha).
  rewrite !count_app, Hb, Ha. reflexivity.
Defined.

(** C10 as stated fails: the bundle holds an OTP record, but one without a
    code; the password is submitted and the bundle is fetched only once. *)
Lemma otp_record_without_code_is_not_refetched :
  let attempt := run Linkedin.LoginToLinkedin world_otp_without_code in
  In (authenticator None) (Identity.credentials bundle_otp_without_code) /\
  respond world_otp_without_code [NewAnchorBrowser] (RetrieveCredentials "identity-1")
  = Returned bundle_otp_without_code /\
  answered password_submitted world_otp_without_code [] attempt.2 = true /\
  count is_fetch attempt.2 = 1%nat.
Proof. split; [right; by left|]. vm_compute. repeat split; reflexivity. Qed.


(** An attempt whose bundle loses its password record between the two
    fetches: the password is submitted, the bundle is fetched again, the
    extraction error ends the attempt as a failure result, and the OTP step is
    never started. *)
Lemma refreshed_bundle_without_password :
  run Linkedin.LoginToLinkedin world_refresh_loses_password
  = (Returned {| success := false;
                 message := "Missing required credentials. Found: username=false, password=false" |},
     [NewAnchorBrowser; RetrieveCredentials "identity-1"; NewAnchorBrowser;
      Create empty_configuration; Contexts 7%nat; Pages 1%nat;
      Goto 2%nat "https://www.linkedin.com/uas/login" "load" 10000;
      WaitForURL 2%nat Linkedin.feed_pattern 10000; Url 2%nat]
     ++ credential_entry 2%nat linkedin_config
          {| Linkedin.username := "u"; Linkedin.password := "p"; Linkedin.otp := "123456" |}
     ++ [NewAnchorBrowser; RetrieveCredentials "identity-1"; Close 7%nat]).
Proof. vm_compute. reflexivity. Qed.


(** ** Values returned along the structure of a computation *)

Lemma Returns_weaken {A} (m : M A) (Q R : A -> Prop) :
  (forall a, Q a -> R a) -> Returns m Q -> Returns m R.
Proof. intros HQR H w h a Ha. eauto. Qed.

Lemma Returns_any {A} (m : M A) : Returns m (fun _ => True).
Proof. done. Qed.

Lemma Returns_ret {A} (a : A) (Q : A -> Prop) : Q a -> Returns (ret a) Q.
Proof. by intros H w h a' [= <-]. Qed.

Lemma Returns_lift {A} (o : Outcome A) (Q : A -> Prop) :
  (forall a, o = Returned a -> Q a) -> Returns (lift o) Q.
Proof. intros H w h a Ha. by apply H. Qed.

Lemma Returns_try_catch {A} (m : M A) handler (Q : A -> Prop) :
  Returns m Q -> (forall e, Returns (handler e) Q) -> Returns (try_catch m handler) Q.
Proof.
  intros Hm Hh w h a. unfold try_catch. specialize (Hm w h).
  destruct (m w h) as [[a'|e] e1]; simpl in *.
  - intros [= <-]. by apply Hm.
  - specialize (Hh e w (h ++ e1)). destruct (handler e w (h ++ e1)) as [o e2]; simpl in *.
    apply Hh.
Qed.

Lemma Returns_try_finally {A} (m : M A) fin (Q : A -> Prop) :
  Returns m Q -> Returns (try_finally m fin) Q.
Proof.
  intros Hm w h a. unfold try_finally. specialize (Hm w h).
  destruct (m w h) as [o e1]; simpl in *.
  destruct (fin w (h ++ e1)) as [[[]|e] e2]; simpl; [apply Hm|done].
Qed.

Lemma Returns_if {A} (b : bool) (m1 m2 : M A) (Q : A -> Prop) :
  Returns m1 Q -> Returns m2 Q -> Returns (if b then m1 else m2) Q.
Proof. by destruct b. Qed.

(** ** Results of the entry points *)

Lemma or_else_nonempty a b : nonempty b -> nonempty (or_else a b).
Proof.
  unfold or_else. destruct (truthy a) eqn:E; [|done]. intros _. by apply truthy_nonempty.
Qed.

Lemma Linkedin_parse_username creds c :
  Linkedin.parseLinkedinCredentials creds = Returned c -> nonempty (Linkedin.username c).
Proof.
  unfold Linkedin.parseLinkedinCredentials.
  destruct (foldl _ _ _) as [[u p] o]. destruct (truthy u) eqn:Hu; simpl; [|done].
  destruct (truthy p); simpl; [|done]. intros [= <-]. by apply truthy_nonempty.
Qed.

Lemma Mesh_parse_fields creds c :
  Mesh.parseComplyAdvantageCredentials creds = Returned c ->
  nonempty (Mesh.username c) /\ nonempty (Mesh.organization c).
Proof.
  unfold Mesh.parseComplyAdvantageCredentials.
  destruct (foldl _ _ _) as [[g u] p]. destruct (truthy g) eqn:Hg; simpl; [|done].
  destruct (truthy u) eqn:Hu; simpl; [|done]. destruct (truthy p); simpl; [|done].
  intros [= <-]. split; by apply truthy_nonempty.
Qed.

Lemma failure_is_linkedin_result msg :
  nonempty msg -> linkedin_result {| success := false; message := msg |}.
Proof. by split. Qed.

Lemma failure_is_mesh_result msg :
  nonempty msg -> mesh_result {| success := false; message := msg |}.
Proof. by split. Qed.

Lemma Linkedin_second_factor_returns page config c :
  nonempty (Linkedin.username c) ->
  Returns (Linkedin.second_factor page config c)
          (fun c' => nonempty (Linkedin.username c')).
Proof.
  intros Hc. unfold Linkedin.second_factor. apply Returns_if; [|by apply Returns_ret].
  eapply Returns_bind; [apply Returns_any|]. intros updated _.
  eapply Returns_bind; [apply Returns_lift, Linkedin_parse_username|]. intros c' Hc'.
  eapply Returns_bind; [apply Returns_any|]. intros _ _. by apply Returns_ret.
Qed.

Lemma Linkedin_final_verification_returns page config c :
  nonempty (Linkedin.username c) ->
  Returns (Linkedin.final_verification page config c) linkedin_result.
Proof.
  intros Hc. unfold Linkedin.final_verification.
  eapply Returns_bind; [apply Returns_any|]. intros finalLoggedIn _.
  apply Returns_if.
  - eapply Returns_bind; [apply Returns_any|]. intros finalUrl _.
    by apply Returns_ret, failure_is_linkedin_result.
  - apply Returns_ret. split; [done|]. intros _. right. by exists (Linkedin.username c).
Qed.

Lemma Linkedin_guarded_returns page config c browser :
  nonempty (Linkedin.username c) ->
  Returns (try_finally
             (try_catch (Linkedin.login_flow page config c) Linkedin.login_failed)
             (call (Close browser)))
          linkedin_result.
Proof.
  intros Hc. apply Returns_try_finally, Returns_try_catch.
  - unfold Linkedin.login_flow.
    eapply Returns_bind; [apply Returns_any|]. intros _ _.
    eapply Returns_bind; [apply Returns_any|]. intros loggedIn _.
    apply Returns_if.
    + apply Returns_ret. split; [done|]. intros _. by left.
    + unfold Linkedin.login_steps.
      eapply Returns_bind; [apply Returns_any|]. intros _ _.
      eapply Returns_bind; [apply Returns_any|]. intros _ _.
      eapply Returns_bind; [by apply Linkedin_second_factor_returns|]. intros c' Hc'.
      by apply Linkedin_final_verification_returns.
  - intros e. apply Returns_ret, failure_is_linkedin_result. by apply or_else_nonempty.
Qed.

Lemma Linkedin_returns : Returns Linkedin.LoginToLinkedin linkedin_result.
Proof.
  unfold Linkedin.LoginToLinkedin.
  eapply Returns_bind; [apply Returns_any|]. intros config _.
  eapply Returns_bind; [apply Returns_any|]. intros identityResponse _.
  eapply Returns_bind; [apply Returns_lift, Linkedin_parse_username|]. intros c Hc.
  eapply Returns_bind; [apply Returns_any|]. intros browser _.
  eapply Returns_bind; [apply Returns_any|]. intros contexts _.
  destruct (head contexts) as [context|];
    [|by apply Returns_ret, failure_is_linkedin_result].
  eapply Returns_bind; [apply Returns_any|]. intros pages _.
  destruct (head pages) as [page|];
    [|by apply Returns_ret, failure_is_linkedin_result].
  by apply Linkedin_guarded_returns.
Qed.

Lemma Mesh_login_flow_returns page context c :
  nonempty (Mesh.username c) -> nonempty (Mesh.organization c) ->
  Returns (Mesh.login_flow page context c) mesh_result.
Proof.
  intros Hu Hg. unfold Mesh.login_flow.
  do 3 (eapply Returns_bind; [apply Returns_any|]; intros _ _).
  eapply Returns_bind; [apply Returns_any|]. intros authPage _.
  do 4 (eapply Returns_bind; [apply Returns_any|]; intros _ _).
  eapply Returns_bind; [apply Returns_any|]. intros meshReached _.
  apply Returns_if.
  - eapply Returns_bind; [apply Returns_any|]. intros finalUrl _.
    by apply Returns_ret, failure_is_mesh_result.
  - apply Returns_ret. split; [done|]. intros _.
    by exists (Mesh.username c), (Mesh.organization c).
Qed.

Lemma Mesh_returns : Returns Mesh.LoginToComplyAdvantageMesh mesh_result.
Proof.
  unfold Mesh.LoginToComplyAdvantageMesh.
  eapply (Returns_bind _ _ (fun invalid =>
            forall r, invalid = Some r -> mesh_result r)).
  { unfold Mesh.validate_inputs. apply Returns_try_catch.
    - eapply Returns_bind; [apply Returns_any|]. intros _ _. by apply Returns_ret.
    - intros e. apply Returns_ret. intros r [= <-].
      by apply failure_is_mesh_result, or_else_nonempty. }
  intros [failure|] Hinvalid; [by apply Returns_ret, Hinvalid|].
  eapply (Returns_bind _ _ (fun acquired =>
            match acquired with
            | inl c => nonempty (Mesh.username c) /\ nonempty (Mesh.organization c)
            | inr r => mesh_result r
            end)).
  { unfold Mesh.acquire_credentials. apply Returns_try_catch.
    - eapply Returns_bind; [apply Returns_any|]. intros config _.
      eapply Returns_bind; [apply Returns_any|]. intros identityResponse _.
      eapply Returns_bind; [apply Returns_lift, Mesh_parse_fields|]. intros c Hc.
      by apply Returns_ret.
    - intros e. apply Returns_ret. by apply failure_is_mesh_result, or_else_nonempty. }
  intros [c|failure] Hacquired; [|by apply Returns_ret].
  destruct Hacquired as [Hu Hg].
  eapply Returns_bind; [apply Returns_any|]. intros browser _.
  eapply Returns_bind; [apply Returns_any|]. intros contexts _.
  destruct (head contexts) as [context|];
    [|by apply Returns_ret, failure_is_mesh_result].
  eapply Returns_bind; [apply Returns_any|]. intros pages _.
  destruct (head pages) as [page|];
    [|by apply Returns_ret, failure_is_mesh_result].
  apply Returns_try_finally, Returns_try_catch.
  - by apply Mesh_login_flow_returns.
  - intros e. apply Returns_ret, failure_is_mesh_result. by apply or_else_nonempty.
Qed.

Lemma Agent_returns : Returns Agent.loginWithAgent agent_result.
Proof.
  unfold Agent.loginWithAgent. apply Returns_try_catch.
  - eapply Returns_bind; [apply Returns_any|]. intros config _.
    eapply Returns_bind; [apply Returns_any|]. intros _ _.
    eapply Returns_bind; [apply Returns_any|]. intros credentials _.
    eapply Returns_bind; [apply Returns_any|]. intros _ _.
    eapply Returns_bind; [apply Returns_any|]. intros _ _.
    apply Returns_ret. by split.
  - intros e. apply Returns_ret. split; [by apply or_else_nonempty|done].
Qed.

(** Extra X1.  Every result an entry point returns carries a non-empty
    message, and a successful result has one of the flow's success messages:
    for the LinkedIn flow the short-circuit result or [Logged in to Linkedin
    as <username>.] with a non-empty username; for the Mesh flow [Logged in to
    ComplyAdvantage Mesh as <username> (org: <organization>).] with both
    non-empty; for the agent flow the placeholder result. *)
Theorem results_are_well_formed (w : World) (r : LoginResult) :
  ((run Linkedin.LoginToLinkedin w).1 = Returned r -> linkedin_result r) /\
  ((run Mesh.LoginToComplyAdvantageMesh w).1 = Returned r -> mesh_result r) /\
  ((run Agent.loginWithAgent w).1 = Returned r -> agent_result r).
Proof.
  split; [|split].
  - apply Linkedin_returns.
  - apply Mesh_returns.
  - apply Agent_returns.
Qed.

Lemma results_are_well_formed_witness :
  linkedin_result Linkedin.already_authenticated /\
  mesh_result {| success := true;
                 message := "Logged in to ComplyAdvantage Mesh as u (org: acme)." |} /\
  agent_result {| success := true; message := "Agent-based login placeholder" |}.
Proof.
  split; [|split].
  - apply (proj1 (results_are_well_formed world_already_authenticated _)). reflexivity.
  - apply (proj1 (proj2 (results_are_well_formed world_mesh_dashboard _))). reflexivity.
  - apply (proj2 (proj2 (results_are_well_formed world_with_session _))). reflexivity.
Defined.

(** ** Configuration and input validation *)

Lemma white_space_rest_shorter s rest :
  white_space_rest s = Some rest -> (String.length rest < String.length s)%nat.
Proof.
  destruct s as [|c1 [|c2 [|c3 r3]]]; simpl; [done|..].
  - destruct (is_space c1); intros [= <-]; simpl; lia.
  - destruct (is_space c1); [intros [= <-]; simpl; lia|].
    destruct (_ && _); intros [= <-]; simpl; lia.
  - destruct (is_space c1); [intros [= <-]; simpl; lia|].
    destruct (_ && _); [intros [= <-]; simpl; lia|].
    destruct (is_wide_space c1 c2 c3); intros [= <-]; simpl; lia.
Qed.

(** Fuel beyond the length of the string makes no difference. *)
Lemma white_space_upto_fuel n m s :
  (String.length s <= n)%nat -> (String.length s <= m)%nat ->
  white_space_upto n s = white_space_upto m s.
Proof.
  revert m s. induction n as [|n IH]; intros m s Hn Hm.
  - destruct s; simpl in *; [by destruct m|lia].
  - destruct s as [|c r]; [by destruct m|].
    destruct m as [|m]; [simpl in Hm; lia|].
    cbn [white_space_upto]. destruct (white_space_rest (String c r)) as [rest|] eqn:E; [|done].
    apply white_space_rest_shorter in E. apply IH; lia.
Qed.

Lemma trim_start_upto_fuel n m s :
  (String.length s <= n)%nat -> (String.length s <= m)%nat ->
  trim_start_upto n s = trim_start_upto m s.
Proof.
  revert m s. induction n as [|n IH]; intros m s Hn Hm.
  - destruct s; simpl in *; [by destruct m|lia].
  - destruct m as [|m]; [by destruct s; simpl in *; [|lia]|].
    cbn [trim_start_upto]. destruct (white_space_rest s) as [rest|] eqn:E; [|done].
    apply white_space_rest_shorter in E. apply IH; lia.
Qed.

Lemma blank_unfold s :
  blank s =
  match s with
  | EmptyString => true
  | String _ _ =>
      match white_space_rest s with Some rest => blank rest | None => false end
  end.
Proof.
  destruct s as [|c r]; [done|]. unfold blank. cbn [String.length white_space_upto].
  destruct (white_space_rest (String c r)) as [rest|] eqn:E; [|done].
  apply white_space_rest_shorter in E. apply white_space_upto_fuel; simpl in *; lia.
Qed.

Lemma trim_start_unfold s :
  trim_start s =
  match white_space_rest s with Some rest => trim_start rest | None => s end.
Proof.
  destruct s as [|c r]; [done|]. unfold trim_start. cbn [String.length trim_start_upto].
  destruct (white_space_rest (String c r)) as [rest|] eqn:E; [|done].
  apply white_space_rest_shorter in E. apply trim_start_upto_fuel; simpl in *; lia.
Qed.

Lemma blank_trim_start s : blank (trim_start s) = blank s.
Proof.
  remember (String.length s) as n eqn:Hn. revert s Hn.
  induction n as [n IH] using lt_wf_ind. intros s ->.
  rewrite trim_start_unfold, (blank_unfold s).
  destruct (white_space_rest s) as [rest|] eqn:E.
  - destruct s as [|c r]; [done|].
    by apply (IH (String.length rest)); [apply white_space_rest_shorter|].
  - destruct s as [|c r]; [done|]. by rewrite blank_unfold, E.
Qed.

Lemma trim_end_empty s : trim_end s = "" <-> blank s = true.
Proof.
  destruct s as [|c rest]; [done|]. cbn [trim_end].
  by destruct (blank (String c rest)).
Qed.

(** [!s?.trim()] holds exactly of the strings of white space. *)
Lemma truthy_trim s : truthy (trim s) = negb (blank s).
Proof.
  unfold truthy, trim. f_equal. rewrite <- (blank_trim_start s).
  destruct (blank (trim_start s)) eqn:Hb.
  - apply trim_end_empty in Hb. by rewrite Hb.
  - apply String.eqb_neq. intros H. apply trim_end_empty in H. congruence.
Qed.

Lemma zod_string_min1_accepts msg input s :
  zod_string_min1 msg input = inl s <-> input = Some s /\ nonempty s.
Proof.
  unfold zod_string_min1. destruct input as [s'|]; [|split; [intros [=]|by intros [? _]]].
  destruct (truthy s') eqn:Hs.
  - apply truthy_nonempty in Hs. split; [by intros [= <-]|by intros [[= <-] _]].
  - apply truthy_false in Hs. split; [done|]. by intros [[= <-] H].
Qed.

Lemma zod_coerce_number_accepts Number d input n :
  zod_coerce_number_default Number d input = inl n <->
  match input with None => n = d | Some s => Number s = Some n end.
Proof.
  unfold zod_coerce_number_default. destruct input as [s|]; [|split; congruence].
  destruct (Number s); split; congruence.
Qed.

Lemma Linkedin_ConfigSchema_accepts Number s i t u c :
  Linkedin.ConfigSchema_parse Number s i t u = Returned c <->
  Linkedin.sessionId c = default "" s /\
  (i = Some (Linkedin.identityId c) /\ nonempty (Linkedin.identityId c)) /\
  match t with
  | None => Linkedin.timeoutMs c = 10000
  | Some x => Number x = Some (Linkedin.timeoutMs c)
  end /\
  Linkedin.homeUrl c = default "https://www.linkedin.com/uas/login" u.
Proof.
  unfold Linkedin.ConfigSchema_parse.
  rewrite <- (zod_string_min1_accepts "ANCHOR_IDENTITY_ID is required").
  rewrite <- (zod_coerce_number_accepts Number 10000).
  unfold zod_string_default.
  destruct (zod_string_min1 _ i), (zod_coerce_number_default Number 10000 t);
    destruct c; simpl; (split; [intros ?|intros ?; destruct_and?]; by simplify_eq/=).
Qed.

Lemma Mesh_ConfigSchema_accepts Number s k i t u m c :
  Mesh.ConfigSchema_parse Number s k i t u m = Returned c <->
  Mesh.sessionId c = default "" s /\
  Mesh.apiKey c = default "" k /\
  (i = Some (Mesh.identityId c) /\ nonempty (Mesh.identityId c)) /\
  match t with
  | None => Mesh.timeoutMs c = 10000
  | Some x => Number x = Some (Mesh.timeoutMs c)
  end /\
  Mesh.homeUrl c = default "https://complyadvantage.com/" u /\
  Mesh.meshUrl c = default "https://mesh.complyadvantage.com/" m.
Proof.
  unfold Mesh.ConfigSchema_parse.
  rewrite <- (zod_string_min1_accepts "ANCHOR_IDENTITY_ID is required").
  rewrite <- (zod_coerce_number_accepts Number 10000).
  unfold zod_string_default.
  destruct (zod_string_min1 _ i), (zod_coerce_number_default Number 10000 t);
    destruct c; simpl; (split; [intros ?|intros ?; destruct_and?]; by simplify_eq/=).
Qed.

Lemma Agent_ConfigSchema_accepts s i c :
  Agent.ConfigSchema_parse s i = Returned c <->
  (s = Some (Agent.sessionId c) /\ nonempty (Agent.sessionId c)) /\
  (i = Some (Agent.identityId c) /\ nonempty (Agent.identityId c)).
Proof.
  unfold Agent.ConfigSchema_parse.
  rewrite <- (zod_string_min1_accepts "ANCHOR_SESSION_ID is required").
  rewrite <- (zod_string_min1_accepts "ANCHOR_IDENTITY_ID is required").
  destruct (zod_string_min1 _ s), (zod_string_min1 _ i); destruct c; simpl;
    (split; [intros ?|intros ?; destruct_and?]; by simplify_eq/=).
Qed.

Lemma pair_nil_inj {A} (x y : A) : (x, @nil Action) = (y, []) <-> x = y.
Proof. split; congruence. Qed.

(** Extra X2.  [getConfig] resolves the configuration from the environment:
    it returns exactly when [ANCHOR_IDENTITY_ID] is set to a non-empty string
    and [ANCHOR_TIMEOUT_MS], if set, coerces to a number; the session id
    defaults to the empty string, the timeout to 10000 and the URLs are the
    built-in ones.  The Mesh flow reads its API key from
    [ANCHORBROWSER_API_KEY], with the empty string as default; the agent flow
    requires a non-empty [ANCHOR_SESSION_ID] as well and has no timeout. *)
Theorem configuration_is_resolved_from_the_environment (w : World) (h : list Action) :
  (forall c,
     Linkedin.getConfig w h = (Returned c, []) <->
     Linkedin.sessionId c = default "" (process_env w "ANCHOR_SESSION_ID") /\
     (process_env w "ANCHOR_IDENTITY_ID" = Some (Linkedin.identityId c) /\
      nonempty (Linkedin.identityId c)) /\
     match process_env w "ANCHOR_TIMEOUT_MS" with
     | None => Linkedin.timeoutMs c = 10000
     | Some x => coerce_number w x = Some (Linkedin.timeoutMs c)
     end /\
     Linkedin.homeUrl c = "https://www.linkedin.com/uas/login")
  /\
  (forall c,
     Mesh.getConfig w h = (Returned c, []) <->
     Mesh.sessionId c = default "" (process_env w "ANCHOR_SESSION_ID") /\
     Mesh.apiKey c = default "" (process_env w "ANCHORBROWSER_API_KEY") /\
     (process_env w "ANCHOR_IDENTITY_ID" = Some (Mesh.identityId c) /\
      nonempty (Mesh.identityId c)) /\
     match process_env w "ANCHOR_TIMEOUT_MS" with
     | None => Mesh.timeoutMs c = 10000
     | Some x => coerce_number w x = Some (Mesh.timeoutMs c)
     end /\
     Mesh.homeUrl c = "https://complyadvantage.com/" /\
     Mesh.meshUrl c = "https://mesh.complyadvantage.com/")
  /\
  (forall c,
     Agent.getConfig w h = (Returned c, []) <->
     (process_env w "ANCHOR_SESSION_ID" = Some (Agent.sessionId c) /\
      nonempty (Agent.sessionId c)) /\
     (process_env w "ANCHOR_IDENTITY_ID" = Some (Agent.identityId c) /\
      nonempty (Agent.identityId c))).
Proof.
  split; [|split]; intros c.
  - unfold Linkedin.getConfig. rewrite pair_nil_inj. apply Linkedin_ConfigSchema_accepts.
  - unfold Mesh.getConfig. rewrite pair_nil_inj. apply Mesh_ConfigSchema_accepts.
  - unfold Agent.getConfig. rewrite pair_nil_inj. apply Agent_ConfigSchema_accepts.
Qed.

Lemma Mesh_getConfig_pure w h : (Mesh.getConfig w h).2 = [].
Proof. done. Qed.

Lemma Mesh_validateRequiredInputs_run w h :
  Mesh.validateRequiredInputs w h
  = match Mesh.getConfig w h with
    | (Returned config, _) =>
        (if blank (Mesh.identityId config) then
           Thrown (Error "Missing required input ANCHOR_IDENTITY_ID. Please set ANCHOR_IDENTITY_ID environment variable.")
         else if blank (Mesh.apiKey config) then
           Thrown (Error "Missing required input ANCHOR_API_KEY. Please set ANCHOR_API_KEY environment variable.")
         else Returned tt, [])
    | (Thrown e, _) => (Thrown e, [])
    end.
Proof.
  unfold Mesh.validateRequiredInputs, bind.
  pose proof (Mesh_getConfig_pure w h) as Hpure.
  destruct (Mesh.getConfig w h) as [[config|e] ec]; simpl in Hpure; subst ec; [|done].
  rewrite !truthy_trim, !negb_involutive.
  destruct (blank (Mesh.identityId config)); [done|].
  by destruct (blank (Mesh.apiKey config)).
Qed.

(** Extra X3.  [validateRequiredInputs] of the Mesh flow passes exactly when
    the schema accepts the environment and neither the identity id nor the API
    key consists of white space only; a refused schema comes first, then the
    identity id, then the API key.  The API key is read from
    [ANCHORBROWSER_API_KEY] (so the validation fails when that variable is
    unset), and the variable [ANCHOR_API_KEY] that the error message names is
    never read: setting it changes nothing. *)
Theorem mesh_inputs_are_validated (w : World) (h : list Action) :
  (Mesh.validateRequiredInputs w h = (Returned tt, []) <->
   exists config, Mesh.getConfig w h = (Returned config, []) /\
     blank (Mesh.identityId config) = false /\ blank (Mesh.apiKey config) = false)
  /\
  (forall e,
     Mesh.validateRequiredInputs w h = (Thrown e, []) <->
     Mesh.getConfig w h = (Thrown e, []) \/
     exists config, Mesh.getConfig w h = (Returned config, []) /\
       (blank (Mesh.identityId config) = true /\
        e = Error "Missing required input ANCHOR_IDENTITY_ID. Please set ANCHOR_IDENTITY_ID environment variable."
        \/
        blank (Mesh.identityId config) = false /\ blank (Mesh.apiKey config) = true /\
        e = Error "Missing required input ANCHOR_API_KEY. Please set ANCHOR_API_KEY environment variable."))
  /\
  (process_env w "ANCHORBROWSER_API_KEY" = None ->
   Mesh.validateRequiredInputs w h <> (Returned tt, []))
  /\
  (forall value,
     Mesh.validateRequiredInputs (setenv "ANCHOR_API_KEY" value w) h
     = Mesh.validateRequiredInputs w h).
Proof.
  rewrite Mesh_validateRequiredInputs_run.
  pose proof (Mesh_getConfig_pure w h) as Hpure.
  destruct (Mesh.getConfig w h) as [[config|e0] ec] eqn:Hc; simpl in Hpure; subst ec.
  - refine (conj _ (conj _ (conj _ _))).
    + split.
      * intros H. exists config. split; [done|].
        destruct (blank (Mesh.identityId config)); [done|].
        by destruct (blank (Mesh.apiKey config)).
      * intros (config' & [= <-] & -> & ->). done.
    + intros e. split.
      * intros H. right. exists config. split; [done|].
        destruct (blank (Mesh.identityId config)); [left; split; congruence|].
        destruct (blank (Mesh.apiKey config)); [right; repeat split; congruence|done].
      * intros [[=]|(config' & [= <-] & [[-> ->]|(-> & -> & ->)])]; done.
    + intros Hkey. unfold Mesh.getConfig in Hc.
      apply pair_nil_inj, Mesh_ConfigSchema_accepts in Hc.
      destruct Hc as (_ & Hk & _). rewrite Hkey in Hk. simpl in Hk. rewrite Hk. simpl.
      by destruct (blank (Mesh.identityId config)).
    + intros value. rewrite Mesh_validateRequiredInputs_run.
      change (Mesh.getConfig (setenv "ANCHOR_API_KEY" value w) h) with (Mesh.getConfig w h).
      by rewrite Hc.
  - refine (conj _ (conj _ (conj _ _))).
    + split; [done|]. by intros (config' & [=] & _).
    + intros e. split; [intros [= <-]; by left|].
      intros [[= <-]|(config' & [=] & _)]. done.
    + done.
    + intros value. rewrite Mesh_validateRequiredInputs_run.
      change (Mesh.getConfig (setenv "ANCHOR_API_KEY" value w) h) with (Mesh.getConfig w h).
      by rewrite Hc.
Qed.

(** An identity id that is a no-break space passes the schema and fails the
    validation. *)
Lemma mesh_inputs_are_validated_witness :
  Mesh.validateRequiredInputs world_blank_identity []
  = (Thrown (Error "Missing required input ANCHOR_IDENTITY_ID. Please set ANCHOR_IDENTITY_ID environment variable."),
     []).
Proof.
  apply (proj1 (proj2 (mesh_inputs_are_validated world_blank_identity []))).
  right. eexists. split; [reflexivity|]. left. split; reflexivity.
Defined.

(** ** The first call of an attempt *)

Lemma Starts_call a : Starts a (call a).
Proof. intros w h. by exists []. Qed.

Lemma Starts_bind {A B} a (m : M A) (f : A -> M B) : Starts a m -> Starts a (bind m f).
Proof.
  intros Hm w h. destruct (Hm w h) as [r Hr]. unfold bind.
  destruct (m w h) as [[x|e] e1]; simpl in *; subst e1; [|by eauto].
  destruct (f x w (h ++ a :: r)); simpl. by eauto.
Qed.

Lemma Starts_try_catch {A} a (m : M A) handler : Starts a m -> Starts a (try_catch m handler).
Proof.
  intros Hm w h. destruct (Hm w h) as [r Hr]. unfold try_catch.
  destruct (m w h) as [[x|e] e1]; simpl in *; subst e1; [by eauto|].
  destruct (handler e w (h ++ a :: r)); simpl. by eauto.
Qed.

Lemma Starts_nonempty {A} a (m : M A) w h : Starts a m -> (m w h).2 <> [].
Proof. intros Hm. destruct (Hm w h) as [r ->]. done. Qed.

Lemma after_config {A B} (config : M A) (k : A -> M B) w c :
  config w [] = (Returned c, []) -> bind config k w [] = k c w [].
Proof. unfold bind. intros ->. simpl. by destruct (k c w []). Qed.

Lemma try_after_config {A B} (config : M A) (k : A -> M B) handler w c :
  config w [] = (Returned c, []) ->
  try_catch (bind config k) handler w [] = try_catch (k c) handler w [].
Proof. intros H. unfold try_catch. by rewrite (after_config _ _ _ _ H). Qed.

Lemma Linkedin_getConfig_pure w h : (Linkedin.getConfig w h).2 = [].
Proof. done. Qed.

Lemma Agent_getConfig_pure w h : (Agent.getConfig w h).2 = [].
Proof. done. Qed.

Lemma Linkedin_fetch_starts identityId :
  Starts NewAnchorBrowser (Linkedin.fetchIdentityCredentials identityId).
Proof. apply Starts_bind, Starts_call. Qed.

Lemma Mesh_fetch_starts identityId :
  Starts NewAnchorBrowser (Mesh.fetchIdentityCredentials identityId).
Proof. apply Starts_bind, Starts_call. Qed.

Lemma Mesh_validate_inputs_run w :
  Mesh.validate_inputs w []
  = match Mesh.validateRequiredInputs w [] with
    | (Returned _, _) => (Returned None, [])
    | (Thrown e, _) =>
        (Returned (Some {| success := false;
                           message := or_else (errorMessage e) "Missing required inputs" |}),
         [])
    end.
Proof.
  unfold Mesh.validate_inputs, try_catch, bind. rewrite Mesh_validateRequiredInputs_run.
  pose proof (Mesh_getConfig_pure w []) as Hpure.
  destruct (Mesh.getConfig w []) as [[config|e] ec]; simpl in Hpure; subst ec; [|done].
  destruct (blank (Mesh.identityId config)); [done|].
  by destruct (blank (Mesh.apiKey config)).
Qed.

Lemma bind_trace_nonempty {A B} (m : M A) (f : A -> M B) w h :
  (m w h).2 <> [] -> (bind m f w h).2 <> [].
Proof.
  unfold bind. destruct (m w h) as [[x|e] e1]; simpl; [|done].
  destruct (f x w (h ++ e1)); simpl. intros H1 H2. by apply app_eq_nil in H2 as [? _].
Qed.

Lemma Mesh_validateRequiredInputs_pure w h : (Mesh.validateRequiredInputs w h).2 = [].
Proof.
  rewrite Mesh_validateRequiredInputs_run. by destruct (Mesh.getConfig w h) as [[config|e] ec].
Qed.

Lemma Linkedin_refused w e :
  Linkedin.getConfig w [] = (Thrown e, []) -> run Linkedin.LoginToLinkedin w = (Thrown e, []).
Proof. intros He. unfold run, Linkedin.LoginToLinkedin, bind. by rewrite He. Qed.

Lemma Linkedin_accepted w c :
  Linkedin.getConfig w [] = (Returned c, []) -> (run Linkedin.LoginToLinkedin w).2 <> [].
Proof.
  intros Hc. unfold run, Linkedin.LoginToLinkedin. rewrite (after_config _ _ _ _ Hc).
  apply (Starts_nonempty NewAnchorBrowser), Starts_bind, Linkedin_fetch_starts.
Qed.

Lemma Mesh_refused w e :
  Mesh.validateRequiredInputs w [] = (Thrown e, []) ->
  run Mesh.LoginToComplyAdvantageMesh w
  = (Returned {| success := false;
                 message := or_else (errorMessage e) "Missing required inputs" |}, []).
Proof.
  intros He. unfold run, Mesh.LoginToComplyAdvantageMesh, bind.
  by rewrite Mesh_validate_inputs_run, He.
Qed.

Lemma Mesh_accepted w :
  Mesh.validateRequiredInputs w [] = (Returned tt, []) ->
  (run Mesh.LoginToComplyAdvantageMesh w).2 <> [].
Proof.
  intros Hv. unfold run, Mesh.LoginToComplyAdvantageMesh.
  rewrite (after_config _ _ _ None); [|by rewrite Mesh_validate_inputs_run, Hv].
  apply bind_trace_nonempty.
  pose proof (Mesh_validateRequiredInputs_run w []) as Hrun. rewrite Hv in Hrun.
  pose proof (Mesh_getConfig_pure w []) as Hpure.
  destruct (Mesh.getConfig w []) as [[config|e] ec] eqn:Hc; simpl in Hpure; subst ec;
    [|done].
  unfold Mesh.acquire_credentials. rewrite (try_after_config _ _ _ _ _ Hc).
  apply (Starts_nonempty NewAnchorBrowser), Starts_try_catch, Starts_bind, Mesh_fetch_starts.
Qed.

Lemma Agent_refused w e :
  Agent.getConfig w [] = (Thrown e, []) ->
  run Agent.loginWithAgent w
  = (Returned {| success := false;
                 message := or_else (errorMessage e) "Agent-based login failed" |}, []).
Proof. intros He. unfold run, Agent.loginWithAgent, try_catch, bind. by rewrite He. Qed.

Lemma Agent_accepted w c :
  Agent.getConfig w [] = (Returned c, []) -> (run Agent.loginWithAgent w).2 <> [].
Proof.
  intros Hc. unfold run, Agent.loginWithAgent. rewrite (try_after_config _ _ _ _ _ Hc).
  apply (Starts_nonempty NewAnchorBrowser), Starts_try_catch, Starts_bind, Starts_call.
Qed.

(** Extra X4.  No collaborator is contacted without a usable configuration,
    and with one the Anchor client is always constructed: the trace of an
    attempt is empty exactly when the configuration is refused (for the Mesh
    flow: when [validateRequiredInputs] throws).  On a refused configuration
    the LinkedIn flow throws the schema's error, while the Mesh flow and the
    agent flow return a failure result.  Its message is never empty; for an
    error raised by the flow itself, as the Mesh flow does on a blank identity
    id or API key, it is that error's message (the flow's fallback text, were
    that message empty).  Nothing is said of the text that [zod] makes of the
    issues of a refused schema. *)
Theorem no_call_without_configuration (w : World) :
  (((run Linkedin.LoginToLinkedin w).2 = [] <->
    exists e, Linkedin.getConfig w [] = (Thrown e, [])) /\
   (forall e, Linkedin.getConfig w [] = (Thrown e, []) ->
              run Linkedin.LoginToLinkedin w = (Thrown e, [])))
  /\
  (((run Mesh.LoginToComplyAdvantageMesh w).2 = [] <->
    exists e, Mesh.validateRequiredInputs w [] = (Thrown e, [])) /\
   (forall e, Mesh.validateRequiredInputs w [] = (Thrown e, []) ->
      exists msg,
        run Mesh.LoginToComplyAdvantageMesh w
        = (Returned {| success := false; message := msg |}, []) /\
        nonempty msg /\
        (forall m, e = Error m -> msg = or_else m "Missing required inputs")))
  /\
  (((run Agent.loginWithAgent w).2 = [] <->
    exists e, Agent.getConfig w [] = (Thrown e, [])) /\
   (forall e, Agent.getConfig w [] = (Thrown e, []) ->
      exists msg,
        run Agent.loginWithAgent w
        = (Returned {| success := false; message := msg |}, []) /\
        nonempty msg /\
        (forall m, e = Error m -> msg = or_else m "Agent-based login failed"))).
Proof.
  refine (conj (conj _ (Linkedin_refused w)) (conj (conj _ _) (conj _ _))).
  - split; [|intros [e He]; by rewrite (Linkedin_refused w e He)].
    pose proof (Linkedin_getConfig_pure w []) as Hpure.
    destruct (Linkedin.getConfig w []) as [[c|e] ec] eqn:Hc; simpl in Hpure; subst ec;
      [|by eauto].
    intros H. by destruct (Linkedin_accepted w c Hc).
  - split; [|intros [e He]; by rewrite (Mesh_refused w e He)].
    pose proof (Mesh_validateRequiredInputs_pure w []) as Hpure.
    destruct (Mesh.validateRequiredInputs w []) as [[[]|e] ev] eqn:Hv; simpl in Hpure;
      subst ev; [|by eauto].
    intros H. by destruct (Mesh_accepted w Hv).
  - intros e He. eexists. split; [exact (Mesh_refused w e He)|]. split.
    + by apply or_else_nonempty.
    + by intros m ->.
  - split; [|intros [e He]; by rewrite (Agent_refused w e He)].
    pose proof (Agent_getConfig_pure w []) as Hpure.
    destruct (Agent.getConfig w []) as [[c|e] ec] eqn:Hc; simpl in Hpure; subst ec;
      [|by eauto].
    intros H. by destruct (Agent_accepted w c Hc).
  - intros e He. eexists. split; [exact (Agent_refused w e He)|]. split.
    + by apply or_else_nonempty.
    + by intros m ->.
Qed.

Lemma no_call_without_configuration_witness :
  (run Linkedin.LoginToLinkedin world_no_identity).2 = [] /\
  run Mesh.LoginToComplyAdvantageMesh world_blank_identity
  = (Returned {| success := false;
                 message := "Missing required input ANCHOR_IDENTITY_ID. Please set ANCHOR_IDENTITY_ID environment variable." |},
     []) /\
  (run Agent.loginWithAgent world_no_identity).2 = [].
Proof.
  pose proof (no_call_without_configuration world_no_identity)
    as [[Hl _] [_ [Ha _]]].
  pose proof (no_call_without_configuration world_blank_identity)
    as [_ [[_ Hm] _]].
  split; [|split].
  - apply Hl. eexists. reflexivity.
  - destruct (Hm _ eq_refl) as (msg & -> & _ & Hmsg). by rewrite (Hmsg _ eq_refl).
  - apply Ha. eexists. reflexivity.
Defined.

(** ** The steps of the Mesh flow *)

Lemma Mesh_getConfig_any w h config :
  mesh_configured w config -> Mesh.getConfig w h = (Returned config, []).
Proof. done. Qed.

Lemma Mesh_with_config {A} (k : Mesh.Config -> M A) w h config :
  mesh_configured w config -> bind Mesh.getConfig k w h = k config w h.
Proof.
  intros Hc. unfold bind. rewrite (Mesh_getConfig_any w h config Hc). simpl.
  rewrite app_nil_r. by destruct (k config w h).
Qed.

Lemma Mesh_config_urls w config :
  mesh_configured w config ->
  Mesh.homeUrl config = "https://complyadvantage.com/" /\
  Mesh.meshUrl config = "https://mesh.complyadvantage.com/".
Proof.
  unfold mesh_configured, Mesh.getConfig. intros Hc.
  apply pair_nil_inj, Mesh_ConfigSchema_accepts in Hc. by destruct Hc as (_ & _ & _ & _ & ? & ?).
Qed.

Lemma Mesh_waitForVisible_run page selector w h config :
  mesh_configured w config ->
  Mesh.waitForVisible page selector None w h
  = (respond w h (WaitForSelector page selector (Mesh.timeoutMs config)),
     [WaitForSelector page selector (Mesh.timeoutMs config)]).
Proof.
  intros Hc. unfold Mesh.waitForVisible.
  rewrite bind_assoc, (Mesh_with_config _ _ _ _ Hc).
  unfold bind, ret, call. simpl. rewrite app_nil_r.
  by destruct (respond w h _).
Qed.

Lemma Mesh_navigateToHomepage_run page w h config :
  mesh_configured w config ->
  let goto := Goto page (Mesh.homeUrl config) "load" (Mesh.timeoutMs config) in
  let probe := IsVisible (first (locator page "#login-nav-button")) None in
  Mesh.navigateToHomepage page w h
  = match respond w h goto with
    | Returned _ => (Returned tt, [goto])
    | Thrown navErr =>
        (match respond w (h ++ [goto]) probe with
         | Returned true => Returned tt
         | _ => Thrown navErr
         end, [goto; probe])
    end.
Proof.
  intros Hc goto probe. unfold Mesh.navigateToHomepage.
  rewrite (Mesh_with_config _ _ _ _ Hc).
  cbv [try_catch catch_default bind call ret throw]. fold goto. fold probe.
  destruct (respond w h goto) as [[]|navErr]; [done|].
  by destruct (respond w (h ++ [goto]) probe) as [[]|].
Qed.

Lemma Linkedin_navigateToHomepage_run page config w h :
  let goto := Goto page (Linkedin.homeUrl config) "load" (Linkedin.timeoutMs config) in
  let probe := IsVisible (first (locator page "#login-nav-button")) None in
  Linkedin.navigateToHomepage page config w h
  = match respond w h goto with
    | Returned _ => (Returned tt, [goto])
    | Thrown navErr =>
        (match respond w (h ++ [goto]) probe with
         | Returned true => Returned tt
         | _ => Thrown navErr
         end, [goto; probe])
    end.
Proof.
  intros goto probe. unfold Linkedin.navigateToHomepage.
  cbv [try_catch catch_default bind call ret throw]. fold goto. fold probe.
  destruct (respond w h goto) as [[]|navErr]; [done|].
  by destruct (respond w (h ++ [goto]) probe) as [[]|].
Qed.

(** Extra X5.  [navigateToHomepage] (of the LinkedIn and of the Mesh flow)
    tolerates a failed page load when the login button shows: it returns
    exactly when [goto] returned or the visibility probe of
    [#login-nav-button] answered [true]; the probe is made only after a failed
    load; and the error it throws is always the error of the navigation, never
    that of the probe. *)
Theorem homepage_load_failure_is_tolerated :
  (forall page config w h,
     let goto := Goto page (Linkedin.homeUrl config) "load" (Linkedin.timeoutMs config) in
     let probe := IsVisible (first (locator page "#login-nav-button")) None in
     let run := Linkedin.navigateToHomepage page config w h in
     (run.1 = Returned tt <->
      returned (respond w h goto) = true \/
      respond w (h ++ [goto]) probe = Returned true) /\
     (forall e, run.1 = Thrown e -> respond w h goto = Thrown e) /\
     run.2 = if returned (respond w h goto) then [goto] else [goto; probe])
  /\
  (forall page config w h,
     mesh_configured w config ->
     let goto := Goto page (Mesh.homeUrl config) "load" (Mesh.timeoutMs config) in
     let probe := IsVisible (first (locator page "#login-nav-button")) None in
     let run := Mesh.navigateToHomepage page w h in
     (run.1 = Returned tt <->
      returned (respond w h goto) = true \/
      respond w (h ++ [goto]) probe = Returned true) /\
     (forall e, run.1 = Thrown e -> respond w h goto = Thrown e) /\
     run.2 = if returned (respond w h goto) then [goto] else [goto; probe]).
Proof.
  split.
  - intros page config w h goto probe run. subst run.
    rewrite Linkedin_navigateToHomepage_run. fold goto. fold probe.
    destruct (respond w h goto) as [[]|navErr]; simpl.
    { split; [split; [by left|done]|]. split; [done|done]. }
    destruct (respond w (h ++ [goto]) probe) as [[]|e']; simpl.
    + split; [split; [by right|done]|]. split; [done|done].
    + split; [split; [done|by intros [|]]|]. split; [by intros e [= <-]|done].
    + split; [split; [done|by intros [|]]|]. split; [by intros e [= <-]|done].
  - intros page config w h Hc goto probe run. subst run.
    rewrite (Mesh_navigateToHomepage_run _ _ _ _ Hc). fold goto. fold probe.
    destruct (respond w h goto) as [[]|navErr]; simpl.
    { split; [split; [by left|done]|]. split; [done|done]. }
    destruct (respond w (h ++ [goto]) probe) as [[]|e']; simpl.
    + split; [split; [by right|done]|]. split; [done|done].
    + split; [split; [done|by intros [|]]|]. split; [by intros e [= <-]|done].
    + split; [split; [done|by intros [|]]|]. split; [by intros e [= <-]|done].
Qed.

Lemma homepage_load_failure_is_tolerated_witness :
  (Mesh.navigateToHomepage 2%nat world_mesh_dashboard []).2
  = [Goto 2%nat "https://complyadvantage.com/" "load" 10000].
Proof.
  apply (proj2 homepage_load_failure_is_tolerated 2%nat mesh_config world_mesh_dashboard []).
  reflexivity.
Defined.

Lemma Mesh_clickWithFallback_run page selector description w h config :
  mesh_configured w config ->
  let element := first (locator page selector) in
  let wait := WaitForSelector page selector (Mesh.timeoutMs config) in
  let scroll := EvaluateScrollToTop page in
  let click := Click element (Some (Mesh.timeoutMs config)) in
  let script := EvaluateClick element in
  Mesh.clickWithFallback page selector description w h
  = match respond w h wait with
    | Thrown e => (Thrown e, [wait])
    | Returned _ =>
        match respond w (h ++ [wait]) scroll with
        | Thrown e => (Thrown e, [wait; scroll])
        | Returned _ =>
            match respond w (h ++ [wait; scroll]) click with
            | Returned _ => (Returned true, [wait; scroll; click])
            | Thrown _ =>
                (Returned (returned (respond w (h ++ [wait; scroll; click]) script)),
                 [wait; scroll; click; script])
            end
        end
    end.
Proof.
  intros Hc element wait scroll click script. unfold Mesh.clickWithFallback.
  rewrite (Mesh_with_config _ _ _ _ Hc). unfold bind at 1.
  rewrite (Mesh_waitForVisible_run _ _ _ _ _ Hc). fold wait.
  destruct (respond w h wait) as [[]|e]; [|done].
  cbv [bind try_catch Mesh.scrollToTop call ret]. fold element. fold scroll. fold click.
  fold script. rewrite <- ?app_assoc. simpl.
  destruct (respond w (h ++ [wait]) scroll) as [[]|e]; [|done].
  rewrite <- ?app_assoc. simpl.
  destruct (respond w (h ++ [wait; scroll]) click) as [[]|e]; [done|].
  rewrite <- ?app_assoc. simpl.
  by destruct (respond w (h ++ [wait; scroll; click]) script) as [[]|e'].
Qed.

(** Extra X6.  [clickWithFallback] of the Mesh flow: once the element is
    visible and the page scrolled, it never throws; the standard click is then
    made once, and the script click is made (once) exactly when the standard
    click threw; the result is [true] when one of the two clicks went through
    and [false] when both threw.  It throws only from the wait or the scroll,
    before any click is attempted. *)
Theorem click_falls_back_to_a_script_click (page : Page) (selector description : string)
    (w : World) (h : list Action) (config : Mesh.Config) :
  mesh_configured w config ->
  let element := first (locator page selector) in
  let wait := WaitForSelector page selector (Mesh.timeoutMs config) in
  let scroll := EvaluateScrollToTop page in
  let click := Click element (Some (Mesh.timeoutMs config)) in
  let script := EvaluateClick element in
  let ready := (returned (respond w h wait)
                && returned (respond w (h ++ [wait]) scroll))%bool in
  let clicked := returned (respond w (h ++ [wait; scroll]) click) in
  let scripted := returned (respond w (h ++ [wait; scroll; click]) script) in
  let run := Mesh.clickWithFallback page selector description w h in
  (run.1 = Returned true <-> (ready && (clicked || scripted))%bool = true) /\
  (run.1 = Returned false <-> (ready && negb clicked && negb scripted)%bool = true) /\
  ((exists e, run.1 = Thrown e) <-> ready = false) /\
  count is_standard_click run.2 = (if ready then 1 else 0)%nat /\
  count is_script_click run.2 = (if (ready && negb clicked)%bool then 1 else 0)%nat /\
  List.filter is_click run.2
  = (if ready then click :: (if clicked then [] else [script]) else []).
Proof.
  intros Hc element wait scroll click script ready clicked scripted run.
  subst run ready clicked scripted.
  rewrite (Mesh_clickWithFallback_run _ _ _ _ _ _ Hc).
  fold element. fold wait. fold scroll. fold click. fold script.
  destruct (respond w h wait) as [[]|e]; simpl;
    [|by refine (conj _ (conj _ (conj _ _))); [| |split; by eauto|]].
  destruct (respond w (h ++ [wait]) scroll) as [[]|e]; simpl;
    [|by refine (conj _ (conj _ (conj _ _))); [| |split; by eauto|]].
  destruct (respond w (h ++ [wait; scroll]) click) as [[]|e]; simpl;
    [by refine (conj _ (conj _ (conj _ _))); [| |split; [intros [? [=]]|]|]|].
  destruct (respond w (h ++ [wait; scroll; click]) script) as [[]|e']; simpl.
  all: by refine (conj _ (conj _ (conj _ _))); [| |split; [intros [? [=]]|]|].
Qed.

Lemma click_falls_back_to_a_script_click_witness :
  let run := Mesh.clickWithFallback 2%nat "#login-nav-button" "Login button"
               world_mesh_bare [] in
  count is_standard_click run.2 = 1%nat /\ count is_script_click run.2 = 1%nat.
Proof.
  pose proof (click_falls_back_to_a_script_click 2%nat "#login-nav-button" "Login button"
                world_mesh_bare [] mesh_config eq_refl) as (_ & _ & _ & H1 & H2 & _).
  split; [exact H1|exact H2].
Defined.

(** ** Opening the login modal and finding the authentication page *)

Lemma Mesh_clickWithFallback_no_goto page selector description :
  Bound is_goto 0 (Mesh.clickWithFallback page selector description).
Proof. bound. Qed.

Lemma Mesh_openLoginModal_run page w h config :
  mesh_configured w config ->
  let direct := Goto page (Mesh.meshUrl config) "load" (Mesh.timeoutMs config) in
  let modal := IsVisible (first (locator page "#mesh-li-modal-button, #loginModal")) None in
  Mesh.openLoginModal page w h
  = let '(oc, ec) := Mesh.clickWithFallback page "#login-nav-button" "Login button" w h in
    match oc with
    | Thrown e => (Thrown e, ec)
    | Returned false => (Returned false, ec ++ [direct])
    | Returned true =>
        match respond w (h ++ ec) modal with
        | Returned true => (Returned true, ec ++ [modal])
        | _ => (Returned false, ec ++ [modal; direct])
        end
    end.
Proof.
  intros Hc direct modal. unfold Mesh.openLoginModal.
  rewrite (Mesh_with_config _ _ _ _ Hc). unfold bind at 1.
  destruct (Mesh.clickWithFallback _ _ _ w h) as [[[]|e] ec]; [| |done].
  - cbv [Mesh.goto_mesh catch_default try_catch bind call ret negb]. fold modal. fold direct.
    destruct (respond w (h ++ ec) modal) as [[]|e]; simpl; rewrite ?app_nil_r;
      [done|by next_call..].
  - cbv [Mesh.goto_mesh catch_default try_catch bind call ret negb]. fold direct.
    by destruct (respond w (h ++ ec) direct) as [[]|e].
Qed.

(** Extra X7.  [openLoginModal] of the Mesh flow throws exactly when
    [clickWithFallback] on the login button does (a failing modal probe and a
    failing navigation are swallowed); it returns [true] exactly when the click
    went through and the modal probe answered [true], and then it has not
    navigated; whenever it returns [false] its last call is the direct
    navigation to the Mesh URL, made once. *)
Theorem login_modal_or_direct_navigation (page : Page) (w : World) (h : list Action)
    (config : Mesh.Config) :
  mesh_configured w config ->
  let direct := Goto page (Mesh.meshUrl config) "load" (Mesh.timeoutMs config) in
  let modal := IsVisible (first (locator page "#mesh-li-modal-button, #loginModal")) None in
  let click := Mesh.clickWithFallback page "#login-nav-button" "Login button" w h in
  let run := Mesh.openLoginModal page w h in
  (forall e, run.1 = Thrown e <-> click.1 = Thrown e) /\
  (run.1 = Returned true <->
   click.1 = Returned true /\ respond w (h ++ click.2) modal = Returned true) /\
  (run.1 = Returned true -> count is_goto run.2 = 0%nat) /\
  (run.1 = Returned false -> last run.2 = Some direct /\ count is_goto run.2 = 1%nat).
Proof.
  intros Hc direct modal click run. subst click run.
  rewrite (Mesh_openLoginModal_run _ _ _ _ Hc). fold direct. fold modal.
  pose proof (Mesh_clickWithFallback_no_goto page "#login-nav-button" "Login button" w h)
    as Hgoto.
  destruct (Mesh.clickWithFallback _ _ _ w h) as [[[]|e] ec]; simpl in *.
  - destruct (respond w (h ++ ec) modal) as [[]|e]; simpl.
    + refine (conj _ (conj _ (conj _ _))); [done|done| |done].
      intros _. rewrite count_app. unfold count at 2. simpl. lia.
    + refine (conj _ (conj _ (conj _ _))); [done|by split; [|intros [_ ?]]|done|].
      intros _. split; [|];
        [replace (ec ++ [modal; direct]) with ((ec ++ [modal]) ++ [direct])
           by (by rewrite <- app_assoc); by rewrite last_snoc|].
      rewrite count_app. unfold count at 2. simpl. lia.
    + refine (conj _ (conj _ (conj _ _))); [done|by split; [|intros [_ ?]]|done|].
      intros _. split; [|];
        [replace (ec ++ [modal; direct]) with ((ec ++ [modal]) ++ [direct])
           by (by rewrite <- app_assoc); by rewrite last_snoc|].
      rewrite count_app. unfold count at 2. simpl. lia.
  - refine (conj _ (conj _ (conj _ _))); [done|by split; [|intros [? _]]|done|].
    intros _. split; [by rewrite last_snoc|].
    rewrite count_app. unfold count at 2. simpl. lia.
  - refine (conj _ (conj _ (conj _ _))); [done|by split; [|intros [? _]]|done|done].
Qed.

Lemma login_modal_or_direct_navigation_witness :
  last (Mesh.openLoginModal 2%nat world_mesh_bare []).2
  = Some (Goto 2%nat "https://mesh.complyadvantage.com/" "load" 10000).
Proof.
  apply (login_modal_or_direct_navigation 2%nat world_mesh_bare [] mesh_config eq_refl).
  reflexivity.
Defined.

(** ** Selecting the authentication page *)

Lemma settle_all_rejects {A} (l : list (nat * (nat * Outcome A))) values :
  (exists c, c ∈ l /\ returned c.2.2 = false) -> exists e, settle_all l values = Thrown e.
Proof.
  revert values. induction l as [|[i [t [v|e]]] l IH]; intros values (c & Hc & Hr).
  - by apply elem_of_nil in Hc.
  - simpl. apply IH. exists c. split; [|done].
    apply elem_of_cons in Hc as [->|Hc]; [done|exact Hc].
  - simpl. by eauto.
Qed.

(** [Promise.all] rejects as soon as one of its promises does. *)
Lemma Promise_all_rejects {A} (ts : list (Task A)) w h :
  (exists o, o ∈ (start_all ts w h).*2 /\ returned o = false) ->
  exists e, (Promise_all ts w h).1 = Thrown e.
Proof.
  intros (o & Ho & Hr). unfold Promise_all. simpl.
  apply list_elem_of_fmap in Ho as ([t o'] & -> & Ho).
  apply list_elem_of_lookup in Ho as [i Hi].
  destruct (settle_all_rejects (completion_order (start_all ts w h))
              (replicate (length ts) None)) as [e He].
  { exists (i, (t, o')). split; [|done].
    rewrite completion_order_Permutation. apply elem_of_lookup_imap. by eauto. }
  exists e. by rewrite He.
Qed.

Lemma bind_ret_run {A B} (x : A) (f : A -> M B) w h : bind (ret x) f w h = f x w h.
Proof. unfold bind, ret. rewrite app_nil_r. by destruct (f x w h). Qed.

Lemma bind_call_run {B} a (f : RespTy a -> M B) w h :
  bind (call a) f w h
  = match respond w h a with
    | Returned v => let '(o, e) := f v w (h ++ [a]) in (o, a :: e)
    | Thrown err => (Thrown err, [a])
    end.
Proof. unfold bind, call. by destruct (respond w h a). Qed.

Lemma bind_catch_default_run {B} a d (f : RespTy a -> M B) w h :
  bind (catch_default (call a) d) f w h
  = let '(o, e) := f (match respond w h a with Returned v => v | Thrown _ => d end)
                     w (h ++ [a]) in
    (o, a :: e).
Proof.
  unfold bind, catch_default, try_catch, call, ret.
  destruct (respond w h a); simpl; rewrite ?app_nil_r; by destruct (f _ w (h ++ [a])).
Qed.

Lemma find_auth_page_cons p pages w h :
  Mesh.find_auth_page (p :: pages) w h
  = match respond w h (Url p) with
    | Returned url =>
        if Mesh.auth_regex_test url then (Returned (Some p), [Url p])
        else let '(o, e) := Mesh.find_auth_page pages w (h ++ [Url p]) in (o, Url p :: e)
    | Thrown err => (Thrown err, [Url p])
    end.
Proof.
  change (Mesh.find_auth_page (p :: pages))
    with (let! url := call (Url p) in
          if Mesh.auth_regex_test url then ret (Some p) else Mesh.find_auth_page pages).
  rewrite bind_call_run. destruct (respond w h (Url p)) as [url|e]; [|done].
  by destruct (Mesh.auth_regex_test url).
Qed.

Lemma find_auth_page_spec pages w h :
  (Mesh.find_auth_page pages w h).2 `prefix_of` (Url <$> pages) /\
  match (Mesh.find_auth_page pages w h).1 with
  | Returned (Some p) =>
      exists tr, (Mesh.find_auth_page pages w h).2 = tr ++ [Url p] /\
        answered auth_url_seen w h tr = false /\
        auth_url_seen (Url p) (respond w (h ++ tr) (Url p)) = true /\
        p ∈ pages
  | Returned None =>
      (Mesh.find_auth_page pages w h).2 = Url <$> pages /\
      answered auth_url_seen w h (Url <$> pages) = false
  | Thrown e =>
      exists tr p, (Mesh.find_auth_page pages w h).2 = tr ++ [Url p] /\
        answered auth_url_seen w h tr = false /\
        respond w (h ++ tr) (Url p) = Thrown e
  end.
Proof.
  revert h. induction pages as [|p pages IH]; intros h; [done|].
  rewrite find_auth_page_cons.
  destruct (respond w h (Url p)) as [url|e] eqn:E; simpl.
  2:{ split; [by apply prefix_cons, prefix_nil|]. exists [], p. by rewrite app_nil_r. }
  destruct (Mesh.auth_regex_test url) eqn:Hurl; simpl.
  { split; [by apply prefix_cons, prefix_nil|]. exists []. rewrite app_nil_r, E. simpl.
    split; [done|]. split; [done|]. split; [done|]. by left. }
  specialize (IH (h ++ [Url p])).
  destruct (Mesh.find_auth_page pages w (h ++ [Url p])) as [[[q|]|e] e2]; simpl in *.
  - destruct IH as (Hpre & tr & -> & Hno & Hyes & Hq). split; [by apply prefix_cons|].
    exists (Url p :: tr). simpl. rewrite E, Hurl. simpl.
    rewrite <- app_assoc in Hyes. split; [done|]. split; [done|]. split; [done|]. by right.
  - destruct IH as (Hpre & -> & Hno). split; [by apply prefix_cons|].
    rewrite E, Hurl. done.
  - destruct IH as (Hpre & tr & q & -> & Hno & Hthrown). split; [by apply prefix_cons|].
    exists (Url p :: tr), q. simpl. rewrite E, Hurl. simpl.
    rewrite <- app_assoc in Hthrown. done.
Qed.

(** Extra X8.  [selectMeshLoginOption] picks the authentication page in this
    order: a tab other than the current page that is already open (then
    nothing is clicked); else, when the Mesh button is visible, the tab opened
    by clicking it, whatever the order in which the click and the new-tab
    event settle, and the step throws when the event or the click fails; else
    the first page of a fresh listing whose URL passes the authentication
    test, and the current page when there is none.  The search reads the URLs
    in the order of the listing and stops at the first match. *)
Theorem authentication_page_is_selected (page : Page) (context : BrowserContext)
    (w : World) (h : list Action) (config : Mesh.Config) :
  mesh_configured w config ->
  let button := IsVisible (first (locator page "#mesh-li-modal-button")) None in
  let event := WaitForEvent context "page" (Mesh.timeoutMs config) in
  let click := Click (first (locator page "#mesh-li-modal-button")) None in
  let run := Mesh.selectMeshLoginOption page context w h in
  let read target history :=
    match respond w history (Url target) with
    | Returned _ => Returned target
    | Thrown e => Thrown e
    end in
  (forall pages other,
     respond w h (Pages context) = Returned pages ->
     List.find (fun p => negb (Nat.eqb p page)) pages = Some other ->
     run = (read other (h ++ [Pages context]), [Pages context; Url other]))
  /\
  (forall pages newPage,
     respond w h (Pages context) = Returned pages ->
     List.find (fun p => negb (Nat.eqb p page)) pages = None ->
     respond w (h ++ [Pages context]) button = Returned true ->
     respond w (h ++ [Pages context; button]) event = Returned newPage ->
     returned (respond w (h ++ [Pages context; button; event]) click) = true ->
     run = (read newPage (h ++ [Pages context; button; event; click]),
            [Pages context; button; event; click; Url newPage]))
  /\
  (forall pages,
     respond w h (Pages context) = Returned pages ->
     List.find (fun p => negb (Nat.eqb p page)) pages = None ->
     respond w (h ++ [Pages context]) button = Returned true ->
     returned (respond w (h ++ [Pages context; button]) event) = false \/
     returned (respond w (h ++ [Pages context; button; event]) click) = false ->
     (exists e, run.1 = Thrown e) /\ run.2 = [Pages context; button; event; click])
  /\
  (forall pages pages',
     respond w h (Pages context) = Returned pages ->
     List.find (fun p => negb (Nat.eqb p page)) pages = None ->
     respond w (h ++ [Pages context]) button <> Returned true ->
     respond w (h ++ [Pages context; button]) (Pages context) = Returned pages' ->
     let pre := [Pages context; button; Pages context] in
     let search := Mesh.find_auth_page pages' w (h ++ pre) in
     run = match search.1 with
           | Thrown e => (Thrown e, pre ++ search.2)
           | Returned found =>
               (read (default page found) (h ++ pre ++ search.2),
                pre ++ search.2 ++ [Url (default page found)])
           end)
  /\
  (forall pages history,
     let search := Mesh.find_auth_page pages w history in
     search.2 `prefix_of` (Url <$> pages) /\
     match search.1 with
     | Returned (Some p) =>
         exists tr, search.2 = tr ++ [Url p] /\
           answered auth_url_seen w history tr = false /\
           auth_url_seen (Url p) (respond w (history ++ tr) (Url p)) = true /\
           p ∈ pages
     | Returned None =>
         search.2 = Url <$> pages /\
         answered auth_url_seen w history (Url <$> pages) = false
     | Thrown e =>
         exists tr p, search.2 = tr ++ [Url p] /\
           answered auth_url_seen w history tr = false /\
           respond w (history ++ tr) (Url p) = Thrown e
     end).
Proof.
  intros Hc button event click run read. subst run.
  refine (conj _ (conj _ (conj _ (conj _ _)))).
  - intros pages other Hpages Hfind. unfold Mesh.selectMeshLoginOption.
    rewrite bind_call_run, Hpages. cbv beta zeta. rewrite Hfind.
    rewrite !bind_ret_run, bind_call_run. unfold read.
    by destruct (respond w (h ++ [Pages context]) (Url other)).
  - intros pages newPage Hpages Hfind Hbutton Hevent Hclick.
    unfold Mesh.selectMeshLoginOption.
    rewrite bind_call_run, Hpages. cbv beta zeta. rewrite Hfind.
    rewrite bind_assoc, bind_catch_default_run. fold button. rewrite Hbutton.
    cbv beta iota.
    rewrite bind_assoc, (Mesh_with_config _ _ _ _ Hc), bind_assoc.
    rewrite <- ?app_assoc. cbn [app]. fold event. fold click.
    unfold bind at 1.
    rewrite (Promise_all_fulfilled _ _ _ [Some newPage; None]).
    2:{ cbn [start_all fmap list_fmap act settle task_of snd].
        rewrite <- ?app_assoc. cbn [app]. rewrite Hevent.
        by destruct (respond w (h ++ [Pages context; button; event]) click). }
    cbn [map act task_of head mjoin option_join].
    rewrite !bind_ret_run, bind_call_run. rewrite <- ?app_assoc. cbn [app]. unfold read.
    by destruct (respond w (h ++ [Pages context; button; event; click]) (Url newPage)).
  - intros pages Hpages Hfind Hbutton Hfail.
    assert (exists e, Mesh.selectMeshLoginOption page context w h
                      = (Thrown e, [Pages context; button; event; click])) as [e ->];
      [|simpl; by eauto].
    unfold Mesh.selectMeshLoginOption.
    rewrite bind_call_run, Hpages. cbv beta zeta. rewrite Hfind.
    rewrite bind_assoc, bind_catch_default_run. fold button. rewrite Hbutton.
    cbv beta iota.
    rewrite bind_assoc, (Mesh_with_config _ _ _ _ Hc), bind_assoc.
    rewrite <- ?app_assoc. cbn [app]. fold event. fold click.
    unfold bind at 1.
    match goal with |- context [Promise_all ?ts w ?h0] =>
      destruct (Promise_all_rejects ts w h0) as [e He];
        [|pose proof (eq_refl : (Promise_all ts w h0).2 = map act ts) as Hcalls;
          destruct (Promise_all ts w h0) as [o calls]] end.
    { cbn [start_all fmap list_fmap act settle task_of snd].
      rewrite <- ?app_assoc. cbn [app].
      destruct Hfail as [Hfail|Hfail].
      - exists (match respond w (h ++ [Pages context; button]) event with
                | Returned v => Returned (Some v)
                | Thrown e => Thrown e
                end).
        split; [by left|]. by destruct (respond w (h ++ [Pages context; button]) event).
      - exists (match respond w (h ++ [Pages context; button; event]) click with
                | Returned _ => Returned None
                | Thrown e => Thrown e
                end).
        split; [by right; left|].
        by destruct (respond w (h ++ [Pages context; button; event]) click). }
    simpl in He, Hcalls. subst o calls. simpl. by eauto.
  - intros pages pages' Hpages Hfind Hbutton Hpages' pre search.
    unfold Mesh.selectMeshLoginOption.
    rewrite bind_call_run, Hpages. cbv beta zeta. rewrite Hfind.
    rewrite bind_assoc, bind_catch_default_run. fold button.
    assert (match respond w (h ++ [Pages context]) button with
            | Returned v => v
            | Thrown _ => false
            end = false) as ->.
    { destruct (respond w (h ++ [Pages context]) button) as [[]|e]; done. }
    cbv beta iota. rewrite bind_ret_run. cbv beta iota.
    rewrite bind_assoc, bind_call_run.
    rewrite <- ?app_assoc. cbn [app]. rewrite Hpages'.
    rewrite bind_assoc. rewrite <- ?app_assoc. cbn [app]. fold pre.
    unfold bind at 1. fold search. subst read. cbv beta.
    destruct search as [[found|e] tr]; [|done]. cbn [fst snd].
    rewrite bind_ret_run, bind_call_run. rewrite <- ?app_assoc.
    by destruct (respond w (h ++ pre ++ tr) (Url (default page found))).
  - intros pages history. apply find_auth_page_spec.
Qed.

Lemma authentication_page_is_selected_witness :
  Mesh.selectMeshLoginOption 2%nat 1%nat world_second_tab []
  = (Returned 5%nat, [Pages 1%nat; Url 5%nat]).
Proof.
  apply (proj1 (authentication_page_is_selected 2%nat 1%nat world_second_tab []
                  mesh_config eq_refl) [2%nat; 5%nat] 5%nat); reflexivity.
Defined.

(** ** The calls a failure of the Mesh flow can be blamed on *)

Section Blame.
Variable valid : World -> Prop.
Variable q : forall a : Action, Outcome (RespTy a) -> bool.

Lemma Blames_never {A} (m : M A) :
  (forall w h, valid w -> returned (m w h).1 = true) -> Blames valid q m.
Proof. intros H w h e tr Hw Hrun. specialize (H w h Hw). by rewrite Hrun in H. Qed.

Lemma Blames_ret {A} (a : A) : Blames valid q (ret a).
Proof. by apply Blames_never. Qed.

Lemma Blames_call a :
  (forall e, q a (Thrown e) = true) -> Blames valid q (call a).
Proof.
  intros Hq w h e tr Hw [= Hrun <-]. simpl. by rewrite Hrun, Hq.
Qed.

Lemma Blames_bind {A B} (m : M A) (f : A -> M B) :
  Blames valid q m -> (forall a, Blames valid q (f a)) -> Blames valid q (bind m f).
Proof.
  intros Hm Hf w h e tr Hw. unfold bind.
  destruct (m w h) as [[a|e1] e1'] eqn:Hrun.
  - destruct (f a w (h ++ e1')) as [o e2] eqn:Hrun2. intros [= -> <-].
    rewrite answered_app. rewrite (Hf a w (h ++ e1') e e2 Hw Hrun2). by rewrite orb_true_r.
  - intros [= <- <-]. by apply (Hm w h e1).
Qed.

(** A handler that throws only on a blamed call makes the whole [try] so,
    whatever the body does. *)
Lemma Blames_try_catch {A} (m : M A) handler :
  (forall e, Blames valid q (handler e)) -> Blames valid q (try_catch m handler).
Proof.
  intros Hh w h e tr Hw. unfold try_catch.
  destruct (m w h) as [[a|e1] e1'] eqn:Hrun; [done|].
  destruct (handler e1 w (h ++ e1')) as [o e2] eqn:Hrun2. intros [= -> <-].
  rewrite answered_app. rewrite (Hh e1 w (h ++ e1') e e2 Hw Hrun2). by rewrite orb_true_r.
Qed.

Lemma Blames_catch_default {A} (m : M A) d : Blames valid q (catch_default m d).
Proof. apply Blames_try_catch. intros e. apply Blames_ret. Qed.
End Blame.

Lemma Blames_getConfig config q :
  Blames (fun w => mesh_configured w config) q Mesh.getConfig.
Proof.
  apply Blames_never. intros w h Hw. by rewrite (Mesh_getConfig_any w h config Hw).
Qed.

Lemma Blames_essential_call valid a :
  mesh_essential a = true -> Blames valid essential_failed (call a).
Proof. intros Ha. apply Blames_call. intros e. unfold essential_failed. by rewrite Ha. Qed.

Lemma Blames_navigateToHomepage config page :
  Blames (fun w => mesh_configured w config) essential_failed (Mesh.navigateToHomepage page).
Proof.
  intros w h e tr Hw. rewrite (Mesh_navigateToHomepage_run _ _ _ _ Hw).
  destruct (Mesh_config_urls w config Hw) as [Hhome _]. cbv zeta.
  destruct (respond w h (Goto page _ _ _)) as [[]|navErr] eqn:E; [done|].
  intros [= _ <-]. simpl. rewrite E. unfold essential_failed. simpl. by rewrite Hhome.
Qed.

Lemma Blames_open_tab valid context page timeout :
  Blames valid essential_failed
    (Promise_all [ task_of (WaitForEvent context "page" timeout)
                           (fun newPage : Page => Some newPage);
                   task_of (Click (first (locator page "#mesh-li-modal-button")) None)
                           (fun _ => None) ]).
Proof.
  intros w h e tr Hw Hrun.
  assert (tr = [WaitForEvent context "page" timeout;
                Click (first (locator page "#mesh-li-modal-button")) None]) as ->
    by (by injection Hrun).
  simpl.
  destruct (respond w h (WaitForEvent context "page" timeout)) as [newPage|e1] eqn:E1;
    [|done].
  destruct (respond w (h ++ [WaitForEvent context "page" timeout])
              (Click (first (locator page "#mesh-li-modal-button")) None))
    as [[]|e2] eqn:E2; [|done].
  rewrite (Promise_all_fulfilled _ _ _ [Some newPage; None]) in Hrun; [done|].
  simpl. by rewrite E1, E2.
Qed.

Lemma Blames_find_auth_page valid pages :
  Blames valid essential_failed (Mesh.find_auth_page pages).
Proof.
  induction pages as [|p pages IH]; [apply Blames_ret|].
  change (Mesh.find_auth_page (p :: pages))
    with (let! url := call (Url p) in
          if Mesh.auth_regex_test url then ret (Some p) else Mesh.find_auth_page pages).
  apply Blames_bind; [by apply (Blames_essential_call valid (Url p))|].
  intros url. destruct (Mesh.auth_regex_test url); [apply Blames_ret|exact IH].
Qed.

(** Blame along the structure of a step of the Mesh flow. *)
Ltac blame_step :=
  cbv beta iota zeta;
  lazymatch goal with
  | |- Blames _ _ (bind _ _) => apply Blames_bind
  | |- Blames _ _ (try_catch _ _) => apply Blames_try_catch
  | |- Blames _ _ (catch_default _ _) => apply Blames_catch_default
  | |- Blames ?valid _ (call ?a) => apply (Blames_essential_call valid a); reflexivity
  | |- Blames _ _ (ret _) => apply Blames_ret
  | |- Blames _ _ Mesh.getConfig => apply Blames_getConfig
  | |- Blames _ _ (Promise_all _) => apply Blames_open_tab
  | |- Blames _ _ (Mesh.find_auth_page _) => apply Blames_find_auth_page
  | |- Blames _ _ (Mesh.navigateToHomepage _) => apply Blames_navigateToHomepage
  | |- Blames _ _ (match ?x with _ => _ end) => destruct x
  | |- Blames _ _ ?m => let hd := head_of m in unfold hd
  end.

Ltac blame := repeat (intros; blame_step).

Lemma Blames_login_flow config page context credentials :
  Blames (fun w => mesh_configured w config) essential_failed
    (Mesh.login_flow page context credentials).
Proof. blame. Qed.

(** Extra X9.  The best-effort steps of the Mesh flow never fail it.  When
    the steps throw, an essential call threw: the navigation to the homepage,
    a wait for the login button, the username or the password field, the
    scroll, a listing of the pages, the new-tab event or the click on the Mesh
    button, a URL read, or a fill or key press on the username or password
    field.  So a failure of the cookie banner handling, of a visibility probe,
    of the click on the login button, of the direct navigation to Mesh, of the
    wait for the Auth0 URL, of the organization step or of the wait for the
    dashboard URL alone is never the reason, and a run in which no essential
    call threw returns a result. *)
Theorem mesh_flow_fails_only_on_essential_calls (page : Page) (context : BrowserContext)
    (credentials : Mesh.ComplyAdvantageCredentials) (w : World) (h : list Action)
    (config : Mesh.Config) :
  mesh_configured w config ->
  (forall e, (Mesh.login_flow page context credentials w h).1 = Thrown e ->
     answered essential_failed w h (Mesh.login_flow page context credentials w h).2 = true)
  /\
  (answered essential_failed w h (Mesh.login_flow page context credentials w h).2 = false ->
   exists r, (Mesh.login_flow page context credentials w h).1 = Returned r).
Proof.
  intros Hw.
  assert (Hblame : forall e, (Mesh.login_flow page context credentials w h).1 = Thrown e ->
            answered essential_failed w h (Mesh.login_flow page context credentials w h).2
            = true).
  { intros e He. apply (Blames_login_flow config page context credentials w h e); [done|].
    rewrite <- He. by destruct (Mesh.login_flow page context credentials w h). }
  split; [done|]. intros Hnone.
  destruct (Mesh.login_flow page context credentials w h).1 as [r|e] eqn:Ho; [by eauto|].
  specialize (Hblame e eq_refl). congruence.
Qed.

Lemma mesh_flow_fails_only_on_essential_calls_witness :
  exists r,
    (Mesh.login_flow 2%nat 1%nat
       {| Mesh.organization := "acme"; Mesh.username := "u"; Mesh.password := "p" |}
       world_mesh_bare []).1 = Returned r.
Proof.
  apply (mesh_flow_fails_only_on_essential_calls 2%nat 1%nat _ world_mesh_bare []
           mesh_config eq_refl).
  vm_compute. reflexivity.
Defined.

(** ** Submits and clicks of the Mesh flow *)

(** Extra X10.  In every attempt of the Mesh flow each of the organization,
    username and password fields is submitted by [Enter] at most once, and no
    other [Enter] key-press is issued; there are at most three standard clicks
    and one script click, all on the cookie banner's accept button, the login
    button or the Mesh button of the login modal; and there are at most two
    navigations (the homepage, and the direct navigation to Mesh when the
    login modal did not open). *)
Theorem mesh_submits_each_field_at_most_once (w : World) :
  let tr := (run Mesh.LoginToComplyAdvantageMesh w).2 in
  (count (is_enter_on (on_selector "#organizationName")) tr <= 1)%nat /\
  (count (is_enter_on (on_selector "#username")) tr <= 1)%nat /\
  (count (is_enter_on (on_selector "#password")) tr <= 1)%nat /\
  count mesh_stray_submit tr = 0%nat /\
  (count is_standard_click tr <= 3)%nat /\
  (count is_script_click tr <= 1)%nat /\
  count mesh_stray_click tr = 0%nat /\
  (count is_goto tr <= 2)%nat.
Proof.
  simpl. unfold run.
  assert (H1 : Bound (is_enter_on (on_selector "#organizationName")) 1
                 Mesh.LoginToComplyAdvantageMesh) by bound.
  assert (H2 : Bound (is_enter_on (on_selector "#username")) 1
                 Mesh.LoginToComplyAdvantageMesh) by bound.
  assert (H3 : Bound (is_enter_on (on_selector "#password")) 1
                 Mesh.LoginToComplyAdvantageMesh) by bound.
  assert (H4 : Bound mesh_stray_submit 0 Mesh.LoginToComplyAdvantageMesh) by bound.
  assert (H5 : Bound is_standard_click 3 Mesh.LoginToComplyAdvantageMesh) by bound.
  assert (H6 : Bound is_script_click 1 Mesh.LoginToComplyAdvantageMesh) by bound.
  assert (H7 : Bound mesh_stray_click 0 Mesh.LoginToComplyAdvantageMesh) by bound.
  assert (H8 : Bound is_goto 2 Mesh.LoginToComplyAdvantageMesh) by bound.
  specialize (H1 w []). specialize (H2 w []). specialize (H3 w []). specialize (H4 w []).
  specialize (H5 w []). specialize (H6 w []). specialize (H7 w []). specialize (H8 w []).
  repeat split; lia.
Qed.

(** ** The setup of the session *)

Lemma Linkedin_entry :
  Linkedin.LoginToLinkedin
  = (let! config := Linkedin.getConfig in
     let! identityResponse := Linkedin.fetchIdentityCredentials (Linkedin.identityId config) in
     let! credentials :=
       lift (Linkedin.parseLinkedinCredentials (Identity.credentials identityResponse)) in
     linkedin_session config credentials).
Proof. reflexivity. Qed.

Lemma Mesh_entry :
  Mesh.LoginToComplyAdvantageMesh
  = (let! invalid := Mesh.validate_inputs in
     match invalid with
     | Some failure => ret failure
     | None =>
         let! acquired := Mesh.acquire_credentials in
         match acquired with
         | inr failure => ret failure
         | inl credentials => mesh_session credentials
         end
     end).
Proof. reflexivity. Qed.

Lemma lift_run {A B} (o : Outcome A) (f : A -> M B) w h :
  bind (lift o) f w h
  = match o with Returned a => f a w h | Thrown e => (Thrown e, []) end.
Proof.
  unfold bind, lift. destruct o as [a|e]; [|done]. rewrite app_nil_r.
  by destruct (f a w h).
Qed.

(** The LinkedIn entry point up to the extraction of the credentials. *)
Lemma Linkedin_setup_run w :
  run Linkedin.LoginToLinkedin w
  = match Linkedin.getConfig w [] with
    | (Thrown e, _) => (Thrown e, [])
    | (Returned config, _) =>
        let fetch := RetrieveCredentials (Linkedin.identityId config) in
        match respond w [] NewAnchorBrowser with
        | Thrown e => (Thrown e, [NewAnchorBrowser])
        | Returned _ =>
            match respond w [NewAnchorBrowser] fetch with
            | Thrown e => (Thrown e, [NewAnchorBrowser; fetch])
            | Returned response =>
                match Linkedin.parseLinkedinCredentials (Identity.credentials response) with
                | Thrown e => (Thrown e, [NewAnchorBrowser; fetch])
                | Returned credentials =>
                    let '(o, e) := linkedin_session config credentials w
                                     [NewAnchorBrowser; fetch] in
                    (o, NewAnchorBrowser :: fetch :: e)
                end
            end
        end
    end.
Proof.
  unfold run. rewrite Linkedin_entry.
  pose proof (Linkedin_getConfig_pure w []) as Hpure.
  destruct (Linkedin.getConfig w []) as [[config|e] ec] eqn:Hc; simpl in Hpure; subst ec.
  2:{ unfold bind. by rewrite Hc. }
  rewrite (after_config _ _ _ _ Hc). unfold Linkedin.fetchIdentityCredentials,
    Linkedin.getAnchorClient.
  rewrite bind_assoc, (bind_call_run NewAnchorBrowser).
  destruct (respond w [] NewAnchorBrowser) as [[]|e]; [|done].
  cbv beta. cbn [app].
  rewrite (bind_call_run (RetrieveCredentials (Linkedin.identityId config))).
  destruct (respond w [NewAnchorBrowser] _) as [response|e]; [|done].
  cbv beta. cbn [app]. rewrite lift_run.
  destruct (Linkedin.parseLinkedinCredentials _) as [credentials|e]; [|done].
  by destruct (linkedin_session config credentials w _).
Qed.

(** The Mesh entry point up to the extraction of the credentials. *)
Lemma Mesh_setup_run w :
  run Mesh.LoginToComplyAdvantageMesh w
  = match Mesh.validateRequiredInputs w [] with
    | (Thrown e, _) =>
        (Returned {| success := false;
                     message := or_else (errorMessage e) "Missing required inputs" |}, [])
    | (Returned _, _) =>
        match Mesh.getConfig w [] with
        | (Thrown e, _) => (Returned (mesh_no_credentials e), [])
        | (Returned config, _) =>
            let fetch := RetrieveCredentials (Mesh.identityId config) in
            match respond w [] NewAnchorBrowser with
            | Thrown e => (Returned (mesh_no_credentials e), [NewAnchorBrowser])
            | Returned _ =>
                match respond w [NewAnchorBrowser] fetch with
                | Thrown e => (Returned (mesh_no_credentials e), [NewAnchorBrowser; fetch])
                | Returned response =>
                    match Mesh.parseComplyAdvantageCredentials
                            (Identity.credentials response) with
                    | Thrown e =>
                        (Returned (mesh_no_credentials e), [NewAnchorBrowser; fetch])
                    | Returned credentials =>
                        let '(o, e) := mesh_session credentials w
                                         [NewAnchorBrowser; fetch] in
                        (o, NewAnchorBrowser :: fetch :: e)
                    end
                end
            end
        end
    end.
Proof.
  unfold run. rewrite Mesh_entry. unfold bind at 1. rewrite Mesh_validate_inputs_run.
  destruct (Mesh.validateRequiredInputs w []) as [[[]|e] ev]; [|done].
  cbn [app]. unfold bind at 1.
  unfold Mesh.acquire_credentials, try_catch.
  pose proof (Mesh_getConfig_pure w []) as Hpure.
  destruct (Mesh.getConfig w []) as [[config|e] ec] eqn:Hc; simpl in Hpure; subst ec.
  2:{ unfold bind at 1. by rewrite Hc. }
  rewrite (after_config _ _ _ _ Hc).
  unfold Mesh.fetchIdentityCredentials, Mesh.getAnchorClient.
  rewrite bind_assoc, (bind_call_run NewAnchorBrowser).
  destruct (respond w [] NewAnchorBrowser) as [[]|e]; [|done].
  cbv beta. cbn [app].
  rewrite (bind_call_run (RetrieveCredentials (Mesh.identityId config))).
  destruct (respond w [NewAnchorBrowser] _) as [response|e]; [|done].
  cbv beta. cbn [app]. rewrite lift_run.
  destruct (Mesh.parseComplyAdvantageCredentials _) as [credentials|e]; [|done].
  unfold ret. cbn [app].
  by destruct (mesh_session credentials w _).
Qed.

Lemma count_bind_at {A B} p n k (m : M A) (f : A -> M B) w h :
  (count p (m w h).2 <= n)%nat -> (forall a, Bound p k (f a)) ->
  (count p (bind m f w h).2 <= n + k)%nat.
Proof.
  intros Hm Hf. unfold bind. destruct (m w h) as [[a|e] e1]; simpl in *; [|lia].
  specialize (Hf a w (h ++ e1)). destruct (f a w (h ++ e1)) as [o e2]; simpl in *.
  rewrite count_app. lia.
Qed.

Lemma Linkedin_getAnchorBrowser_provision config credentials :
  Bound (unexpected_provision (linkedin_provision config credentials)) 0
    (Linkedin.getAnchorBrowser config (negb (truthy (Linkedin.otp credentials)))).
Proof.
  intros w h. unfold Linkedin.getAnchorBrowser, linkedin_provision, Linkedin.getAnchorClient.
  rewrite (bind_call_run NewAnchorBrowser).
  destruct (respond w h NewAnchorBrowser) as [[]|e]; [|done].
  destruct (truthy (Linkedin.sessionId config)); unfold call; simpl.
  - unfold count. simpl. by rewrite String.eqb_refl.
  - by destruct (truthy (Linkedin.otp credentials)).
Qed.

Lemma Agent_setupBrowser_provision config :
  Bound (unexpected_provision (Connect (Agent.sessionId config))) 0
    (Agent.setupBrowser config).
Proof.
  intros w h. unfold Agent.setupBrowser, Agent.getAnchorClient.
  rewrite (bind_call_run NewAnchorBrowser).
  destruct (respond w h NewAnchorBrowser) as [[]|e]; [|done].
  unfold call, count. simpl. by rewrite String.eqb_refl.
Qed.

#[global] Hint Resolve Linkedin_getAnchorBrowser_provision Agent_setupBrowser_provision
  : bound_db.

Lemma Linkedin_session_provision config credentials :
  Bound (unexpected_provision (linkedin_provision config credentials)) 0
    (linkedin_session config credentials).
Proof. bound. Qed.

Lemma Mesh_getAnchorBrowser_provision w h config :
  mesh_configured w config ->
  count (unexpected_provision (mesh_provision config)) (Mesh.getAnchorBrowser w h).2 = 0%nat.
Proof.
  intros Hc. unfold Mesh.getAnchorBrowser. rewrite (Mesh_with_config _ _ _ _ Hc).
  unfold Mesh.getAnchorClient, mesh_provision. rewrite (bind_call_run NewAnchorBrowser).
  destruct (respond w h NewAnchorBrowser) as [[]|e]; [|done].
  destruct (truthy (Mesh.sessionId config)); unfold call; simpl; [|done].
  unfold count. simpl. by rewrite String.eqb_refl.
Qed.

Lemma Mesh_session_provision w h config credentials :
  mesh_configured w config ->
  count (unexpected_provision (mesh_provision config)) (mesh_session credentials w h).2
  = 0%nat.
Proof.
  intros Hc. unfold mesh_session.
  assert (count (unexpected_provision (mesh_provision config))
            (bind Mesh.getAnchorBrowser
               (fun browser =>
                  let! contexts := call (Contexts browser) in
                  match head contexts with
                  | None => ret {| success := false;
                                   message := "Failed to get browser context" |}
                  | Some context =>
                      let! pages := call (Pages context) in
                      match head pages with
                      | None => ret {| success := false;
                                       message := "Failed to get browser page" |}
                      | Some page =>
                          try_finally
                            (try_catch (Mesh.login_flow page context credentials)
                                       Mesh.login_failed)
                            (call (Close browser))
                      end
                  end) w h).2 <= 0 + 0)%nat; [|lia].
  apply count_bind_at; [by rewrite (Mesh_getAnchorBrowser_provision _ _ _ Hc)|].
  destruct (mesh_provision config); bound.
Qed.

Lemma count_prefix2 p a b e :
  p a = false -> p b = false -> count p (a :: b :: e) = count p e.
Proof. intros Ha Hb. by rewrite !count_cons, Ha, Hb. Qed.

Lemma Agent_with_config w config :
  Agent.getConfig w [] = (Returned config, []) ->
  run Agent.loginWithAgent w
  = try_catch
      (Agent.getAnchorClient ;;
       let! credentials := call (RetrieveCredentials (Agent.identityId config)) in
       Agent.setupBrowser config ;;
       call (AgentTask Agent.RUN_AGENTIC_VALIDATION_PROMPT (Agent.sessionId config)
               ("https://" +:+ Identity.source credentials)) ;;
       ret {| success := true; message := "Agent-based login placeholder" |})
      (fun error =>
         ret {| success := false;
                message := or_else (errorMessage error) "Agent-based login failed" |})
      w [].
Proof. intros Hc. unfold run, Agent.loginWithAgent. by rewrite (try_after_config _ _ _ _ _ Hc). Qed.

(** Extra X11.  An attempt provisions at most one browser session, and only
    the one the configuration and the first bundle call for.  The LinkedIn
    flow connects to the session of [ANCHOR_SESSION_ID] when that is set, and
    otherwise creates a session, with the stealth options (proxy, captcha
    solver, extra stealth) exactly when the extracted one-time code is empty;
    the refresh of the credentials during the second factor never
    provisions.  The Mesh flow connects likewise, or creates a session without
    options; the agent flow only ever connects to the configured session. *)
Theorem one_session_is_provisioned (w : World) :
  ((count is_provision (run Linkedin.LoginToLinkedin w).2 <= 1)%nat /\
   (count is_provision (run Mesh.LoginToComplyAdvantageMesh w).2 <= 1)%nat /\
   (count is_provision (run Agent.loginWithAgent w).2 <= 1)%nat)
  /\
  (forall config response credentials,
     Linkedin.getConfig w [] = (Returned config, []) ->
     respond w [NewAnchorBrowser] (RetrieveCredentials (Linkedin.identityId config))
       = Returned response ->
     Linkedin.parseLinkedinCredentials (Identity.credentials response)
       = Returned credentials ->
     let expected :=
       if truthy (Linkedin.sessionId config) then Connect (Linkedin.sessionId config)
       else Create (if truthy (Linkedin.otp credentials)
                    then empty_configuration else stealth_configuration) in
     count (unexpected_provision expected) (run Linkedin.LoginToLinkedin w).2 = 0%nat)
  /\
  (forall config,
     Mesh.getConfig w [] = (Returned config, []) ->
     let expected :=
       if truthy (Mesh.sessionId config) then Connect (Mesh.sessionId config)
       else Create no_configuration in
     count (unexpected_provision expected) (run Mesh.LoginToComplyAdvantageMesh w).2
     = 0%nat)
  /\
  (forall config,
     Agent.getConfig w [] = (Returned config, []) ->
     count (unexpected_provision (Connect (Agent.sessionId config)))
           (run Agent.loginWithAgent w).2 = 0%nat).
Proof.
  refine (conj (conj _ (conj _ _)) (conj _ (conj _ _))).
  - assert (H : Bound is_provision 1 Linkedin.LoginToLinkedin) by bound. apply (H w []).
  - assert (H : Bound is_provision 1 Mesh.LoginToComplyAdvantageMesh) by bound.
    apply (H w []).
  - assert (H : Bound is_provision 1 Agent.loginWithAgent) by bound. apply (H w []).
  - intros config response credentials Hc Hr Hp expected.
    change expected with (linkedin_provision config credentials).
    rewrite Linkedin_setup_run, Hc. cbv zeta.
    destruct (respond w [] NewAnchorBrowser) as [[]|e]; [|done].
    rewrite Hr, Hp.
    pose proof (Linkedin_session_provision config credentials w
                  [NewAnchorBrowser; RetrieveCredentials (Linkedin.identityId config)]) as H.
    destruct (linkedin_session config credentials w _) as [o e]. simpl in *.
    rewrite count_prefix2; [lia|by destruct (linkedin_provision config credentials)..].
  - intros config Hc expected. change expected with (mesh_provision config).
    rewrite Mesh_setup_run, Hc. cbv zeta.
    destruct (Mesh.validateRequiredInputs w []) as [[[]|e] ev]; [|done].
    destruct (respond w [] NewAnchorBrowser) as [[]|e]; [|done].
    destruct (respond w [NewAnchorBrowser] _) as [response|e]; [|done].
    destruct (Mesh.parseComplyAdvantageCredentials _) as [credentials|e]; [|done].
    pose proof (Mesh_session_provision w
                  [NewAnchorBrowser; RetrieveCredentials (Mesh.identityId config)]
                  config credentials Hc) as H.
    destruct (mesh_session credentials w _) as [o e]. simpl in *.
    rewrite count_prefix2; [lia|by destruct (mesh_provision config)..].
  - intros config Hc. rewrite (Agent_with_config w config Hc).
    assert (H : forall m : M LoginResult,
              Bound (unexpected_provision (Connect (Agent.sessionId config))) 0 m ->
              count (unexpected_provision (Connect (Agent.sessionId config))) (m w []).2
              = 0%nat).
    { intros m Hm. specialize (Hm w []). lia. }
    apply H. bound.
Qed.

Lemma one_session_is_provisioned_witness :
  count (unexpected_provision (Create stealth_configuration))
        (run Linkedin.LoginToLinkedin world_stuck_on_login).2 = 0%nat /\
  count (unexpected_provision (Create empty_configuration))
        (run Linkedin.LoginToLinkedin world_with_otp).2 = 0%nat /\
  count (unexpected_provision (Create no_configuration))
        (run Mesh.LoginToComplyAdvantageMesh world_mesh_dashboard).2 = 0%nat /\
  count (unexpected_provision (Connect "session-1"))
        (run Agent.loginWithAgent world_with_session).2 = 0%nat.
Proof.
  refine (conj _ (conj _ (conj _ _))).
  - exact (proj1 (proj2 (one_session_is_provisioned world_stuck_on_login))
             linkedin_config bundle_password
             {| Linkedin.username := "u"; Linkedin.password := "p"; Linkedin.otp := "" |}
             eq_refl eq_refl eq_refl).
  - exact (proj1 (proj2 (one_session_is_provisioned world_with_otp))
             linkedin_config bundle_otp
             {| Linkedin.username := "u"; Linkedin.password := "p";
                Linkedin.otp := "123456" |}
             eq_refl eq_refl eq_refl).
  - exact (proj1 (proj2 (proj2 (one_session_is_provisioned world_mesh_dashboard)))
             mesh_config eq_refl).
  - exact (proj2 (proj2 (proj2 (one_session_is_provisioned world_with_session)))
             {| Agent.sessionId := "session-1"; Agent.identityId := "identity-1" |}
             eq_refl).
Defined.

(** ** Credentials come first *)

(** Extra X12.  No browser is touched before the credentials are in hand: an
    attempt that makes a call to the session provisioner or to the page driver
    has a usable configuration, constructed the client, got a bundle from the
    identity provider and extracted the flow's credentials from it (the agent
    flow extracts nothing), and these two calls come first in its trace.  So a
    failure of the identity provider or of the extraction never leaves a
    session behind. *)
Theorem browser_only_after_credentials (w : World) :
  ((0 < count is_browser_call (run Linkedin.LoginToLinkedin w).2)%nat ->
   exists config response credentials rest,
     Linkedin.getConfig w [] = (Returned config, []) /\
     respond w [] NewAnchorBrowser = Returned tt /\
     respond w [NewAnchorBrowser] (RetrieveCredentials (Linkedin.identityId config))
       = Returned response /\
     Linkedin.parseLinkedinCredentials (Identity.credentials response)
       = Returned credentials /\
     (run Linkedin.LoginToLinkedin w).2
       = NewAnchorBrowser :: RetrieveCredentials (Linkedin.identityId config) :: rest)
  /\
  ((0 < count is_browser_call (run Mesh.LoginToComplyAdvantageMesh w).2)%nat ->
   exists config response credentials rest,
     Mesh.validateRequiredInputs w [] = (Returned tt, []) /\
     Mesh.getConfig w [] = (Returned config, []) /\
     respond w [] NewAnchorBrowser = Returned tt /\
     respond w [NewAnchorBrowser] (RetrieveCredentials (Mesh.identityId config))
       = Returned response /\
     Mesh.parseComplyAdvantageCredentials (Identity.credentials response)
       = Returned credentials /\
     (run Mesh.LoginToComplyAdvantageMesh w).2
       = NewAnchorBrowser :: RetrieveCredentials (Mesh.identityId config) :: rest)
  /\
  ((0 < count is_browser_call (run Agent.loginWithAgent w).2)%nat ->
   exists config response rest,
     Agent.getConfig w [] = (Returned config, []) /\
     respond w [] NewAnchorBrowser = Returned tt /\
     respond w [NewAnchorBrowser] (RetrieveCredentials (Agent.identityId config))
       = Returned response /\
     (run Agent.loginWithAgent w).2
       = NewAnchorBrowser :: RetrieveCredentials (Agent.identityId config) :: rest).
Proof.
  refine (conj _ (conj _ _)).
  - rewrite Linkedin_setup_run.
    pose proof (Linkedin_getConfig_pure w []) as Hpure.
    destruct (Linkedin.getConfig w []) as [[config|e] ec]; simpl in Hpure; subst ec;
      [|by intros ?%Nat.lt_irrefl].
    cbv zeta.
    destruct (respond w [] NewAnchorBrowser) as [[]|e] eqn:E1;
      [|by intros ?%Nat.lt_irrefl].
    destruct (respond w [NewAnchorBrowser] _) as [response|e] eqn:E2;
      [|by intros ?%Nat.lt_irrefl].
    destruct (Linkedin.parseLinkedinCredentials _) as [credentials|e] eqn:E3;
      [|by intros ?%Nat.lt_irrefl].
    destruct (linkedin_session config credentials w _) as [o e]. intros _.
    by exists config, response, credentials, e.
  - rewrite Mesh_setup_run.
    pose proof (Mesh_validateRequiredInputs_pure w []) as Hv.
    destruct (Mesh.validateRequiredInputs w []) as [[[]|e] ev]; simpl in Hv; subst ev;
      [|by intros ?%Nat.lt_irrefl].
    pose proof (Mesh_getConfig_pure w []) as Hpure.
    destruct (Mesh.getConfig w []) as [[config|e] ec]; simpl in Hpure; subst ec;
      [|by intros ?%Nat.lt_irrefl].
    cbv zeta.
    destruct (respond w [] NewAnchorBrowser) as [[]|e] eqn:E1;
      [|by intros ?%Nat.lt_irrefl].
    destruct (respond w [NewAnchorBrowser] _) as [response|e] eqn:E2;
      [|by intros ?%Nat.lt_irrefl].
    destruct (Mesh.parseComplyAdvantageCredentials _) as [credentials|e] eqn:E3;
      [|by intros ?%Nat.lt_irrefl].
    destruct (mesh_session credentials w _) as [o e]. intros _.
    by exists config, response, credentials, e.
  - pose proof (Agent_getConfig_pure w []) as Hpure.
    destruct (Agent.getConfig w []) as [[config|e] ec] eqn:Hc; simpl in Hpure; subst ec.
    2:{ rewrite (Agent_refused w e Hc). by intros ?%Nat.lt_irrefl. }
    rewrite (Agent_with_config w config Hc).
    unfold try_catch, Agent.getAnchorClient. rewrite (bind_call_run NewAnchorBrowser).
    destruct (respond w [] NewAnchorBrowser) as [[]|e] eqn:E1;
      [|by intros ?%Nat.lt_irrefl].
    cbv beta. cbn [app].
    rewrite (bind_call_run (RetrieveCredentials (Agent.identityId config))).
    destruct (respond w [NewAnchorBrowser] _) as [response|e] eqn:E2;
      [|by intros ?%Nat.lt_irrefl].
    intros _. exists config, response.
    match goal with |- context [bind ?m ?f w ?h0] => destruct (bind m f w h0) as [[r|e] tr] end.
    + by exists tr.
    + eexists. by split; [|split; [|split]].
Qed.

Lemma browser_only_after_credentials_witness :
  exists rest,
    (run Linkedin.LoginToLinkedin world_stuck_on_login).2
    = NewAnchorBrowser :: RetrieveCredentials "identity-1" :: rest.
Proof.
  destruct (proj1 (browser_only_after_credentials world_stuck_on_login))
    as (config & response & credentials & rest & Hc & _ & _ & _ & Htr).
  - vm_compute. lia.
  - exists rest. by injection Hc as <-.
Defined.

(** ** The agent flow *)

Lemma Agent_calls : Bound not_agent_call 0 Agent.loginWithAgent.
Proof. bound. Qed.

(** Extra X13.  [loginWithAgent] never throws; it only constructs the client,
    fetches the credentials, connects to the configured session and starts the
    agent task (it never creates or closes a session and never drives a page
    itself); and a success result means that all five calls were made, in
    this order, the task being started on [https://] followed by the [source]
    of the bundle. *)
Theorem agent_flow_runs_the_task_once (w : World) :
  (exists r, (run Agent.loginWithAgent w).1 = Returned r) /\
  count not_agent_call (run Agent.loginWithAgent w).2 = 0%nat /\
  (forall r,
     (run Agent.loginWithAgent w).1 = Returned r -> success r = true ->
     exists config response,
       Agent.getConfig w [] = (Returned config, []) /\
       respond w [NewAnchorBrowser] (RetrieveCredentials (Agent.identityId config))
         = Returned response /\
       (run Agent.loginWithAgent w).2
       = [ NewAnchorBrowser; RetrieveCredentials (Agent.identityId config);
           NewAnchorBrowser; Connect (Agent.sessionId config);
           AgentTask Agent.RUN_AGENTIC_VALIDATION_PROMPT (Agent.sessionId config)
             ("https://" +:+ Identity.source response) ]).
Proof.
  refine (conj _ (conj _ _)).
  - apply agent_never_throws.
  - pose proof (Agent_calls w []) as H. unfold run. lia.
  - intros r.
    pose proof (Agent_getConfig_pure w []) as Hpure.
    destruct (Agent.getConfig w []) as [[config|e] ec] eqn:Hc; simpl in Hpure; subst ec.
    2:{ rewrite (Agent_refused w e Hc). by intros [= <-]. }
    rewrite (Agent_with_config w config Hc).
    cbv [try_catch bind call ret Agent.getAnchorClient Agent.setupBrowser].
    destruct (respond w [] NewAnchorBrowser) as [[]|e]; [|by intros [= <-]].
    cbn [app].
    destruct (respond w [NewAnchorBrowser] _) as [response|e] eqn:E2; [|by intros [= <-]].
    cbn [app].
    destruct (respond w [NewAnchorBrowser; _] NewAnchorBrowser) as [[]|e];
      [|by intros [= <-]].
    cbn [app].
    destruct (respond w [NewAnchorBrowser; _; NewAnchorBrowser] (Connect _)) as [browser|e];
      [|by intros [= <-]].
    cbn [app].
    destruct (respond w _ (AgentTask _ _ _)) as [[]|e]; [|by intros [= <-]].
    intros _ _. by exists config, response.
Qed.

Lemma agent_flow_runs_the_task_once_witness :
  (run Agent.loginWithAgent world_with_session).2
  = [ NewAnchorBrowser; RetrieveCredentials "identity-1"; NewAnchorBrowser;
      Connect "session-1";
      AgentTask Agent.RUN_AGENTIC_VALIDATION_PROMPT "session-1" "https://linkedin.com" ].
Proof.
  destruct (proj2 (proj2 (agent_flow_runs_the_task_once world_with_session))
              {| success := true; message := "Agent-based login placeholder" |}
              eq_refl eq_refl)
    as (config & response & Hc & Hr & Htr).
  injection Hc as <-. injection Hr as <-. exact Htr.
Defined.

(** ** The digits of the one-time code *)

Lemma run_script_prefix script w h r e :
  run_script script w h = (r, e) -> e `prefix_of` script /\ (r = None -> e = script).
Proof.
  revert h r e. induction script as [|a script IH]; intros h r e; simpl.
  - by intros [= <- <-].
  - destruct (respond w h a).
    + destruct (run_script script w (h ++ [a])) as [r' e'] eqn:Hs. intros [= <- <-].
      destruct (IH _ _ _ Hs) as [Hpre Hall].
      split; [by apply prefix_cons|]. intros ->. by rewrite Hall.
    + intros [= <- <-]. split; [by apply prefix_cons, prefix_nil|done].
Qed.

Lemma typed_app tr1 tr2 : typed (tr1 ++ tr2) = typed tr1 ++ typed tr2.
Proof. apply omap_app. Qed.

Lemma typed_prefix tr1 tr2 : tr1 `prefix_of` tr2 -> typed tr1 `prefix_of` typed tr2.
Proof. intros [k ->]. rewrite typed_app. by apply prefix_app_r. Qed.

Lemma typed_nil tr : count is_type_text tr = 0%nat -> typed tr = [].
Proof.
  induction tr as [|a tr IH]; [done|]. rewrite count_cons.
  destruct a; simpl; try (intros H; by apply IH). done.
Qed.

Lemma typed_digit_script inputs arr from n :
  (from + n <= length arr)%nat ->
  typed (digit_script inputs arr from n)
  = take n (drop from (imap (fun i c => (nth inputs (Z.of_nat i), c)) arr)).
Proof.
  revert from. induction n as [|n IH]; intros from Hn; [done|].
  destruct (lookup_lt_is_Some_2 arr from) as [c Hc]; [lia|].
  cbn [digit_script]. unfold typed. cbn [omap list_omap typed_digit].
  fold (typed (digit_script inputs arr (S from) n)). rewrite IH by lia.
  rewrite (drop_S _ (nth inputs (Z.of_nat from), c) from).
  2:{ by rewrite list_lookup_imap, Hc. }
  by rewrite Hc.
Qed.

Lemma Linkedin_submit_and_verify_types_nothing page loc step timeoutMs :
  Bound is_type_text 0
    (with_navigation_wait page (Press loc "Enter") ;;
     Linkedin.verify_or_click page step timeoutMs).
Proof. bound. Qed.

Lemma split_chars_concat s : String.concat "" (split_chars s) = s.
Proof.
  induction s as [|c s IH]; [done|]. simpl.
  destruct (split_chars s) as [|d rest] eqn:Hs.
  - simpl in IH. by rewrite <- IH.
  - simpl in *. by rewrite IH.
Qed.

(** Extra X14.  The multi-field tactic of the second factor types the
    characters of the one-time code in order, the character of index [i] into
    the field of index [i], and nothing else: what it types is always a prefix
    of the code, and when the tactic completes it is the first [count]
    characters, [count] being the number of fields (a code longer than the
    number of fields is cut, a shorter one is typed whole).  The characters
    are those of [split('')], which joined give the code back. *)
Theorem digits_are_typed_in_order (page : Page) (loc : Locator) (otp : string)
    (step : nat) (timeoutMs : Z) (w : World) (h : list Action) :
  let digits := imap (fun i c => (nth loc (Z.of_nat i), c)) (split_chars otp) in
  let run := Linkedin.otp_multi_field page loc otp step timeoutMs w h in
  typed run.2 `prefix_of` digits /\
  (forall count,
     respond w h (Count loc) = Returned count -> returned run.1 = true ->
     typed run.2 = take count digits) /\
  length digits = String.length otp /\
  String.concat "" (split_chars otp) = otp.
Proof.
  intros digits run. subst run.
  assert (Hlen : length digits = length (split_chars otp)).
  { unfold digits. by rewrite length_imap. }
  refine (conj _ (conj _ (conj _ (split_chars_concat otp)))).
  3:{ by rewrite Hlen, split_chars_length. }
  all: unfold Linkedin.otp_multi_field; rewrite (bind_call_run (Count loc)).
  all: destruct (respond w h (Count loc)) as [count|e] eqn:Hcount;
    [|try done; by apply prefix_nil].
  all: cbv zeta; rewrite fill_loop_run; unfold script_then.
  all: set (total := Nat.min count (length (split_chars otp))).
  all: assert (Hscript : typed (digit_script loc (split_chars otp) 0 total)
                         = take count digits).
  1,3: rewrite typed_digit_script by (subst total; lia); rewrite drop_0; subst total;
       destruct (Nat.min_spec count (length (split_chars otp))) as [[? ->]|[? ->]];
       [done|by rewrite <- Hlen, firstn_all, take_ge by lia
             || by rewrite !take_ge by lia].
  all: destruct (run_script _ w (h ++ [Count loc])) as [[err|] e] eqn:Hs;
    destruct (run_script_prefix _ _ _ _ _ Hs) as [Hpre Hall].
  - simpl. etrans; [by apply typed_prefix|]. rewrite Hscript. apply prefix_take.
  - rewrite (Hall eq_refl).
    pose proof (Linkedin_submit_and_verify_types_nothing page
                  (nth loc (Z.of_nat total - 1)) step timeoutMs w
                  ((h ++ [Count loc]) ++ digit_script loc (split_chars otp) 0 total)) as Hk.
    destruct (bind _ _ w _) as [o e2]. simpl in *.
    rewrite typed_app, (typed_nil e2), app_nil_r by lia. rewrite Hscript.
    apply prefix_take.
  - done.
  - intros count' [= <-] _. rewrite (Hall eq_refl).
    pose proof (Linkedin_submit_and_verify_types_nothing page
                  (nth loc (Z.of_nat total - 1)) step timeoutMs w
                  ((h ++ [Count loc]) ++ digit_script loc (split_chars otp) 0 total)) as Hk.
    destruct (bind _ _ w _) as [o e2]. simpl in *.
    by rewrite typed_app, (typed_nil e2), app_nil_r by lia.
Qed.

Lemma digits_are_typed_in_order_witness :
  typed (Linkedin.otp_multi_field 2%nat (locator 2%nat Linkedin.digit_selector) "123456"
           6 10000 world_six_digit_fields []).2
  = [ (nth (locator 2%nat Linkedin.digit_selector) 0, "1");
      (nth (locator 2%nat Linkedin.digit_selector) 1, "2");
      (nth (locator 2%nat Linkedin.digit_selector) 2, "3");
      (nth (locator 2%nat Linkedin.digit_selector) 3, "4");
      (nth (locator 2%nat Linkedin.digit_selector) 4, "5");
      (nth (locator 2%nat Linkedin.digit_selector) 5, "6") ].
Proof.
  apply (proj1 (proj2 (digits_are_typed_in_order 2%nat
                         (locator 2%nat Linkedin.digit_selector) "123456" 6 10000
                         world_six_digit_fields [])) 6%nat); reflexivity.
Defined.

(** ** The tests on URLs and on field names *)

Lemma String_prefix_spec n hay : String.prefix n hay = true <-> exists b, hay = n +:+ b.
Proof.
  revert hay. induction n as [|c n IH]; intros hay.
  - destruct hay; simpl; (split; [by eexists|done]).
  - destruct hay as [|d hay]; simpl; [split; [done|by intros [b [=]]]|].
    destruct (ascii_dec c d) as [->|Hne].
    + rewrite IH. split; [intros [b ->]; by exists b|intros [b [= ->]]; by exists b].
    + split; [done|]. intros [b [= ? _]]. done.
Qed.

(** [includes] is the test for a substring. *)
Lemma includes_spec n hay : includes n hay = true <-> exists a b, hay = a +:+ n +:+ b.
Proof.
  induction hay as [|d hay IH].
  - change (includes n "") with (if String.prefix n "" then true else false).
    destruct (String.prefix n "") eqn:Hp.
    + apply String_prefix_spec in Hp as [b Hb]. split; [|done]. intros _. by exists "", b.
    + split; [done|]. intros (a & b & Hab). destruct a; [|done]. simpl in Hab.
      assert (String.prefix n "" = true) as Ht; [|congruence].
      apply String_prefix_spec. by exists b.
  - change (includes n (String d hay))
      with (if String.prefix n (String d hay) then true else includes n hay).
    destruct (String.prefix n (String d hay)) eqn:Hp.
    + apply String_prefix_spec in Hp as [b Hb]. split; [|done]. intros _. by exists "", b.
    + rewrite IH. split.
      * intros (a & b & ->). by exists (String d a), b.
      * intros (a & b & Hab). destruct a as [|d' a].
        -- simpl in Hab. assert (String.prefix n (String d hay) = true) as Ht; [|congruence].
           apply String_prefix_spec. by exists b.
        -- injection Hab as -> ->. by exists a, b.
Qed.

Lemma lower_ascii_idemp c : lower_ascii (lower_ascii c) = lower_ascii c.
Proof. by destruct c as [[] [] [] [] [] [] [] []]. Qed.

Lemma toLowerCase_idemp s : toLowerCase (toLowerCase s) = toLowerCase s.
Proof. induction s as [|c s IH]; [done|]. simpl. by rewrite lower_ascii_idemp, IH. Qed.

(** Extra X15.  The URL checks are tests for a substring, not for a host: the
    fallback of [verifyLogin] accepts exactly the URLs that contain
    [linkedin.com/feed/] somewhere, that of [verifyMeshLogin] those that
    contain [mesh.complyadvantage.com/]; so after a timed-out wait the
    verification succeeds on any URL with that text in it.  The search for the
    authentication page and the test for the organization field compare
    without regard to case: they look for [complyadvantage], [auth0] or
    [mesh], and for [organization] or [company], in the lower-cased text. *)
Theorem url_checks_are_substring_tests :
  (forall url,
     Linkedin.feed_regex_test url = true <->
     exists a b, url = a +:+ "linkedin.com/feed/" +:+ b)
  /\
  (forall url,
     Mesh.mesh_regex_test url = true <->
     exists a b, url = a +:+ "mesh.complyadvantage.com/" +:+ b)
  /\
  (forall url,
     Mesh.auth_regex_test url = true <->
     exists a b, toLowerCase url = a +:+ "complyadvantage" +:+ b \/
                 toLowerCase url = a +:+ "auth0" +:+ b \/
                 toLowerCase url = a +:+ "mesh" +:+ b)
  /\
  (forall field,
     Mesh.is_org_field field = true <->
     exists a b, toLowerCase (field_name field) = a +:+ "organization" +:+ b \/
                 toLowerCase (field_name field) = a +:+ "company" +:+ b)
  /\
  (forall field value,
     Mesh.is_org_field {| field_name := toLowerCase (field_name field);
                          field_value := value |}
     = Mesh.is_org_field field)
  /\
  (forall page step timeoutMs fallbackTimeout w h e a b,
     let wait := WaitForURL page Linkedin.feed_pattern
                   (Z.max timeoutMs (default 60000 fallbackTimeout)) in
     respond w h wait = Thrown e ->
     respond w (h ++ [wait]) (Url page) = Returned (a +:+ "linkedin.com/feed/" +:+ b) ->
     (Linkedin.verifyLogin page step timeoutMs fallbackTimeout w h).1 = Returned true).
Proof.
  refine (conj _ (conj _ (conj _ (conj _ (conj _ _))))).
  - intros url. apply includes_spec.
  - intros url. apply includes_spec.
  - intros url. unfold Mesh.auth_regex_test. cbv zeta.
    rewrite !orb_true_iff, !includes_spec. split.
    + intros [[(a & b & H)|(a & b & H)]|(a & b & H)]; exists a, b; auto.
    + intros (a & b & [H|[H|H]]); [left; left|left; right|right]; by exists a, b.
  - intros field. unfold Mesh.is_org_field.
    rewrite !orb_true_iff, !includes_spec. split.
    + intros [(a & b & H)|(a & b & H)]; exists a, b; auto.
    + intros (a & b & [H|H]); [left|right]; by exists a, b.
  - intros field value. unfold Mesh.is_org_field. simpl. by rewrite toLowerCase_idemp.
  - intros page step timeoutMs fallbackTimeout w h e a b wait Hwait Hurl.
    rewrite verifyLogin_run. fold wait. rewrite Hwait, Hurl. simpl. f_equal.
    apply includes_spec. by exists a, b.
Qed.

Lemma url_checks_are_substring_tests_witness :
  let wait := WaitForURL 2%nat Linkedin.feed_pattern 10000 in
  let w := world_of env_identity
             (fun _ a =>
                match a as a' return Outcome (RespTy a') with
                | Url _ => Returned "https://example.org/?next=linkedin.com/feed/"
                | other => plain_answer bundle_password other
                end) in
  (Linkedin.verifyLogin 2%nat 2 10000 (Some 10000) w []).1 = Returned true.
Proof.
  intros wait w.
  apply (proj2 (proj2 (proj2 (proj2 (proj2 url_checks_are_substring_tests))))
           2%nat 2%nat 10000 (Some 10000) w [] (Error "Timeout exceeded")
           "https://example.org/?next=" ""); reflexivity.
Defined.

(** ** Where the extracted credentials come from *)

Lemma last_username_password_elem creds u p :
  last_username_password creds = Some (u, p) -> username_password u p ∈ creds.
Proof.
  induction creds as [|cred creds IH]; [done|]. simpl.
  destruct (last_username_password creds) as [found|].
  - intros [= ->]. right. by apply IH.
  - destruct cred; [|done..]. intros [= -> ->]. by left.
Qed.

Lemma last_otp_elem creds o :
  last_otp creds = Some o -> exists o', authenticator o' ∈ creds /\ default "" o' = o.
Proof.
  induction creds as [|cred creds IH]; [done|]. simpl.
  destruct (last_otp creds) as [found|].
  - intros [= ->]. destruct (IH eq_refl) as (o' & Ho' & Hd). exists o'. split; [by right|done].
  - destruct cred as [| o'|]; [done| |done]. intros [= <-]. exists o'. split; [by left|done].
Qed.

Lemma last_organization_elem creds g :
  last_organization creds = Some g ->
  exists fields field,
    custom fields ∈ creds /\ field ∈ fields /\ Mesh.is_org_field field = true /\
    field_value field = g.
Proof.
  induction creds as [|cred creds IH]; [done|]. simpl.
  destruct (last_organization creds) as [found|].
  - intros [= ->]. destruct (IH eq_refl) as (fields & field & Hin & Hrest).
    exists fields, field. split; [by right|done].
  - destruct cred as [| |fields]; [done|done|].
    destruct (List.find Mesh.is_org_field fields) as [field|] eqn:Hfind; [|done].
    intros [= <-]. apply find_some in Hfind as [Hin Horg].
    exists fields, field. split; [by left|]. split; [by apply list_elem_of_In|done].
Qed.

Lemma last_username_password_filter keep creds :
  (forall u p, keep (username_password u p) = true) ->
  last_username_password (List.filter keep creds) = last_username_password creds.
Proof.
  intros Hkeep. induction creds as [|cred creds IH]; [done|]. simpl.
  destruct (keep cred) eqn:Hk; simpl; rewrite IH; [done|].
  destruct (last_username_password creds); [done|].
  destruct cred; [by rewrite Hkeep in Hk|done..].
Qed.

Lemma last_otp_filter keep creds :
  (forall o, keep (authenticator o) = true) ->
  last_otp (List.filter keep creds) = last_otp creds.
Proof.
  intros Hkeep. induction creds as [|cred creds IH]; [done|]. simpl.
  destruct (keep cred) eqn:Hk; simpl; rewrite IH; [done|].
  destruct (last_otp creds); [done|].
  destruct cred; [done|by rewrite Hkeep in Hk|done].
Qed.

Lemma last_otp_filtered_out keep creds :
  (forall o, keep (authenticator o) = false) -> last_otp (List.filter keep creds) = None.
Proof.
  intros Hkeep. induction creds as [|cred creds IH]; [done|]. simpl.
  destruct (keep cred) eqn:Hk; simpl; rewrite ?IH; [|done].
  destruct cred; [done|by rewrite Hkeep in Hk|done].
Qed.

Lemma Linkedin_parse_last creds :
  Linkedin.parseLinkedinCredentials creds
  = let up := default ("", "") (last_username_password creds) in
    if (truthy up.1 && truthy up.2)%bool
    then Returned {| Linkedin.username := up.1; Linkedin.password := up.2;
                     Linkedin.otp := default "" (last_otp creds) |}
    else Thrown (Error (Linkedin.missing_message up.1 up.2)).
Proof.
  unfold Linkedin.parseLinkedinCredentials. rewrite Linkedin_parse_fold.
  destruct (default ("", "") (last_username_password creds)) as [u p]. simpl.
  by destruct (truthy u), (truthy p).
Qed.

Lemma Mesh_parse_last creds :
  Mesh.parseComplyAdvantageCredentials creds
  = let up := default ("", "") (last_username_password creds) in
    let g := default "" (last_organization creds) in
    if (truthy g && truthy up.1 && truthy up.2)%bool
    then Returned {| Mesh.organization := g; Mesh.username := up.1;
                     Mesh.password := up.2 |}
    else Thrown (Error (Mesh.missing_message g up.1 up.2)).
Proof.
  unfold Mesh.parseComplyAdvantageCredentials. rewrite Mesh_parse_fold.
  destruct (default ("", "") (last_username_password creds)) as [u p]. simpl.
  by destruct (truthy (default "" (last_organization creds))), (truthy u), (truthy p).
Qed.

(** Extra X16.  The extracted credentials are taken from the records of the
    bundle: username and password from one and the same [username_password]
    record, a non-empty one-time code from an [authenticator] record, the
    organization of the Mesh flow from an organization or company field of a
    [custom] record.  For the LinkedIn flow the record types that matter are
    those its registered flow [basic-2fa-login] declares: a bundle that is
    accepted has a record of the required type; records of a type that is
    neither required nor optional are ignored; and the optional records can be
    left out, which only empties the one-time code.  The registered
    application passes its schema. *)
Theorem extraction_uses_the_declared_methods (flow : Types.AuthFlow.AuthFlow) :
  authFlows = [("basic-2fa-login", flow)] ->
  let declared := Types.AuthFlow.requiredMethods flow ++ Types.AuthFlow.optionalMethods flow in
  (forall creds c,
     Linkedin.parseLinkedinCredentials creds = Returned c ->
     username_password (Linkedin.username c) (Linkedin.password c) ∈ creds /\
     (nonempty (Linkedin.otp c) -> authenticator (Some (Linkedin.otp c)) ∈ creds) /\
     (forall m, m ∈ Types.AuthFlow.requiredMethods flow ->
                exists cred, cred ∈ creds /\ method_of cred = m))
  /\
  (forall creds,
     Linkedin.parseLinkedinCredentials (List.filter (uses_method declared) creds)
     = Linkedin.parseLinkedinCredentials creds)
  /\
  (forall creds c,
     Linkedin.parseLinkedinCredentials creds = Returned c ->
     Linkedin.parseLinkedinCredentials
       (List.filter (uses_method (Types.AuthFlow.requiredMethods flow)) creds)
     = Returned {| Linkedin.username := Linkedin.username c;
                   Linkedin.password := Linkedin.password c;
                   Linkedin.otp := "" |})
  /\
  (forall creds c,
     Mesh.parseComplyAdvantageCredentials creds = Returned c ->
     username_password (Mesh.username c) (Mesh.password c) ∈ creds /\
     exists fields field,
       custom fields ∈ creds /\ field ∈ fields /\ Mesh.is_org_field field = true /\
       field_value field = Mesh.organization c)
  /\
  Types.ApplicationSchema_accepts linkedin = true.
Proof.
  intros [= <-]. cbn [Types.AuthFlow.requiredMethods Types.AuthFlow.optionalMethods app].
  refine (conj _ (conj _ (conj _ (conj _ eq_refl)))).
  - intros creds c. rewrite Linkedin_parse_last. cbv zeta.
    destruct (last_username_password creds) as [[u p]|] eqn:Hup; simpl; [|done].
    destruct (truthy u && truthy p)%bool; [|done]. intros [= <-]. simpl.
    pose proof (last_username_password_elem creds u p Hup) as Hin.
    refine (conj Hin (conj _ _)).
    + destruct (last_otp creds) as [o|] eqn:Ho; simpl; [|done].
      intros Hne. destruct (last_otp_elem creds o Ho) as ([o'|] & Hin' & Hd); simpl in Hd.
      * by subst o'.
      * by subst o.
    + intros m ->%list_elem_of_singleton. by exists (username_password u p).
  - intros creds. rewrite !Linkedin_parse_last.
    by rewrite last_username_password_filter, last_otp_filter.
  - intros creds c. rewrite !Linkedin_parse_last.
    rewrite last_username_password_filter, last_otp_filtered_out by done. cbv zeta.
    destruct (truthy _ && truthy _)%bool; [|done]. by intros [= <-].
  - intros creds c. rewrite Mesh_parse_last. cbv zeta.
    destruct (last_username_password creds) as [[u p]|] eqn:Hup; simpl;
      [|by rewrite andb_false_r].
    destruct (last_organization creds) as [g|] eqn:Hg; simpl; [|done].
    destruct (truthy g && truthy u && truthy p)%bool; [|done]. intros [= <-]. simpl.
    split; [by apply last_username_password_elem|by apply last_organization_elem].
Qed.

Lemma extraction_uses_the_declared_methods_witness :
  username_password "u" "p" ∈ Identity.credentials bundle_otp /\
  authenticator (Some "123456") ∈ Identity.credentials bundle_otp.
Proof.
  destruct (proj1 (extraction_uses_the_declared_methods _ eq_refl)
              (Identity.credentials bundle_otp)
              {| Linkedin.username := "u"; Linkedin.password := "p";
                 Linkedin.otp := "123456" |} eq_refl) as (Hup & Hotp & _).
  split; [exact Hup|]. apply Hotp. done.
Defined.

(** ** The optional steps of the Mesh flow *)

(** Extra X17.  The optional steps of the Mesh flow.  [dismissCookieBanner]
    never throws, and clicks the accept button exactly when the banner and the
    button both answered visible.  [enterOrganization] never throws: it waits
    7000 ms for the organization field, whatever the configured timeout, and
    fills and submits it only if the field showed up, giving up silently at
    the first call that fails.  [waitForAuth0Page] ignores a failed wait for
    the Auth0 URL and always reads the URL afterwards; it throws only if that
    read does. *)
Theorem optional_steps_never_throw (page : Page) (w : World) (h : list Action) :
  (let banner := IsVisible (locator page "#notice") (Some 2000) in
   let acceptBtn :=
     first (sub_locator (locator page "#notice")
              "button[title='Accept all'], button[aria-label='Accept all']") in
   let accept := IsVisible acceptBtn None in
   exists tr,
     Mesh.dismissCookieBanner page w h = (Returned tt, tr) /\
     tr = banner ::
          match respond w h banner with
          | Returned true =>
              accept ::
              match respond w (h ++ [banner]) accept with
              | Returned true => [Click acceptBtn None]
              | _ => []
              end
          | _ => []
          end)
  /\
  (forall organization,
     let wait := WaitForSelector page "#organizationName" 7000 in
     let fill := Fill (locator page "#organizationName") organization in
     let press := Press (locator page "#organizationName") "Enter" in
     exists tr,
       Mesh.enterOrganization page organization w h = (Returned tt, tr) /\
       tr = (run_script [wait; fill; press] w h).2)
  /\
  (forall config,
     mesh_configured w config ->
     let wait := WaitForURL page "**auth0.com/**" (Mesh.timeoutMs config) in
     Mesh.waitForAuth0Page page w h
     = (match respond w (h ++ [wait]) (Url page) with
        | Returned _ => Returned tt
        | Thrown e => Thrown e
        end, [wait; Url page])).
Proof.
  refine (conj _ (conj _ _)).
  - cbv zeta. cbv [Mesh.dismissCookieBanner try_catch catch_default bind call ret].
    destruct (respond w h (IsVisible (locator page "#notice") (Some 2000)))
      as [[]|e]; simpl; try by eexists.
    destruct (respond w (h ++ [IsVisible (locator page "#notice") (Some 2000)]) _)
      as [[]|e]; simpl; try by eexists.
    rewrite <- ?app_assoc. simpl.
    match goal with |- context [respond w ?h0 (Click ?l None)] =>
      destruct (respond w h0 (Click l None)) as [[]|e] end; by eexists.
  - intros organization. cbv zeta.
    cbv [Mesh.enterOrganization try_catch bind call ret run_script].
    destruct (respond w h (WaitForSelector page "#organizationName" 7000)) as [[]|e];
      simpl; try by eexists.
    destruct (respond w (h ++ [WaitForSelector page "#organizationName" 7000]) _) as [[]|e];
      simpl; try by eexists.
    rewrite <- ?app_assoc. simpl.
    match goal with |- context [respond w ?h0 (Press ?l ?k)] =>
      destruct (respond w h0 (Press l k)) as [[]|e] end; by eexists.
  - intros config Hc. cbv zeta. unfold Mesh.waitForAuth0Page.
    unfold try_catch at 1. unfold bind at 1. unfold try_catch.
    rewrite (Mesh_with_config _ _ _ _ Hc). unfold call at 1.
    destruct (respond w h (WaitForURL page "**auth0.com/**" (Mesh.timeoutMs config)))
      as [[]|e]; cbv [bind call ret]; simpl; rewrite ?app_nil_r;
      by destruct (respond w _ (Url page)).
Qed.

Lemma optional_steps_never_throw_witness :
  Mesh.waitForAuth0Page 2%nat world_mesh_dashboard []
  = (Returned tt, [WaitForURL 2%nat "**auth0.com/**" 10000; Url 2%nat]).
Proof.
  apply (proj2 (proj2 (optional_steps_never_throw 2%nat world_mesh_dashboard []))
           mesh_config eq_refl).
Defined.

(** ** Timeouts of the LinkedIn flow *)

Lemma Linkedin_session_timeouts config credentials :
  Bound (off_timeout (Linkedin.timeoutMs config)) 0 (linkedin_session config credentials).
Proof. bound. Qed.

(** Extra X18.  In the LinkedIn flow the navigation to the homepage and every
    wait for a field use the configured timeout, and every wait for a
    navigation after a submit is the fixed 45 s wait; all of them wait for the
    load event.  (The waits for the feed URL have their own rule, the larger
    of the configured timeout and a floor.) *)
Theorem linkedin_waits_use_the_configured_timeout (w : World) (config : Linkedin.Config) :
  Linkedin.getConfig w [] = (Returned config, []) ->
  count (off_timeout (Linkedin.timeoutMs config)) (run Linkedin.LoginToLinkedin w).2
  = 0%nat.
Proof.
  intros Hc. rewrite Linkedin_setup_run, Hc. cbv zeta.
  destruct (respond w [] NewAnchorBrowser) as [[]|e]; [|done].
  destruct (respond w [NewAnchorBrowser] _) as [response|e]; [|done].
  destruct (Linkedin.parseLinkedinCredentials _) as [credentials|e]; [|done].
  pose proof (Linkedin_session_timeouts config credentials w
                [NewAnchorBrowser; RetrieveCredentials (Linkedin.identityId config)]) as H.
  destruct (linkedin_session config credentials w _) as [o e]. simpl in *.
  rewrite count_prefix2; [lia|done..].
Qed.

Lemma linkedin_waits_use_the_configured_timeout_witness :
  count (off_timeout 10000) (run Linkedin.LoginToLinkedin world_six_digit_fields).2 = 0%nat /\
  (3 <= count is_timed_wait (run Linkedin.LoginToLinkedin world_six_digit_fields).2)%nat.
Proof.
  split.
  - exact (linkedin_waits_use_the_configured_timeout world_six_digit_fields linkedin_config
             eq_refl).
  - vm_compute. lia.
Defined.
